(** * decorate_3D_portal: head-coupled perspective and frame transport

    A shallow embedding of the numerical and state-machine core of the
    client:

    - [HeadPose]            utils/headPose.ts     (tracker, EMA, world conversion)
    - [OffAxisCamera]       utils/offAxisCamera.ts (asymmetric frustum)
    - [VideoTextureManager] utils/videoTextureManager.ts (binary frames)
    - [UseWebSocket]        hooks/useWebSocket.ts  (reconnect backoff)
    - [CalibrationManager]  utils/calibration.ts   (stored screen calibration)

    Number model.  JavaScript numbers that take part in arithmetic (poses,
    frustum bounds, screen sizes) are read as real numbers, and a statement
    over them is a statement about the expression the code evaluates, up to
    the rounding of that expression.  Where more than rounding is at stake
    the numbers are what the program has:

    - the capture timestamp of a frame is never computed with, only decoded
      from eight wire bytes and compared, and both operations are exact in
      IEEE 754: it is a binary64 value ([spec_float]) compared with
      [SFleb], which is what the JavaScript [<=] does, NaN included;
    - [clamp] and [ema] are also given on binary64 values ([Binary64]),
      for the bounds that rounding decides and for NaN;
    - pixelsPerCm is a quotient whose divisor can be 0: it is a
      [JsNumber], a real, a value that is not finite (Infinity, NaN), or
      the [null] that JSON writes for such a value;
    - reconnect delays are integers of milliseconds. *)

From Stdlib Require Import Reals Lra Lia ZArith List.
From Stdlib Require Import Floats.SpecFloat.
From Stdlib Require Import Sorting.Sorted.
From stdpp Require Import gmap strings.

(** ** Shared types (types/index.ts) *)

Module Types.

(** A face landmark [{x, y, z}], normalised to the camera image. *)
Record Point3 : Type := mkPoint3 { px : R; py : R; pz : R }.

Record HeadPose : Type := mkHeadPose {
  x : R;
  y : R;
  z : R;
  interOcularPx : R;
  timestamp : R
}.

(** [SmoothedHeadPose] is [{ ...smoothed, worldX, worldY, worldZ }]. *)
Record SmoothedHeadPose : Type := mkSmoothed {
  pose : HeadPose;
  worldX : R;
  worldY : R;
  worldZ : R
}.

(** What the [pixelsPerCm] field can hold: the calibration manager
    divides by the screen width to fill it, and JSON turns what is not a
    finite number into [null]. *)
Inductive JsNumber : Type :=
| Finite (v : R)
| NotFinite                         (* Infinity, -Infinity or NaN *)
| JsonNull.                         (* null, read back from JSON *)

Record CalibrationData : Type := mkCalibration {
  screenWidthCm : R;
  screenHeightCm : R;
  viewingDistanceCm : R;
  pixelsPerCm : JsNumber;
  referenceInterOcularPx : R;
  realInterOcularCm : R
}.

Record AxisStrength : Type := mkAxis { ax : R; ay : R; az : R }.

Record PerspectiveSettings : Type := mkSettings {
  nearPlane : R;
  farPlane : R;
  movementScale : R;
  smoothingFactor : R;
  axisStrength : AxisStrength
}.

End Types.

(** ** utils/calibration.ts (the constants only) *)

Module Calibration.
Import Types.
Open Scope R_scope.

Definition DEFAULT_CALIBRATION : CalibrationData :=
  {| screenWidthCm := 34;
     screenHeightCm := 19;
     viewingDistanceCm := 60;
     pixelsPerCm := Finite 0;
     referenceInterOcularPx := 1 / 10;
     realInterOcularCm := 63 / 10 |}.

End Calibration.

(** ** utils/calibration.ts: the manager

    [localStorage] is read and written by this class only, under its two
    keys: it is modelled by what those keys hold, the calibration object
    that [JSON.parse] gives back for the text last written by [save], and
    whether the calibrated mark is set.  The window supplies the screen
    size in CSS pixels and the device pixel ratio; the class reads it anew
    in every call, so every call is given the window of its moment.  The
    numbers passed in are finite; what the class computes from them may
    not be, and then [pixelsPerCm] holds it. *)

Module CalibrationManager.
Import Types Calibration.
Open Scope R_scope.

Record Window : Type := mkWindow {
  screen_width : R;
  screen_height : R;
  devicePixelRatio : R
}.

Record Storage : Type := mkStorage {
  item : option CalibrationData;    (* STORAGE_KEY, parsed *)
  calibrated : bool                 (* CALIBRATED_KEY holds 'true' *)
}.

Record Manager : Type := mkManager {
  data : CalibrationData;
  storage : Storage
}.

(** A [Partial<CalibrationData>]: [None] is an absent property. *)
Record PartialCalibration : Type := mkPartial {
  p_screenWidthCm : option R;
  p_screenHeightCm : option R;
  p_viewingDistanceCm : option R;
  p_pixelsPerCm : option R;
  p_referenceInterOcularPx : option R;
  p_realInterOcularCm : option R
}.

(** JavaScript truthiness of a number, and of an optional one. *)
Definition truthy (v : R) : bool := if Req_dec_T v 0 then false else true.

Definition truthy_opt (v : option R) : bool :=
  match v with
  | Some r => truthy r
  | None => false
  end.

(** [Number.MIN_VALUE], and the least magnitude that rounds to an
    infinity: half a unit in the last place above [Number.MAX_VALUE]. *)
Definition MIN_VALUE : R := / 2 ^ 1074.
Definition OVERFLOW : R := (2 - / 2 ^ 53) * 2 ^ 1023.

(** [a / b] of two finite numbers: a division by zero gives Infinity,
    -Infinity or NaN, a quotient that rounds beyond the largest number
    overflows to an infinity, and one that is at most half the smallest
    number underflows to 0. *)
Definition divide (a b : R) : JsNumber :=
  if Req_dec_T b 0 then NotFinite
  else if Rle_dec OVERFLOW (Rabs (a / b)) then NotFinite
  else if Rle_dec (Rabs (a / b)) (MIN_VALUE / 2) then Finite 0
  else Finite (a / b).

(** [v === 0] *)
Definition is_zero (v : JsNumber) : bool :=
  match v with
  | Finite r => negb (truthy r)
  | NotFinite | JsonNull => false
  end.

(** [window.screen.width * (window.devicePixelRatio || 1)] *)
Definition screenWidthPx (w : Window) : R :=
  screen_width w * (if truthy (devicePixelRatio w) then devicePixelRatio w else 1).

Definition computePixelsPerCm (w : Window) (d : CalibrationData) : JsNumber :=
  divide (screenWidthPx w) (screenWidthCm d).

Definition with_pixelsPerCm (d : CalibrationData) (v : JsNumber) : CalibrationData :=
  {| screenWidthCm := screenWidthCm d;
     screenHeightCm := screenHeightCm d;
     viewingDistanceCm := viewingDistanceCm d;
     pixelsPerCm := v;
     referenceInterOcularPx := referenceInterOcularPx d;
     realInterOcularCm := realInterOcularCm d |}.

(** A number written by [JSON.stringify] and read by [JSON.parse]: what
    is not a finite number is written as [null]. *)
Definition through_json (v : JsNumber) : JsNumber :=
  match v with
  | Finite r => Finite r
  | NotFinite | JsonNull => JsonNull
  end.

(** [JSON.parse(JSON.stringify(data))] *)
Definition stringify_parse (d : CalibrationData) : CalibrationData :=
  with_pixelsPerCm d (through_json (pixelsPerCm d)).

(** [{ ...DEFAULT_CALIBRATION, ...JSON.parse(raw) }]; [save] writes every
    field, so the parsed object decides them all. *)
Definition load (s : Storage) : CalibrationData :=
  match item s with
  | Some d => d
  | None => DEFAULT_CALIBRATION
  end.

(** The constructor. *)
Definition new (w : Window) (s : Storage) : Manager :=
  let d := load s in
  {| data := if is_zero (pixelsPerCm d)
             then with_pixelsPerCm d (computePixelsPerCm w d)
             else d;
     storage := s |}.

Definition save (m : Manager) : Manager :=
  {| data := data m;
     storage := {| item := Some (stringify_parse (data m)); calibrated := true |} |}.

Definition isCalibrated (m : Manager) : bool := calibrated (storage m).

Definition getCalibration (m : Manager) : CalibrationData := data m.

Definition pick (given : option R) (current : R) : R :=
  match given with
  | Some v => v
  | None => current
  end.

(** [Object.assign(this.data, partial)] *)
Definition assign (d : CalibrationData) (p : PartialCalibration) : CalibrationData :=
  {| screenWidthCm := pick (p_screenWidthCm p) (screenWidthCm d);
     screenHeightCm := pick (p_screenHeightCm p) (screenHeightCm d);
     viewingDistanceCm := pick (p_viewingDistanceCm p) (viewingDistanceCm d);
     pixelsPerCm := match p_pixelsPerCm p with
                    | Some v => Finite v
                    | None => pixelsPerCm d
                    end;
     referenceInterOcularPx := pick (p_referenceInterOcularPx p) (referenceInterOcularPx d);
     realInterOcularCm := pick (p_realInterOcularCm p) (realInterOcularCm d) |}.

Definition setCalibration (w : Window) (m : Manager) (p : PartialCalibration) : Manager :=
  let d := assign (data m) p in
  let d1 := if truthy_opt (p_screenWidthCm p) || truthy_opt (p_screenHeightCm p)
            then with_pixelsPerCm d (computePixelsPerCm w d)
            else d in
  save {| data := d1; storage := storage m |}.

Definition reset (w : Window) (m : Manager) : Manager :=
  {| data := with_pixelsPerCm DEFAULT_CALIBRATION
               (computePixelsPerCm w DEFAULT_CALIBRATION);
     storage := {| item := None; calibrated := false |} |}.

(** Convert pixels to cm using current calibration. *)
Definition getCmPerPixel (w : Window) (m : Manager) : JsNumber :=
  divide (screenWidthCm (data m)) (screenWidthPx w).

(** Auto-detect screen size from devicePixelRatio and screen dimensions. *)
Definition autoDetectScreenSize (w : Window) : R * R :=
  let widthInches := screen_width w / 96 in
  let heightInches := screen_height w / 96 in
  (widthInches * (254 / 100), heightInches * (254 / 100)).

(** The calls that change the manager. *)
Inductive Call : Type :=
| SetCalibration (p : PartialCalibration)
| Reset
| Save.

(** One call, with the window as it is when the call is made. *)
Definition call (m : Manager) (at_ : Window * Call) : Manager :=
  match snd at_ with
  | SetCalibration p => setCalibration (fst at_) m p
  | Reset => reset (fst at_) m
  | Save => save m
  end.

Definition calls (m : Manager) (ops : list (Window * Call)) : Manager :=
  fold_left call ops m.

(** A call that leaves pixelsPerCm to the manager and gives no zero
    width. *)
Definition leaves_derived (op : Call) : Prop :=
  match op with
  | SetCalibration p =>
      p_pixelsPerCm p = None /\
      (forall v, p_screenWidthCm p = Some v -> v <> 0)
  | Reset | Save => True
  end.

(** Whether a call derives pixelsPerCm from the window. *)
Definition derives (op : Call) : bool :=
  match op with
  | SetCalibration p => truthy_opt (p_screenWidthCm p) || truthy_opt (p_screenHeightCm p)
  | Reset => true
  | Save => false
  end.

(** The window under which pixelsPerCm was last derived: the one of the
    last call that derived it, or else [w0], the constructor's. *)
Definition derived_under (w0 : Window) (ops : list (Window * Call)) : Window :=
  fold_left (fun w at_ => if derives (snd at_) then fst at_ else w) ops w0.

End CalibrationManager.

(** ** JavaScript numbers as IEEE 754 binary64

    Where a bound depends on the rounding of the arithmetic, or a result on
    NaN, the numbers are the doubles themselves: [clamp], [ema] and the two
    places of the tracker that use nothing else. *)

Module Binary64.
Open Scope Z_scope.

Definition prec : Z := 53.
Definition emax : Z := 1024.

(** An integer literal. *)
Definition of_Z (n : Z) : spec_float := binary_normalize prec emax n 0 false.

Definition add : spec_float -> spec_float -> spec_float := SFadd prec emax.
Definition sub : spec_float -> spec_float -> spec_float := SFsub prec emax.
Definition mul : spec_float -> spec_float -> spec_float := SFmul prec emax.
Definition div : spec_float -> spec_float -> spec_float := SFdiv prec emax.

(** A decimal literal [n / d] (0.2 is [decimal 2 10]): the double nearest
    to the quotient. *)
Definition decimal (n d : Z) : spec_float := div (of_Z n) (of_Z d).

Definition isNaN (f : spec_float) : bool :=
  match f with
  | S754_nan => true
  | _ => false
  end.

Definition negative_zero (f : spec_float) : bool :=
  match f with
  | S754_zero true => true
  | _ => false
  end.

(** [Math.min(a, b)]: NaN if either is NaN; -0 counts as less than +0. *)
Definition Math_min (a b : spec_float) : spec_float :=
  if isNaN a || isNaN b then S754_nan
  else if SFltb a b then a
  else if SFltb b a then b
  else if negative_zero a then a else b.

(** [Math.max(a, b)] *)
Definition Math_max (a b : spec_float) : spec_float :=
  if isNaN a || isNaN b then S754_nan
  else if SFltb a b then b
  else if SFltb b a then a
  else if negative_zero a then b else a.

(** [Math.max(min, Math.min(max, val))] *)
Definition clamp (val min max : spec_float) : spec_float :=
  Math_max min (Math_min max val).

(** [alpha * current + (1 - alpha) * previous] *)
Definition ema (current previous alpha : spec_float) : spec_float :=
  add (mul alpha current) (mul (sub (of_Z 1) alpha) previous).

(** [setSmoothingFactor(factor)]: the factor it stores,
    [clamp(factor, 0.01, 1)]. *)
Definition setSmoothingFactor (factor : spec_float) : spec_float :=
  clamp factor (decimal 1 100) (of_Z 1).

(** The z of the pose that [update] returns, from the depth proxy [rawZ]:
    the proxy is clamped to the z range, then blended with the z of the
    previous pose if there is one. *)
Definition update_z (alpha zMin zMax : spec_float) (previous : option spec_float)
  (rawZ : spec_float) : spec_float :=
  let z := clamp rawZ zMin zMax in
  match previous with
  | Some prev => ema z prev alpha
  | None => z
  end.

End Binary64.

(** ** utils/headPose.ts *)

Module HeadPose.
Import Types.
Open Scope R_scope.

(** Landmark indices for key face points. *)
Definition LEFT_EYE_INNER : nat := 133.
Definition RIGHT_EYE_INNER : nat := 362.
Definition LEFT_EYE_OUTER : nat := 33.
Definition RIGHT_EYE_OUTER : nat := 263.
Definition NOSE_TIP : nat := 1.

Record HeadPoseConfig : Type := mkConfig {
  cfg_smoothingFactor : R;
  clampX : R * R;
  clampY : R * R;
  clampZ : R * R
}.

Definition DEFAULT_CONFIG : HeadPoseConfig :=
  {| cfg_smoothingFactor := 3 / 10;
     clampX := (0, 1);
     clampY := (0, 1);
     clampZ := (3 / 10, 3) |}.

(** [Math.max(min, Math.min(max, val))] *)
Definition clamp (val min max : R) : R := Rmax min (Rmin max val).

Definition ema (current previous alpha : R) : R :=
  alpha * current + (1 - alpha) * previous.

Record HeadPoseTracker : Type := mkTracker {
  config : HeadPoseConfig;
  previousPose : option HeadPose
}.


Definition new_default : HeadPoseTracker :=
  {| config := DEFAULT_CONFIG; previousPose := None |}.

(** [new HeadPoseTracker(config)] with every field of the config given. *)
Definition new_with_config (c : HeadPoseConfig) : HeadPoseTracker :=
  {| config := c; previousPose := None |}.

Definition setSmoothingFactor (t : HeadPoseTracker) (factor : R) : HeadPoseTracker :=
  {| config := {| cfg_smoothingFactor := clamp factor (1 / 100) 1;
                  clampX := clampX (config t);
                  clampY := clampY (config t);
                  clampZ := clampZ (config t) |};
     previousPose := previousPose t |}.

Definition reset (t : HeadPoseTracker) : HeadPoseTracker :=
  {| config := config t; previousPose := None |}.

(** Convert normalized head pose to world-space coordinates (in cm). *)
Definition headPoseToWorldPosition (p : HeadPose)
  (screenWidthCm screenHeightCm baseDistanceCm : R) : R * R * R :=
  let wx := - (x p - 1 / 2) * screenWidthCm in
  let wy := - (y p - 1 / 2) * screenHeightCm in
  let wz := baseDistanceCm / z p in
  (wx, wy, wz).

(** [landmarks[i]]; every index used below is under the 468 that [update]
    checks first, so the default is never read. *)
Definition at_index (landmarks : list Point3) (i : nat) : Point3 :=
  nth i landmarks (mkPoint3 0 0 0).

(** The unsmoothed sample of [update]: face centre, depth proxy, clamps. *)
Definition rawPose (c : HeadPoseConfig) (now : R) (landmarks : list Point3) : HeadPose :=
  let leftEyeInner := at_index landmarks LEFT_EYE_INNER in
  let rightEyeInner := at_index landmarks RIGHT_EYE_INNER in
  let noseTip := at_index landmarks NOSE_TIP in
  let leftEyeOuter := at_index landmarks LEFT_EYE_OUTER in
  let rightEyeOuter := at_index landmarks RIGHT_EYE_OUTER in
  let rawX := (px leftEyeInner + px rightEyeInner + px noseTip) / 3 in
  let rawY := (py leftEyeInner + py rightEyeInner + py noseTip) / 3 in
  let interOcular :=
    sqrt ((px rightEyeInner - px leftEyeInner) ^ 2 +
          (py rightEyeInner - py leftEyeInner) ^ 2) in
  let eyeWidth :=
    sqrt ((px rightEyeOuter - px leftEyeOuter) ^ 2 +
          (py rightEyeOuter - py leftEyeOuter) ^ 2) in
  let rawZ := (interOcular + eyeWidth * (1 / 2)) / (15 / 100) in
  {| x := clamp rawX (fst (clampX c)) (snd (clampX c));
     y := clamp rawY (fst (clampY c)) (snd (clampY c));
     z := clamp rawZ (fst (clampZ c)) (snd (clampZ c));
     interOcularPx := interOcular;
     timestamp := now |}.

(** The EMA branch of [update]. *)
Definition smooth (alpha : R) (raw previous : HeadPose) : HeadPose :=
  {| x := ema (x raw) (x previous) alpha;
     y := ema (y raw) (y previous) alpha;
     z := ema (z raw) (z previous) alpha;
     interOcularPx := ema (interOcularPx raw) (interOcularPx previous) alpha;
     timestamp := timestamp raw |}.

(** [update(landmarks)].  [landmarks = None] is a null or undefined
    argument; [cal] is what [calibrationManager.getCalibration()] returns
    and [now] what [performance.now()] returns during the call.  The result
    is the returned value ([None] for [null]) and the tracker afterwards. *)
Definition update (t : HeadPoseTracker) (cal : CalibrationData) (now : R)
  (landmarks : option (list Point3)) : option SmoothedHeadPose * HeadPoseTracker :=
  match landmarks with
  | None => (None, t)
  | Some lms =>
      if (length lms <? 468)%nat then (None, t)
      else
        let raw := rawPose (config t) now lms in
        let alpha := cfg_smoothingFactor (config t) in
        let smoothed :=
          match previousPose t with
          | Some prev => smooth alpha raw prev
          | None => raw
          end in
        let world :=
          headPoseToWorldPosition smoothed
            (screenWidthCm cal) (screenHeightCm cal) (viewingDistanceCm cal) in
        (Some {| pose := smoothed;
                 worldX := fst (fst world);
                 worldY := snd (fst world);
                 worldZ := snd world |},
         {| config := config t; previousPose := Some smoothed |})
  end.

(** Feeding a list of landmark frames in order, with the clock reading of
    each; the poses returned, oldest first, and the final tracker. *)
Fixpoint updates (t : HeadPoseTracker) (cal : CalibrationData)
  (frames : list (R * option (list Point3)))
  : list (option SmoothedHeadPose) * HeadPoseTracker :=
  match frames with
  | [] => ([], t)
  | (now, lms) :: rest =>
      let '(r, t1) := update t cal now lms in
      let '(rs, t2) := updates t1 cal rest in
      (r :: rs, t2)
  end.


(** [v] lies in the closed range [r = (min, max)]. *)
Definition within (r : R * R) (v : R) : Prop := fst r <= v <= snd r.

(** The three clamped fields of [p] lie in the ranges of [c]. *)
Definition pose_within (c : HeadPoseConfig) (p : HeadPose) : Prop :=
  within (clampX c) (x p) /\ within (clampY c) (y p) /\ within (clampZ c) (z p).

(** A sample input: a full mesh whose 468 points all sit at the image
    centre. *)
Definition collapsed_face : list Point3 := repeat (mkPoint3 (1 / 2) (1 / 2) 0) 468.

(** *** The remaining methods *)

(** A [Partial<HeadPoseConfig>]: [None] is an absent property. *)
Record PartialConfig : Type := mkPartialConfig {
  pc_smoothingFactor : option R;
  pc_clampX : option (R * R);
  pc_clampY : option (R * R);
  pc_clampZ : option (R * R)
}.

Definition given {A : Type} (partial : option A) (current : A) : A :=
  match partial with
  | Some v => v
  | None => current
  end.

(** [{ ...config, ...partial }] and [Object.assign(config, partial)]. *)
Definition assign_config (c : HeadPoseConfig) (p : PartialConfig) : HeadPoseConfig :=
  {| cfg_smoothingFactor := given (pc_smoothingFactor p) (cfg_smoothingFactor c);
     clampX := given (pc_clampX p) (clampX c);
     clampY := given (pc_clampY p) (clampY c);
     clampZ := given (pc_clampZ p) (clampZ c) |}.

(** [new HeadPoseTracker(partial)] *)
Definition new_partial (p : PartialConfig) : HeadPoseTracker :=
  {| config := assign_config DEFAULT_CONFIG p; previousPose := None |}.

Definition setConfig (t : HeadPoseTracker) (p : PartialConfig) : HeadPoseTracker :=
  {| config := assign_config (config t) p; previousPose := previousPose t |}.

(** The public methods, as one call each; an update carries the
    calibration and the clock reading it sees. *)
Inductive Call : Type :=
| Update (cal : CalibrationData) (now : R) (landmarks : option (list Point3))
| SetSmoothingFactor (factor : R)
| SetConfig (p : PartialConfig)
| Reset.

Definition call (t : HeadPoseTracker) (op : Call)
  : option SmoothedHeadPose * HeadPoseTracker :=
  match op with
  | Update cal now landmarks => update t cal now landmarks
  | SetSmoothingFactor factor => (None, setSmoothingFactor t factor)
  | SetConfig p => (None, setConfig t p)
  | Reset => (None, reset t)
  end.

(** The poses returned along a sequence of calls, oldest first, and the
    tracker at the end. *)
Fixpoint calls (t : HeadPoseTracker) (ops : list Call)
  : list SmoothedHeadPose * HeadPoseTracker :=
  match ops with
  | [] => ([], t)
  | op :: rest =>
      let '(r, t1) := call t op in
      let '(rs, t2) := calls t1 rest in
      (match r with
       | Some sp => sp :: rs
       | None => rs
       end, t2)
  end.

Definition is_SetConfig (op : Call) : bool :=
  match op with
  | SetConfig _ => true
  | _ => false
  end.


(** A landmark moved by [(dx, dy, dz)]. *)
Definition shifted (dx dy dz : R) (p : Point3) : Point3 :=
  mkPoint3 (px p + dx) (py p + dy) (pz p + dz).


(** What keeps the depth away from 0: the blend weights are in [0,1],
    the z range starts above 0 and the stored pose, if any, has a positive
    z. *)
Definition depth_positive (t : HeadPoseTracker) : Prop :=
  0 <= cfg_smoothingFactor (config t) <= 1 /\
  0 < fst (clampZ (config t)) <= snd (clampZ (config t)) /\
  (forall prev, previousPose t = Some prev -> 0 < z prev).

End HeadPose.

(** ** utils/offAxisCamera.ts *)

Module OffAxisCamera.
Import Types.
Open Scope R_scope.

Definition DEFAULT_SETTINGS : PerspectiveSettings :=
  {| nearPlane := 1 / 100;
     farPlane := 10;
     movementScale := 15 / 10;
     smoothingFactor := 3 / 10;
     axisStrength := mkAxis 1 1 1 |}.

(** The six arguments of [Matrix4.makePerspective]; the projection matrix
    is a function of them. *)
Record Frustum : Type := mkFrustum {
  left : R;
  right : R;
  bottom : R;
  top : R;
  near : R;
  far : R
}.

Record Vector3 : Type := mkVector3 { vx : R; vy : R; vz : R }.

(** The fields of the THREE camera that the class writes. *)
Record PerspectiveCamera : Type := mkCamera {
  cam_near : R;
  cam_far : R;
  aspect : R;
  projectionMatrix : option Frustum;  (* [None]: THREE's own fov matrix *)
  position : Vector3;
  lookAtTarget : Vector3
}.

Record OffAxisCamera : Type := mkOffAxis {
  camera : PerspectiveCamera;
  settings : PerspectiveSettings;
  screenWidth : R;
  screenHeight : R;
  headX : R;
  headY : R;
  headZ : R
}.

(** [new OffAxisCamera(aspect, settings)] with all settings given; [cal]
    is the calibration read by the constructor. *)
Definition new (asp : R) (s : PerspectiveSettings) (cal : CalibrationData) : OffAxisCamera :=
  {| camera := {| cam_near := nearPlane s;
                  cam_far := farPlane s;
                  aspect := asp;
                  projectionMatrix := None;
                  position := mkVector3 0 0 (viewingDistanceCm cal / 100);
                  lookAtTarget := mkVector3 0 0 0 |};
     settings := s;
     screenWidth := screenWidthCm cal / 100;
     screenHeight := screenHeightCm cal / 100;
     headX := 0;
     headY := 0;
     headZ := 6 / 10 |}.

Definition updateScreenDimensions (c : OffAxisCamera) (widthCm heightCm : R) : OffAxisCamera :=
  {| camera := camera c;
     settings := settings c;
     screenWidth := widthCm / 100;
     screenHeight := heightCm / 100;
     headX := headX c;
     headY := headY c;
     headZ := headZ c |}.

(** Compute and apply the asymmetric frustum. *)
Definition updateProjectionMatrix (c : OffAxisCamera) : OffAxisCamera :=
  let halfW := screenWidth c / 2 in
  let halfH := screenHeight c / 2 in
  let near_ := nearPlane (settings c) in
  let far_ := farPlane (settings c) in
  let dist := headZ c in
  let nearOverDist := near_ / dist in
  let left_ := (- halfW - headX c) * nearOverDist in
  let right_ := (halfW - headX c) * nearOverDist in
  let bottom_ := (- halfH - headY c) * nearOverDist in
  let top_ := (halfH - headY c) * nearOverDist in
  {| camera := {| cam_near := cam_near (camera c);
                  cam_far := cam_far (camera c);
                  aspect := aspect (camera c);
                  projectionMatrix :=
                    Some (mkFrustum left_ right_ bottom_ top_ near_ far_);
                  position := mkVector3 (headX c) (headY c) dist;
                  lookAtTarget := mkVector3 (headX c) (headY c) 0 |};
     settings := settings c;
     screenWidth := screenWidth c;
     screenHeight := screenHeight c;
     headX := headX c;
     headY := headY c;
     headZ := headZ c |}.

Definition with_head (c : OffAxisCamera) (hx hy hz : R) : OffAxisCamera :=
  {| camera := camera c;
     settings := settings c;
     screenWidth := screenWidth c;
     screenHeight := screenHeight c;
     headX := hx;
     headY := hy;
     headZ := hz |}.

(** Update projection matrix from smoothed head pose. *)
Definition updateFromHeadPose (c : OffAxisCamera) (p : SmoothedHeadPose) : OffAxisCamera :=
  let scale := movementScale (settings c) in
  let strength := axisStrength (settings c) in
  updateProjectionMatrix
    (with_head c
       ((worldX p / 100) * scale * ax strength)
       ((worldY p / 100) * scale * ay strength)
       (Rmax (1 / 10) ((worldZ p / 100) * az strength))).

(** Manually set head position in meters. *)
Definition setHeadPosition (c : OffAxisCamera) (hx hy hz : R) : OffAxisCamera :=
  updateProjectionMatrix (with_head c hx hy (Rmax (1 / 10) hz)).

Definition handleResize (c : OffAxisCamera) (width height : R) : OffAxisCamera :=
  updateProjectionMatrix
    {| camera := {| cam_near := cam_near (camera c);
                    cam_far := cam_far (camera c);
                    aspect := width / height;
                    projectionMatrix := projectionMatrix (camera c);
                    position := position (camera c);
                    lookAtTarget := lookAtTarget (camera c) |};
       settings := settings c;
       screenWidth := screenWidth c;
       screenHeight := screenHeight c;
       headX := headX c;
       headY := headY c;
       headZ := headZ c |}.

(** *** The remaining methods *)

(** A [Partial<PerspectiveSettings>]: [None] is an absent property. *)
Record PartialSettings : Type := mkPartialSettings {
  p_nearPlane : option R;
  p_farPlane : option R;
  p_movementScale : option R;
  p_smoothingFactor : option R;
  p_axisStrength : option AxisStrength
}.

Definition or_else (given : option R) (current : R) : R :=
  match given with
  | Some v => v
  | None => current
  end.

(** [Object.assign(settings, partial)], also [{ ...settings, ...partial }]. *)
Definition assign_settings (s : PerspectiveSettings) (p : PartialSettings)
  : PerspectiveSettings :=
  {| nearPlane := or_else (p_nearPlane p) (nearPlane s);
     farPlane := or_else (p_farPlane p) (farPlane s);
     movementScale := or_else (p_movementScale p) (movementScale s);
     smoothingFactor := or_else (p_smoothingFactor p) (smoothingFactor s);
     axisStrength := match p_axisStrength p with
                     | Some a => a
                     | None => axisStrength s
                     end |}.

(** [new OffAxisCamera(aspect, partial)]; [new OffAxisCamera(aspect)] is
    the case of the empty partial. *)
Definition new_partial (asp : R) (p : PartialSettings) (cal : CalibrationData)
  : OffAxisCamera :=
  new asp (assign_settings DEFAULT_SETTINGS p) cal.

Definition no_settings : PartialSettings :=
  mkPartialSettings None None None None None.

(** Update settings. *)
Definition updateSettings (c : OffAxisCamera) (p : PartialSettings) : OffAxisCamera :=
  let s := assign_settings (settings c) p in
  {| camera := {| cam_near := nearPlane s;
                  cam_far := farPlane s;
                  aspect := aspect (camera c);
                  projectionMatrix := projectionMatrix (camera c);
                  position := position (camera c);
                  lookAtTarget := lookAtTarget (camera c) |};
     settings := s;
     screenWidth := screenWidth c;
     screenHeight := screenHeight c;
     headX := headX c;
     headY := headY c;
     headZ := headZ c |}.

(** The public methods that change the camera, as one call each. *)
Inductive Call : Type :=
| UpdateScreenDimensions (widthCm heightCm : R)
| UpdateSettings (p : PartialSettings)
| UpdateFromHeadPose (p : SmoothedHeadPose)
| SetHeadPosition (hx hy hz : R)
| HandleResize (width height : R).

Definition call (c : OffAxisCamera) (op : Call) : OffAxisCamera :=
  match op with
  | UpdateScreenDimensions w h => updateScreenDimensions c w h
  | UpdateSettings p => updateSettings c p
  | UpdateFromHeadPose p => updateFromHeadPose c p
  | SetHeadPosition hx hy hz => setHeadPosition c hx hy hz
  | HandleResize w h => handleResize c w h
  end.

Definition calls (c : OffAxisCamera) (ops : list Call) : OffAxisCamera :=
  fold_left call ops c.

(** Whether a call recomputes the projection. *)
Definition recomputes (op : Call) : bool :=
  match op with
  | UpdateFromHeadPose _ | SetHeadPosition _ _ _ | HandleResize _ _ => true
  | UpdateScreenDimensions _ _ | UpdateSettings _ => false
  end.

End OffAxisCamera.

(** ** utils/videoTextureManager.ts *)

Module VideoTextureManager.
Import Byte.
Open Scope Z_scope.

(** 1 + 8 + 4 + 4 + 4 bytes (type + timestamp + w + h + len) *)
Definition HEADER_SIZE : Z := 21.

(** *** ArrayBuffer and DataView *)

Definition byteLength (data : list byte) : Z := Z.of_nat (length data).

Definition byte_value (b : byte) : Z := Z.of_N (Byte.to_N b).

(** Little-endian value of a run of bytes. *)
Fixpoint le_value (bs : list byte) : Z :=
  match bs with
  | [] => 0
  | b :: rest => byte_value b + 256 * le_value rest
  end.

(** [data.slice(from, from + len)] *)
Definition slice (data : list byte) (from len : nat) : list byte :=
  firstn len (skipn from data).

(** The reads below are only made after [byteLength data >= HEADER_SIZE]
    has been checked, so none of them is out of range (where a DataView
    would throw). *)
Definition getUint8 (data : list byte) (off : nat) : Z :=
  byte_value (nth off data x00).

Definition getUint32 (data : list byte) (off : nat) : Z :=
  le_value (slice data off 4).

(** IEEE 754 binary64 from its 64-bit pattern: sign, 11 exponent bits,
    52 fraction bits. *)
Definition float64_of_bits (b : Z) : spec_float :=
  let s := Z.testbit b 63 in
  let e := Z.land (Z.shiftr b 52) 2047 in
  let m := Z.land b (Z.ones 52) in
  if e =? 2047 then
    if m =? 0 then S754_infinity s else S754_nan
  else if e =? 0 then
    match m with
    | Z.pos p => S754_finite s p (-1074)
    | _ => S754_zero s
    end
  else
    match m + 2 ^ 52 with
    | Z.pos p => S754_finite s p (e - 1075)
    | _ => S754_nan
    end.

Definition getFloat64 (data : list byte) (off : nat) : spec_float :=
  float64_of_bits (le_value (slice data off 8)).

(** *** Texture entries *)

(** A decoded image, as handed out by [createImageBitmap]. *)
Definition ImageBitmap : Type := nat.

Inductive TextureImage : Type :=
| Placeholder                      (* the 64x64 canvas of [getTexture] *)
| Bitmap (b : ImageBitmap).

Record Texture : Type := mkTexture {
  image : TextureImage;
  needsUpdate : bool;
  disposals : nat                  (* calls of [texture.dispose()] so far *)
}.

Record Entry : Type := mkEntry {
  texture : Texture;
  lastTimestamp : spec_float;
  frameCount : nat;
  processing : bool;
  currentWidth : Z;
  currentHeight : Z;
  lastBitmap : option ImageBitmap
}.

(** What the continuation of a suspended [processFrame] still holds. *)
Record Pending : Type := mkPending {
  p_sourceId : string;
  p_timestamp : spec_float;
  p_width : Z;
  p_height : Z;
  p_jpegData : list byte
}.

(** The manager: the [textures] map, the calls suspended at
    [await createImageBitmap(blob)], oldest first, and the bitmaps that
    have been [close()]d.  The events considered are calls of
    [processFrame] and the settling of decodes; these never remove a key,
    so the entry object a suspended call captured is the one still stored
    under its id, and the continuation is modelled as writing to that
    key. *)
Record Manager : Type := mkManager {
  textures : gmap string Entry;
  decoding : list Pending;
  closedBitmaps : list ImageBitmap
}.

Definition new : Manager :=
  {| textures := ∅; decoding := []; closedBitmaps := [] |}.

Definition placeholderEntry : Entry :=
  {| texture := {| image := Placeholder; needsUpdate := true; disposals := 0 |};
     lastTimestamp := S754_zero false;
     frameCount := 0;
     processing := false;
     currentWidth := 64;
     currentHeight := 64;
     lastBitmap := None |}.

(** Get or create a texture for a source ID. *)
Definition getTexture (m : Manager) (sourceId : string) : Manager * Texture :=
  match textures m !! sourceId with
  | Some entry => (m, texture entry)
  | None =>
      ({| textures := <[sourceId := placeholderEntry]> (textures m);
          decoding := decoding m;
          closedBitmaps := closedBitmaps m |},
       texture placeholderEntry)
  end.

Definition set_entry (m : Manager) (sourceId : string) (e : Entry) : Manager :=
  {| textures := <[sourceId := e]> (textures m);
     decoding := decoding m;
     closedBitmaps := closedBitmaps m |}.

Definition set_processing (e : Entry) (b : bool) : Entry :=
  {| texture := texture e;
     lastTimestamp := lastTimestamp e;
     frameCount := frameCount e;
     processing := b;
     currentWidth := currentWidth e;
     currentHeight := currentHeight e;
     lastBitmap := lastBitmap e |}.

(** How a call of [processFrame] leaves the caller: with a promise already
    resolved to a boolean, or suspended at the [await]. *)
Inductive CallResult : Type :=
| Resolved (value : bool)
| Awaiting.

(** [processFrame] up to the [await]. *)
Definition processFrame_begin (m : Manager) (sourceId : string) (data : list byte)
  : Manager * CallResult :=
  if byteLength data <? HEADER_SIZE then (m, Resolved false)
  else
    let type := getUint8 data 0 in
    if negb (type =? 1) then (m, Resolved false)
    else
      let timestamp := getFloat64 data 1 in
      let width := getUint32 data 9 in
      let height := getUint32 data 13 in
      let dataLen := getUint32 data 17 in
      if byteLength data <? HEADER_SIZE + dataLen then (m, Resolved false)
      else
        let m1 := fst (getTexture m sourceId) in
        match textures m1 !! sourceId with
        | None => (m1, Resolved false)   (* not reached: [getTexture] stored one *)
        | Some entry =>
            if SFleb timestamp (lastTimestamp entry) then (m1, Resolved false)
            else if processing entry then (m1, Resolved false)
            else
              let jpegData := slice data 21 (Z.to_nat dataLen) in
              ({| textures := <[sourceId := set_processing entry true]> (textures m1);
                  decoding := decoding m1 ++
                    [mkPending sourceId timestamp width height jpegData];
                  closedBitmaps := closedBitmaps m1 |},
               Awaiting)
        end.

(** The body of the [try] after a successful decode. *)
Definition install (entry : Entry) (p : Pending) (bitmap : ImageBitmap) : Entry :=
  let resized :=
    negb (currentWidth entry =? p_width p) || negb (currentHeight entry =? p_height p) in
  {| texture := {| image := Bitmap bitmap;
                   needsUpdate := true;
                   disposals := if resized then S (disposals (texture entry))
                                else disposals (texture entry) |};
     lastTimestamp := p_timestamp p;
     frameCount := S (frameCount entry);
     processing := false;
     currentWidth := if resized then p_width p else currentWidth entry;
     currentHeight := if resized then p_height p else currentHeight entry;
     lastBitmap := Some bitmap |}.

(** [processFrame] from the [await] on: [outcome] is the bitmap that
    [createImageBitmap] resolved to, or [None] when it rejected. *)
Definition processFrame_resume (m : Manager) (p : Pending) (outcome : option ImageBitmap)
  : Manager * bool :=
  match textures m !! p_sourceId p with
  | None => (m, false)     (* not reached, see [Manager] *)
  | Some entry =>
      match outcome with
      | Some bitmap =>
          ({| textures := <[p_sourceId p := install entry p bitmap]> (textures m);
              decoding := decoding m;
              closedBitmaps :=
                match lastBitmap entry with
                | Some old => closedBitmaps m ++ [old]
                | None => closedBitmaps m
                end |},
           true)
      | None => (set_entry m (p_sourceId p) (set_processing entry false), false)
      end
  end.

(** *** The event loop seen from the manager *)

Inductive Event : Type :=
| Call (sourceId : string) (data : list byte)        (* [processFrame(id, data)] *)
| Settle (k : nat) (outcome : option ImageBitmap).   (* the k-th pending decode settles *)

Inductive Observation : Type :=
| Returned (sourceId : string) (value : bool)     (* a promise resolved *)
| Applied (sourceId : string) (timestamp : spec_float). (* texture image replaced *)

(** Whether the decode produced a bitmap. *)
Definition isSome (outcome : option ImageBitmap) : bool :=
  match outcome with
  | Some _ => true
  | None => false
  end.

Definition remove_pending (m : Manager) (k : nat) : Manager :=
  {| textures := textures m;
     decoding := firstn k (decoding m) ++ skipn (S k) (decoding m);
     closedBitmaps := closedBitmaps m |}.

Definition step (m : Manager) (ev : Event) : Manager * list Observation :=
  match ev with
  | Call sourceId data =>
      match processFrame_begin m sourceId data with
      | (m1, Resolved b) => (m1, [Returned sourceId b])
      | (m1, Awaiting) => (m1, [])
      end
  | Settle k outcome =>
      match nth_error (decoding m) k with
      | None => (m, [])
      | Some p =>
          let '(m1, b) := processFrame_resume (remove_pending m k) p outcome in
          (m1, (if b then [Applied (p_sourceId p) (p_timestamp p)] else [])
                 ++ [Returned (p_sourceId p) b])
      end
  end.

Fixpoint run (m : Manager) (evs : list Event) : Manager * list Observation :=
  match evs with
  | [] => (m, [])
  | ev :: rest =>
      let '(m1, o1) := step m ev in
      let '(m2, o2) := run m1 rest in
      (m2, o1 ++ o2)
  end.

(** Timestamps applied to the texture of one source, oldest first. *)
Fixpoint applied_to (sourceId : string) (obs : list Observation) : list spec_float :=
  match obs with
  | [] => []
  | Applied s ts :: rest =>
      if String.eqb s sourceId then ts :: applied_to sourceId rest
      else applied_to sourceId rest
  | Returned _ _ :: rest => applied_to sourceId rest
  end.

(** Decodes of one source that are in flight. *)
Definition pending_for (sourceId : string) (d : list Pending) : list Pending :=
  List.filter (fun p => String.eqb (p_sourceId p) sourceId) d.

Definition in_flight (m : Manager) (sourceId : string) : nat :=
  length (pending_for sourceId (decoding m)).

(** JavaScript [a < b] on numbers, read on a chain of timestamps. *)
Fixpoint strictly_increasing (l : list spec_float) : bool :=
  match l with
  | [] => true
  | a :: rest =>
      match rest with
      | [] => true
      | b :: _ => SFltb a b && strictly_increasing rest
      end
  end.

Definition is_nan (f : spec_float) : bool :=
  match f with
  | S754_nan => true
  | _ => false
  end.

(** Every suspended call has its entry marked busy, and no source has
    two of them. *)
Definition busy_consistent (m : Manager) : Prop :=
  (forall p, In p (decoding m) ->
     exists e, textures m !! p_sourceId p = Some e /\ processing e = true) /\
  (forall sourceId, (in_flight m sourceId <= 1)%nat).

(** The state of one source against the timestamps [hist] applied to it so
    far: the entry remembers the last of them, none of them is NaN, they
    increase, and a suspended call carries a greater one. *)
Definition ordered_for (sourceId : string) (m : Manager) (hist : list spec_float) : Prop :=
  busy_consistent m /\
  match textures m !! sourceId with
  | Some e =>
      is_nan (lastTimestamp e) = false /\
      List.last hist (S754_zero false) = lastTimestamp e
  | None => hist = []
  end /\
  strictly_increasing hist = true /\
  (forall p, In p (decoding m) -> p_sourceId p = sourceId ->
     exists e, textures m !! sourceId = Some e /\
               SFltb (lastTimestamp e) (p_timestamp p) = true).

(** No call of the trace carries a NaN timestamp. *)
Definition timestamps_are_numbers (evs : list Event) : Prop :=
  forall sourceId data,
    In (Call sourceId data) evs -> is_nan (getFloat64 data 1) = false.

(** The header of [data] passes the three checks made before the entry
    is looked at. *)
Definition header_ok (data : list byte) : Prop :=
  HEADER_SIZE <= byteLength data /\
  getUint8 data 0 = 1 /\
  HEADER_SIZE + getUint32 data 17 <= byteLength data.

(** *** Sample frames

    A header of type 1 with the given timestamp bytes, size 2 x 2 and an
    empty payload; the timestamps are NaN (7ff8000000000000), 5.0
    (4014000000000000) and 3.0 (4008000000000000), little-endian. *)
Definition frame_at (timestampBytes : list byte) : list byte :=
  [x01] ++ timestampBytes ++ [x02; x00; x00; x00] ++ [x02; x00; x00; x00]
        ++ [x00; x00; x00; x00].

Definition bytes_nan : list byte := [x00; x00; x00; x00; x00; x00; xf8; x7f].
Definition bytes_5 : list byte := [x00; x00; x00; x00; x00; x00; x14; x40].
Definition bytes_3 : list byte := [x00; x00; x00; x00; x00; x00; x08; x40].

(** The source [cam] receives the frames stamped 5.0, NaN and 3.0 in
    turn, each decode succeeding before the next frame arrives. *)
Definition backwards_through_nan : list Event :=
  [Call "cam" (frame_at bytes_5); Settle 0 (Some 1%nat);
   Call "cam" (frame_at bytes_nan); Settle 0 (Some 2%nat);
   Call "cam" (frame_at bytes_3); Settle 0 (Some 3%nat)].

End VideoTextureManager.

(** ** utils/videoTextureManager.ts with entry objects

    The same class with the identity of its entry objects kept, which
    [disposeTexture] and [disposeAll] need: a call suspended at the await
    holds the entry object it found, and goes on writing to that object
    after the key was deleted or given a new entry.  [objects] are the
    entry objects by identity, [index] is the [textures] Map in insertion
    order. *)

Module TextureStore.
Import Byte VideoTextureManager.
Open Scope Z_scope.

Record Store : Type := mkStore {
  objects : gmap nat Entry;
  index : list (string * nat);
  suspended : list (Pending * nat);
  closed : list ImageBitmap;
  nextObject : nat
}.

Definition empty : Store :=
  {| objects := ∅; index := []; suspended := []; closed := []; nextObject := 0 |}.

(** [Map.get] *)
Fixpoint get (ix : list (string * nat)) (key : string) : option nat :=
  match ix with
  | [] => None
  | (k, o) :: rest => if String.eqb k key then Some o else get rest key
  end.

(** [Map.delete] *)
Definition delete (ix : list (string * nat)) (key : string) : list (string * nat) :=
  List.filter (fun e => negb (String.eqb (fst e) key)) ix.

(** Get or create a texture for a source ID; the result is the entry
    object whose texture is returned. *)
Definition getTexture (st : Store) (sourceId : string) : Store * nat :=
  match get (index st) sourceId with
  | Some o => (st, o)
  | None =>
      ({| objects := <[nextObject st := placeholderEntry]> (objects st);
          index := index st ++ [(sourceId, nextObject st)];
          suspended := suspended st;
          closed := closed st;
          nextObject := S (nextObject st) |},
       nextObject st)
  end.

(** [processFrame] up to the [await]. *)
Definition processFrame_begin (st : Store) (sourceId : string) (data : list byte)
  : Store * CallResult :=
  if byteLength data <? HEADER_SIZE then (st, Resolved false)
  else
    let type := getUint8 data 0 in
    if negb (type =? 1) then (st, Resolved false)
    else
      let timestamp := getFloat64 data 1 in
      let width := getUint32 data 9 in
      let height := getUint32 data 13 in
      let dataLen := getUint32 data 17 in
      if byteLength data <? HEADER_SIZE + dataLen then (st, Resolved false)
      else
        let st1 := fst (getTexture st sourceId) in
        let o := snd (getTexture st sourceId) in
        match objects st1 !! o with
        | None => (st1, Resolved false)   (* not reached: the object exists *)
        | Some entry =>
            if SFleb timestamp (lastTimestamp entry) then (st1, Resolved false)
            else if processing entry then (st1, Resolved false)
            else
              let jpegData := slice data 21 (Z.to_nat dataLen) in
              ({| objects := <[o := set_processing entry true]> (objects st1);
                  index := index st1;
                  suspended := suspended st1 ++
                    [(mkPending sourceId timestamp width height jpegData, o)];
                  closed := closed st1;
                  nextObject := nextObject st1 |},
               Awaiting)
        end.

(** [processFrame] from the [await] on, for the call that holds entry
    object [o]. *)
Definition processFrame_resume (st : Store) (p : Pending) (o : nat)
  (outcome : option ImageBitmap) : Store * bool :=
  match objects st !! o with
  | None => (st, false)   (* not reached: objects are never removed *)
  | Some entry =>
      match outcome with
      | Some bitmap =>
          ({| objects := <[o := install entry p bitmap]> (objects st);
              index := index st;
              suspended := suspended st;
              closed := match lastBitmap entry with
                        | Some old => closed st ++ [old]
                        | None => closed st
                        end;
              nextObject := nextObject st |},
           true)
      | None =>
          ({| objects := <[o := set_processing entry false]> (objects st);
              index := index st;
              suspended := suspended st;
              closed := closed st;
              nextObject := nextObject st |},
           false)
      end
  end.

(** [texture.dispose()] on the entry's texture. *)
Definition disposed_entry (e : Entry) : Entry :=
  {| texture := {| image := image (texture e);
                   needsUpdate := needsUpdate (texture e);
                   disposals := S (disposals (texture e)) |};
     lastTimestamp := lastTimestamp e;
     frameCount := frameCount e;
     processing := processing e;
     currentWidth := currentWidth e;
     currentHeight := currentHeight e;
     lastBitmap := lastBitmap e |}.

(** [if (entry.lastBitmap) entry.lastBitmap.close(); entry.texture.dispose();] *)
Definition release (st : Store) (o : nat) : Store :=
  match objects st !! o with
  | None => st
  | Some entry =>
      {| objects := <[o := disposed_entry entry]> (objects st);
         index := index st;
         suspended := suspended st;
         closed := match lastBitmap entry with
                   | Some old => closed st ++ [old]
                   | None => closed st
                   end;
         nextObject := nextObject st |}
  end.

Definition with_index (st : Store) (ix : list (string * nat)) : Store :=
  {| objects := objects st;
     index := ix;
     suspended := suspended st;
     closed := closed st;
     nextObject := nextObject st |}.

(** Dispose a specific texture. *)
Definition disposeTexture (st : Store) (sourceId : string) : Store :=
  match get (index st) sourceId with
  | Some o => with_index (release st o) (delete (index st) sourceId)
  | None => st
  end.

(** Dispose all textures. *)
Definition disposeAll (st : Store) : Store :=
  with_index (fold_left (fun acc e => release acc (snd e)) (index st) st) [].

(** *** The event loop seen from the manager *)

Inductive StoreEvent : Type :=
| CallProcessFrame (sourceId : string) (data : list byte)
| SettleDecode (k : nat) (outcome : option ImageBitmap)
| CallGetTexture (sourceId : string)
| CallDisposeTexture (sourceId : string)
| CallDisposeAll.

Definition remove_suspended (st : Store) (k : nat) : Store :=
  {| objects := objects st;
     index := index st;
     suspended := firstn k (suspended st) ++ skipn (S k) (suspended st);
     closed := closed st;
     nextObject := nextObject st |}.

Definition step (st : Store) (ev : StoreEvent) : Store * list Observation :=
  match ev with
  | CallProcessFrame sourceId data =>
      match processFrame_begin st sourceId data with
      | (st1, Resolved b) => (st1, [Returned sourceId b])
      | (st1, Awaiting) => (st1, [])
      end
  | SettleDecode k outcome =>
      match nth_error (suspended st) k with
      | None => (st, [])
      | Some (p, o) =>
          let '(st1, b) := processFrame_resume (remove_suspended st k) p o outcome in
          (st1, (if b then [Applied (p_sourceId p) (p_timestamp p)] else [])
                  ++ [Returned (p_sourceId p) b])
      end
  | CallGetTexture sourceId => (fst (getTexture st sourceId), [])
  | CallDisposeTexture sourceId => (disposeTexture st sourceId, [])
  | CallDisposeAll => (disposeAll st, [])
  end.

Fixpoint run (st : Store) (evs : list StoreEvent) : Store * list Observation :=
  match evs with
  | [] => (st, [])
  | ev :: rest =>
      let '(st1, o1) := step st ev in
      let '(st2, o2) := run st1 rest in
      (st2, o1 ++ o2)
  end.

(** The manager's event as an event of the store. *)
Definition of_event (ev : Event) : StoreEvent :=
  match ev with
  | Call sourceId data => CallProcessFrame sourceId data
  | Settle k outcome => SettleDecode k outcome
  end.

(** The entry a key leads to. *)
Definition entry_of (st : Store) (sourceId : string) : option Entry :=
  match get (index st) sourceId with
  | Some o => objects st !! o
  | None => None
  end.

(** Whether an event can remove the entry of a key. *)
Definition disposes (sourceId : string) (ev : StoreEvent) : bool :=
  match ev with
  | CallDisposeTexture s => String.eqb s sourceId
  | CallDisposeAll => true
  | _ => false
  end.

(** Well-formed stores: keys are unique, every key leads to its own
    object, objects in use exist and were handed out, a suspended call
    holds a busy object, no two calls hold the same one, and a busy object
    is held. *)
Definition well_formed (st : Store) : Prop :=
  List.NoDup (map fst (index st)) /\
  List.NoDup (map snd (index st)) /\
  (forall k o, In (k, o) (index st) -> (o < nextObject st)%nat /\ is_Some (objects st !! o)) /\
  (forall p o, In (p, o) (suspended st) ->
     (o < nextObject st)%nat /\
     exists e, objects st !! o = Some e /\ processing e = true) /\
  List.NoDup (map snd (suspended st)) /\
  (forall o e, objects st !! o = Some e -> processing e = true ->
     In o (map snd (suspended st))) /\
  (forall o, is_Some (objects st !! o) -> (o < nextObject st)%nat).

(** Decodes of one source that are in flight. *)
Definition decodes_in_flight (st : Store) (sourceId : string) : nat :=
  length (List.filter (fun c => String.eqb (p_sourceId (fst c)) sourceId) (suspended st)).

(** Every suspended call for [sourceId] holds the entry the Map has for
    it: none of them was overtaken by a disposal. *)
Definition held_by_key (sourceId : string) (st : Store) : Prop :=
  forall p o, In (p, o) (suspended st) -> p_sourceId p = sourceId ->
    get (index st) sourceId = Some o.

(** An entry object stays with the source id it was created for. *)
Definition owned (st : Store) : Prop :=
  forall p o k, In (p, o) (suspended st) -> In (k, o) (index st) -> p_sourceId p = k.

(** A frame for [cam] arrives, the source is disposed while the decode is
    awaited, and the next frame for [cam] arrives. *)
Definition disposed_mid_decode : list StoreEvent :=
  [CallProcessFrame "cam" (frame_at bytes_3); CallDisposeTexture "cam";
   CallProcessFrame "cam" (frame_at bytes_5)].

(** The manager of the first model that a store stands for, as long as
    every suspended call holds the entry its key leads to. *)
Definition stands_for (st : Store) (m : Manager) : Prop :=
  (forall sourceId, textures m !! sourceId = entry_of st sourceId) /\
  decoding m = map fst (suspended st) /\
  closedBitmaps m = closed st /\
  (forall p o, In (p, o) (suspended st) -> get (index st) (p_sourceId p) = Some o).

End TextureStore.

(** ** hooks/useWebSocket.ts *)

Module UseWebSocket.
Open Scope Z_scope.

(** The options that decide reconnection (the url and the message
    handlers play no part in it). *)
Record UseWebSocketOptions : Type := mkOptions {
  autoReconnect : bool;
  reconnectDelay : Z;
  maxReconnectDelay : Z
}.

(** The defaults of the destructuring in [useWebSocket]. *)
Definition default_options : UseWebSocketOptions :=
  {| autoReconnect := true; reconnectDelay := 1000; maxReconnectDelay := 30000 |}.

Inductive ReadyState : Type := CONNECTING | OPEN | CLOSING | CLOSED.

(** The refs of the hook and the host's timeouts that will run [connect]:
    [wsRef] is the current socket, by its ready state; a socket replaced by
    [connect] has its handlers removed and is forgotten. *)
Record Hook : Type := mkHook {
  connected : bool;
  wsRef : option ReadyState;
  reconnectAttemptRef : Z;
  reconnectTimerRef : option nat;
  intentionalCloseRef : bool;
  timers : list (nat * Z);          (* pending [setTimeout(connect, delay)]: id, delay *)
  nextTimerId : nat
}.

Definition initial : Hook :=
  {| connected := false;
     wsRef := None;
     reconnectAttemptRef := 0;
     reconnectTimerRef := None;
     intentionalCloseRef := false;
     timers := [];
     nextTimerId := 1 |}.

Definition clearTimeout (id : nat) (ts : list (nat * Z)) : list (nat * Z) :=
  List.filter (fun t => negb (Nat.eqb (fst t) id)) ts.

Definition connect (h : Hook) : Hook :=
  match wsRef h with
  | Some OPEN => h
  | _ =>
      {| connected := connected h;
         wsRef := Some CONNECTING;
         reconnectAttemptRef := reconnectAttemptRef h;
         reconnectTimerRef := reconnectTimerRef h;
         intentionalCloseRef := false;
         timers := timers h;
         nextTimerId := nextTimerId h |}
  end.

(** [ws.onopen] *)
Definition onopen (h : Hook) : Hook :=
  {| connected := true;
     wsRef := Some OPEN;
     reconnectAttemptRef := 0;
     reconnectTimerRef := reconnectTimerRef h;
     intentionalCloseRef := intentionalCloseRef h;
     timers := timers h;
     nextTimerId := nextTimerId h |}.

Definition backoff (o : UseWebSocketOptions) (attempt : Z) : Z :=
  Z.min (reconnectDelay o * 2 ^ attempt) (maxReconnectDelay o).

(** [ws.onclose] *)
Definition onclose (o : UseWebSocketOptions) (h : Hook) : Hook :=
  if autoReconnect o && negb (intentionalCloseRef h) then
    let delay := backoff o (reconnectAttemptRef h) in
    {| connected := false;
       wsRef := Some CLOSED;
       reconnectAttemptRef := reconnectAttemptRef h + 1;
       reconnectTimerRef := Some (nextTimerId h);
       intentionalCloseRef := intentionalCloseRef h;
       timers := timers h ++ [(nextTimerId h, delay)];
       nextTimerId := S (nextTimerId h) |}
  else
    {| connected := false;
       wsRef := Some CLOSED;
       reconnectAttemptRef := reconnectAttemptRef h;
       reconnectTimerRef := reconnectTimerRef h;
       intentionalCloseRef := intentionalCloseRef h;
       timers := timers h;
       nextTimerId := nextTimerId h |}.

(** [WebSocket.close()]: a socket that is connecting or open starts
    closing, its close event follows later. *)
Definition socket_close (s : ReadyState) : ReadyState :=
  match s with
  | CONNECTING | OPEN => CLOSING
  | CLOSING => CLOSING
  | CLOSED => CLOSED
  end.

(** The [close] callback returned by the hook. *)
Definition close (h : Hook) : Hook :=
  {| connected := false;
     wsRef := option_map socket_close (wsRef h);
     reconnectAttemptRef := reconnectAttemptRef h;
     reconnectTimerRef := None;
     intentionalCloseRef := true;
     timers := match reconnectTimerRef h with
               | Some id => clearTimeout id (timers h)
               | None => timers h
               end;
     nextTimerId := nextTimerId h |}.

(** What can happen to a mounted hook.  The manual [reconnect] callback and
    the unmount cleanup are not events of this model. *)
Inductive Event : Type :=
| SocketOpened            (* the open event of the current socket *)
| SocketClosed            (* the close event of the current socket *)
| TimerFired (id : nat)   (* a pending timeout runs [connect] *)
| CloseCalled.            (* the caller invokes [close()] *)

Definition enabled (h : Hook) (ev : Event) : bool :=
  match ev with
  | SocketOpened =>
      match wsRef h with Some CONNECTING => true | _ => false end
  | SocketClosed =>
      match wsRef h with Some CLOSED | None => false | Some _ => true end
  | TimerFired id => existsb (fun t => Nat.eqb (fst t) id) (timers h)
  | CloseCalled => true
  end.

Definition fire (h : Hook) (id : nat) : Hook :=
  connect {| connected := connected h;
             wsRef := wsRef h;
             reconnectAttemptRef := reconnectAttemptRef h;
             reconnectTimerRef := reconnectTimerRef h;
             intentionalCloseRef := intentionalCloseRef h;
             timers := clearTimeout id (timers h);
             nextTimerId := nextTimerId h |}.

(** One event; an event that cannot happen in [h] leaves it as it is. *)
Definition step (o : UseWebSocketOptions) (h : Hook) (ev : Event) : Hook :=
  if enabled h ev then
    match ev with
    | SocketOpened => onopen h
    | SocketClosed => onclose o h
    | TimerFired id => fire h id
    | CloseCalled => close h
    end
  else h.

Definition run (o : UseWebSocketOptions) (h : Hook) (evs : list Event) : Hook :=
  fold_left (step o) evs h.

Fixpoint newest (ts : list (nat * Z)) : option (nat * Z) :=
  match ts with
  | [] => None
  | t :: rest =>
      match rest with
      | [] => Some t
      | _ :: _ => newest rest
      end
  end.

(** The delay scheduled by a step, if it scheduled a reconnect. *)
Definition scheduled (h h' : Hook) : option Z :=
  if Nat.ltb (nextTimerId h) (nextTimerId h') then
    option_map snd (newest (timers h'))
  else None.

(** The delays scheduled along a trace, oldest first. *)
Fixpoint delays (o : UseWebSocketOptions) (h : Hook) (evs : list Event) : list Z :=
  match evs with
  | [] => []
  | ev :: rest =>
      let h' := step o h ev in
      match scheduled h h' with
      | Some d => d :: delays o h' rest
      | None => delays o h' rest
      end
  end.

(** The hook after mounting: the effect has run [connect]. *)
Definition mounted : Hook := connect initial.

(** Four connection attempts in a row that end in a close event, the
    scheduled timer running [connect] between them. *)
Definition four_closes : list Event :=
  [SocketClosed; TimerFired 1; SocketClosed; TimerFired 2;
   SocketClosed; TimerFired 3; SocketClosed].

(** At most one timeout is pending; it is the one [reconnectTimerRef]
    holds, and the socket it was scheduled for is closed. *)
Definition timer_tracked (h : Hook) : Prop :=
  timers h = [] \/
  exists id delay,
    timers h = [(id, delay)] /\ reconnectTimerRef h = Some id /\ wsRef h = Some CLOSED.

(** After [close()]: the flag is set, nothing is pending and no socket is
    connecting. *)
Definition shut (h : Hook) : Prop :=
  intentionalCloseRef h = true /\ timers h = [] /\ wsRef h <> Some CONNECTING.

(** *** The remaining callbacks *)

(** [send]: whether the data is handed to the socket; otherwise the call
    does nothing. *)
Definition send (h : Hook) : bool :=
  match wsRef h with
  | Some OPEN => true
  | _ => false
  end.

(** [reconnect]: [close()], then [setTimeout(connect, 100)], whose id is
    not kept anywhere. *)
Definition reconnect (h : Hook) : Hook :=
  let h1 := close h in
  {| connected := connected h1;
     wsRef := wsRef h1;
     reconnectAttemptRef := reconnectAttemptRef h1;
     reconnectTimerRef := reconnectTimerRef h1;
     intentionalCloseRef := intentionalCloseRef h1;
     timers := timers h1 ++ [(nextTimerId h1, 100)];
     nextTimerId := S (nextTimerId h1) |}.

(** The events of a mounted hook with the manual reconnect added. *)
Inductive Action : Type :=
| Happens (ev : Event)
| ReconnectCalled.

Definition act (o : UseWebSocketOptions) (h : Hook) (a : Action) : Hook :=
  match a with
  | Happens ev => step o h ev
  | ReconnectCalled => reconnect h
  end.

Definition acts (o : UseWebSocketOptions) (h : Hook) (l : list Action) : Hook :=
  fold_left (act o) l h.

(** The backoff delays scheduled along a sequence of actions. *)
Fixpoint backoffs (o : UseWebSocketOptions) (h : Hook) (l : list Action) : list Z :=
  match l with
  | [] => []
  | a :: rest =>
      let h' := act o h a in
      match a with
      | Happens SocketClosed =>
          match scheduled h h' with
          | Some d => d :: backoffs o h' rest
          | None => backoffs o h' rest
          end
      | _ => backoffs o h' rest
      end
  end.

(** [n] connection attempts in a row that end in a close event, each
    followed by the timeout it scheduled; [id] is the id of the first
    timeout. *)
Fixpoint failures (id : nat) (n : nat) : list Event :=
  match n with
  | O => []
  | S k => SocketClosed :: TimerFired id :: failures (S id) k
  end.

(** Ids of pending timeouts are below the next id to be handed out. *)
Definition ids_fresh (h : Hook) : Prop :=
  forall t, In t (timers h) -> (fst t < nextTimerId h)%nat.

End UseWebSocket.

(** ** From the face mesh to the camera (FaceMeshView, App, ThreeSceneManager) *)

Module Pipeline.
Import Types HeadPose.
Open Scope R_scope.








End Pipeline.

(** ** hooks/useFaceLandmarker.ts: the detection loop *)

Module FaceLandmarker.
Open Scope R_scope.

(** [HTMLMediaElement.HAVE_CURRENT_DATA] *)
Definition HAVE_CURRENT_DATA : Z := 2.

(** One run of [detect] in an animation frame: [readyState] is the
    video's, [now] the reading of [performance.now()].  The result is the
    timestamp handed to [detectForVideo], if the detector is called, and
    the new [lastTimestampRef]; whether the detector throws makes no
    difference to either. *)
Definition detect (lastTimestamp : R) (readyState : Z) (now : R) : option R * R :=
  if (HAVE_CURRENT_DATA <=? readyState)%Z then
    if Rlt_dec lastTimestamp now then (Some now, now)
    else (None, lastTimestamp)
  else (None, lastTimestamp).

(** The timestamps handed to the detector over a run of animation frames,
    oldest first, and [lastTimestampRef] at the end. *)
Fixpoint detections (lastTimestamp : R) (frames : list (Z * R)) : list R * R :=
  match frames with
  | [] => ([], lastTimestamp)
  | (readyState, now) :: rest =>
      let '(sent, last1) := detect lastTimestamp readyState now in
      let '(more, last2) := detections last1 rest in
      (match sent with
       | Some t => t :: more
       | None => more
       end, last2)
  end.

(** [lastTimestampRef] at mount and after [stopDetection]. *)
Definition stopped : R := -1.

End FaceLandmarker.

(** * Properties *)

(** ** Off-axis camera *)

Module OffAxisCameraFacts.
Import Types Calibration OffAxisCamera.
Open Scope R_scope.

Lemma updateProjectionMatrix_head (c : OffAxisCamera) :
  headX (updateProjectionMatrix c) = headX c /\
  headY (updateProjectionMatrix c) = headY c /\
  headZ (updateProjectionMatrix c) = headZ c /\
  screenWidth (updateProjectionMatrix c) = screenWidth c /\
  screenHeight (updateProjectionMatrix c) = screenHeight c /\
  settings (updateProjectionMatrix c) = settings c.
Proof. unfold updateProjectionMatrix; simpl; repeat split; reflexivity. Qed.

(** What [updateFromHeadPose] stores: the lateral offsets carry
    [movementScale], the distance does not. *)
Lemma updateFromHeadPose_head (c : OffAxisCamera) (p : SmoothedHeadPose) :
  let c' := updateFromHeadPose c p in
  headX c' = (worldX p / 100) * movementScale (settings c) * ax (axisStrength (settings c)) /\
  headY c' = (worldY p / 100) * movementScale (settings c) * ay (axisStrength (settings c)) /\
  headZ c' = Rmax (1 / 10) ((worldZ p / 100) * az (axisStrength (settings c))) /\
  0.1 <= headZ c'.
Proof.
  simpl. repeat split; try reflexivity.
  replace 0.1 with (1 / 10) by lra. apply Rmax_l.
Qed.

(** The frustum that [updateProjectionMatrix] hands to [makePerspective]
    for a screen of half-size [halfW] x [halfH], near and far planes and a
    head at [(hx, hy, dist)]. *)
Lemma updateProjectionMatrix_frustum (c : OffAxisCamera) :
  projectionMatrix (camera (updateProjectionMatrix c)) =
  Some (mkFrustum
          ((- (screenWidth c / 2) - headX c) * (nearPlane (settings c) / headZ c))
          ((screenWidth c / 2 - headX c) * (nearPlane (settings c) / headZ c))
          ((- (screenHeight c / 2) - headY c) * (nearPlane (settings c) / headZ c))
          ((screenHeight c / 2 - headY c) * (nearPlane (settings c) / headZ c))
          (nearPlane (settings c)) (farPlane (settings c))).
Proof. reflexivity. Qed.

(** C1. [updateFromHeadPose] and [setHeadPosition] store the head
    position they are given (scaled, and with the distance floored at 0.1)
    and leave screen size and settings alone; the projection they then set
    is the frustum with left = (-halfW - headX) * (near / dist),
    right = (halfW - headX) * (near / dist),
    bottom = (-halfH - headY) * (near / dist) and
    top = (halfH - headY) * (near / dist), where halfW and halfH are half
    the camera's screen size, near and far its settings' planes, and headX,
    headY and dist the head position just stored.  When headX = headY = 0
    the frustum is symmetric, left = -right and bottom = -top, and this for
    every distance. *)
Theorem frustum_recomputed (c : OffAxisCamera) :
  let halfW := screenWidth c / 2 in
  let halfH := screenHeight c / 2 in
  let near_ := nearPlane (settings c) in
  let far_ := farPlane (settings c) in
  let frustum (hx hy dist : R) :=
    mkFrustum ((- halfW - hx) * (near_ / dist)) ((halfW - hx) * (near_ / dist))
              ((- halfH - hy) * (near_ / dist)) ((halfH - hy) * (near_ / dist))
              near_ far_ in
  (forall p : SmoothedHeadPose,
      let c' := updateFromHeadPose c p in
      let hx := (worldX p / 100) * movementScale (settings c) * ax (axisStrength (settings c)) in
      let hy := (worldY p / 100) * movementScale (settings c) * ay (axisStrength (settings c)) in
      let dist := Rmax (1 / 10) ((worldZ p / 100) * az (axisStrength (settings c))) in
      (headX c', headY c', headZ c') = (hx, hy, dist) /\
      (screenWidth c', screenHeight c', settings c') = (screenWidth c, screenHeight c, settings c) /\
      projectionMatrix (camera c') = Some (frustum hx hy dist) /\
      (worldX p = 0 -> worldY p = 0 ->
       exists f, projectionMatrix (camera c') = Some f /\
                 left f = - right f /\ bottom f = - top f)) /\
  (forall hx hy hz : R,
      let c' := setHeadPosition c hx hy hz in
      let dist := Rmax (1 / 10) hz in
      (headX c', headY c', headZ c') = (hx, hy, dist) /\
      (screenWidth c', screenHeight c', settings c') = (screenWidth c, screenHeight c, settings c) /\
      projectionMatrix (camera c') = Some (frustum hx hy dist)) /\
  (forall hz : R,
      exists f,
        projectionMatrix (camera (setHeadPosition c 0 0 hz)) = Some f /\
        left f = - right f /\ bottom f = - top f) /\
  (forall dist : R,
      exists f,
        projectionMatrix (camera (updateProjectionMatrix (with_head c 0 0 dist))) = Some f /\
        f = frustum 0 0 dist /\
        left f = - right f /\ bottom f = - top f).
Proof.
  intros halfW halfH near_ far_ frustum.
  split; [| split; [| split]].
  - intros p c' hx hy dist.
    split; [reflexivity |]. split; [reflexivity |]. split; [reflexivity |].
    intros Hx Hy. exists (frustum hx hy dist). split; [reflexivity |].
    assert (Ex : hx = 0) by (subst hx; rewrite Hx; field).
    assert (Ey : hy = 0) by (subst hy; rewrite Hy; field).
    rewrite Ex, Ey. subst frustum. cbn [left right bottom top].
    generalize (near_ / dist). intros r.
    split; field.
  - intros hx hy hz c' dist.
    split; [reflexivity |]. split; reflexivity.
  - intros hz. exists (frustum 0 0 (Rmax (1 / 10) hz)). split; [reflexivity |].
    subst frustum. cbn [left right bottom top].
    generalize (near_ / Rmax (1 / 10) hz). intros r.
    split; field.
  - intros dist. exists (frustum 0 0 dist). split; [reflexivity |]. split; [reflexivity |].
    subst frustum. cbn [left right bottom top]. generalize (near_ / dist). intros r.
    split; field.
Qed.

Lemma frustum_recomputed_witness :
  exists f,
    projectionMatrix
      (camera (setHeadPosition (new 1 DEFAULT_SETTINGS DEFAULT_CALIBRATION) 0 0 (6 / 10)))
    = Some f /\ left f = - right f /\ bottom f = - top f.
Proof.
  destruct (frustum_recomputed (new 1 DEFAULT_SETTINGS DEFAULT_CALIBRATION))
    as (_ & _ & H & _).
  exact (H (6 / 10)).
Defined.

(** C2, at its failing input.  With the default settings (movementScale
    1.5, strengths 1) and a head 60 cm from the screen,
    [updateFromHeadPose] stores the distance 0.6 = max(0.1, (60/100) * 1),
    where scaling the distance like the two offsets would give
    max(0.1, (60/100) * 1.5 * 1) = 0.9; the offsets themselves are scaled
    (10 cm to the side is stored as 0.15). *)
Theorem updateFromHeadPose_distance_not_scaled :
  let c := new 1 DEFAULT_SETTINGS DEFAULT_CALIBRATION in
  let p := mkSmoothed (mkHeadPose (1 / 2) (1 / 2) 1 (1 / 10) 0) 10 0 60 in
  let s := settings c in
  headX (updateFromHeadPose c p) = 15 / 100 /\
  headX (updateFromHeadPose c p) = (worldX p / 100) * movementScale s * ax (axisStrength s) /\
  headZ (updateFromHeadPose c p) = 6 / 10 /\
  Rmax (1 / 10) ((worldZ p / 100) * movementScale s * az (axisStrength s)) = 9 / 10 /\
  headZ (updateFromHeadPose c p)
    <> Rmax (1 / 10) ((worldZ p / 100) * movementScale s * az (axisStrength s)).
Proof.
  simpl.
  assert (H6 : Rmax (1 / 10) (60 / 100 * 1) = 6 / 10).
  { rewrite Rmax_right; lra. }
  assert (H9 : Rmax (1 / 10) (60 / 100 * (15 / 10) * 1) = 9 / 10).
  { rewrite Rmax_right; lra. }
  rewrite H6, H9. repeat split; lra.
Qed.

End OffAxisCameraFacts.

(** ** Head pose tracker *)

Module HeadPoseFacts.
Import Types Calibration HeadPose.
Open Scope R_scope.

(** C8. [headPoseToWorldPosition] is a function of its arguments alone:
    worldX = -(x - 0.5) * screenWidthCm, worldY = -(y - 0.5) * screenHeightCm,
    worldZ = baseDistanceCm / z; at x = y = 0.5, z = 1 on a 34 x 19 cm
    screen with base distance 60 cm it gives (0, 0, 60). *)
Theorem headPoseToWorldPosition_formula :
  (forall (p : HeadPose) (screenW screenH baseDistance : R),
      headPoseToWorldPosition p screenW screenH baseDistance =
      (- (x p - 5 / 10) * screenW, - (y p - 5 / 10) * screenH, baseDistance / z p)) /\
  (forall interOcular time : R,
      headPoseToWorldPosition (mkHeadPose (5 / 10) (5 / 10) 1 interOcular time) 34 19 60
      = (0, 0, 60)).
Proof.
  split.
  - intros p w h d. unfold headPoseToWorldPosition.
    replace (1 / 2) with (5 / 10) by lra. reflexivity.
  - intros i t. unfold headPoseToWorldPosition. simpl.
    f_equal; [f_equal |]; lra.
Qed.

(** C9. Without landmarks, or with fewer than 468 of them, [update]
    returns null and the tracker is what it was; the next update therefore
    smooths against the pose stored before the gap. *)
Theorem update_insufficient_input (t : HeadPoseTracker) (cal : CalibrationData)
  (now : R) (landmarks : option (list Point3)) :
  landmarks = None \/ (exists l, landmarks = Some l /\ (length l < 468)%nat) ->
  update t cal now landmarks = (None, t) /\
  previousPose (snd (update t cal now landmarks)) = previousPose t /\
  forall cal' now' landmarks',
    update (snd (update t cal now landmarks)) cal' now' landmarks'
    = update t cal' now' landmarks'.
Proof.
  intros H.
  assert (E : update t cal now landmarks = (None, t)).
  { destruct H as [-> | (l & -> & Hl)]; [reflexivity |].
    unfold update. apply Nat.ltb_lt in Hl. rewrite Hl. reflexivity. }
  rewrite E. simpl. auto.
Qed.

Lemma update_insufficient_input_witness :
  update (mkTracker DEFAULT_CONFIG (Some (mkHeadPose 0 0 1 0 0)))
         DEFAULT_CALIBRATION 5 (Some [mkPoint3 0 0 0])
  = (None, mkTracker DEFAULT_CONFIG (Some (mkHeadPose 0 0 1 0 0))).
Proof.
  apply (update_insufficient_input
           (mkTracker DEFAULT_CONFIG (Some (mkHeadPose 0 0 1 0 0)))
           DEFAULT_CALIBRATION 5 (Some [mkPoint3 0 0 0])).
  right. exists [mkPoint3 0 0 0]. split; [reflexivity | simpl; lia].
Defined.

(** *** Exponential smoothing *)

Lemma update_enough (t : HeadPoseTracker) (cal : CalibrationData) (now : R)
  (lms : list Point3) :
  (468 <= length lms)%nat ->
  let smoothed :=
    match previousPose t with
    | Some prev => smooth (cfg_smoothingFactor (config t)) (rawPose (config t) now lms) prev
    | None => rawPose (config t) now lms
    end in
  update t cal now (Some lms) =
  (Some {| pose := smoothed;
           worldX := - (x smoothed - 1 / 2) * screenWidthCm cal;
           worldY := - (y smoothed - 1 / 2) * screenHeightCm cal;
           worldZ := viewingDistanceCm cal / z smoothed |},
   mkTracker (config t) (Some smoothed)).
Proof.
  intros Hlen. unfold update.
  apply Nat.ltb_ge in Hlen. rewrite Hlen. reflexivity.
Qed.

Lemma updates_cons (t : HeadPoseTracker) (cal : CalibrationData) (now : R)
  (lms : option (list Point3)) (rest : list (R * option (list Point3))) :
  updates t cal ((now, lms) :: rest) =
  (fst (update t cal now lms) :: fst (updates (snd (update t cal now lms)) cal rest),
   snd (updates (snd (update t cal now lms)) cal rest)).
Proof.
  simpl. destruct (update t cal now lms) as [r t1]. cbn [fst snd].
  destruct (updates t1 cal rest) as [rs t2]. reflexivity.
Qed.







(** *** Clamp ranges *)

Lemma clamp_lower (val min max : R) : min <= clamp val min max.
Proof. unfold clamp. apply Rmax_l. Qed.

Lemma clamp_upper (val min max : R) : min <= max -> clamp val min max <= max.
Proof.
  intros H. unfold clamp. apply Rmax_lub; [exact H | apply Rmin_l].
Qed.


Lemma rawPose_within (c : HeadPoseConfig) (now : R) (lms : list Point3) :
  fst (clampX c) <= snd (clampX c) ->
  fst (clampY c) <= snd (clampY c) ->
  fst (clampZ c) <= snd (clampZ c) ->
  pose_within c (rawPose c now lms).
Proof.
  intros Hx Hy Hz. unfold pose_within, within, rawPose. cbn [x y z].
  repeat split; (apply clamp_lower || (apply clamp_upper; assumption)).
Qed.


(** C10 as stated fails: the clamp ranges are configuration.  With the z
    range [0, 3] and smoothing factor 0.3, a mesh whose eye corners coincide
    gives the depth proxy 0, which the clamp lets through; the returned z is
    0 and the world conversion divides the viewing distance by it.  With
    the x range written as [1, 0], [clamp] answers its first bound and the
    returned x = 1 is not within the range. *)
Lemma update_depth_can_be_zero :
  (let c := mkConfig (3 / 10) (0, 1) (0, 1) (0, 3) in
   0 <= cfg_smoothingFactor c <= 1 /\
   exists sp,
     fst (update (new_with_config c) DEFAULT_CALIBRATION 0 (Some collapsed_face)) = Some sp /\
     within (clampZ c) (z (pose sp)) /\
     z (pose sp) = 0 /\
     worldZ sp = viewingDistanceCm DEFAULT_CALIBRATION / 0) /\
  (let c := mkConfig (3 / 10) (1, 0) (0, 1) (3 / 10, 3) in
   0 <= cfg_smoothingFactor c <= 1 /\
   exists sp,
     fst (update (new_with_config c) DEFAULT_CALIBRATION 0 (Some collapsed_face)) = Some sp /\
     x (pose sp) = 1 /\
     ~ within (clampX c) (x (pose sp))).
Proof.
  assert (H : (468 <= length collapsed_face)%nat).
  { unfold collapsed_face. rewrite repeat_length. lia. }
  split; cbv zeta; (split; [cbn [cfg_smoothingFactor]; lra |]).
  - pose proof (update_enough (new_with_config (mkConfig (3 / 10) (0, 1) (0, 1) (0, 3)))
                  DEFAULT_CALIBRATION 0 collapsed_face H) as E.
    cbv zeta in E. cbn [previousPose new_with_config config] in E.
    match type of E with _ = (Some ?sp, _) => exists sp end.
    rewrite E. cbn [fst pose worldZ].
    assert (Hz : z (rawPose (mkConfig (3 / 10) (0, 1) (0, 1) (0, 3)) 0 collapsed_face) = 0).
    { unfold rawPose. cbn [z clampZ fst snd].
      unfold at_index, collapsed_face, LEFT_EYE_INNER, RIGHT_EYE_INNER,
        LEFT_EYE_OUTER, RIGHT_EYE_OUTER.
      cbn [nth repeat px py].
      replace ((1 / 2 - 1 / 2) ^ 2 + (1 / 2 - 1 / 2) ^ 2) with 0 by ring.
      rewrite sqrt_0.
      replace ((0 + 0 * (1 / 2)) / (15 / 100)) with 0 by (unfold Rdiv; ring).
      unfold clamp. rewrite Rmin_right by lra. rewrite Rmax_left by lra. reflexivity. }
    rewrite Hz. unfold within. cbn [clampZ fst snd viewingDistanceCm DEFAULT_CALIBRATION].
    repeat split; try reflexivity; lra.
  - pose proof (update_enough
                  (new_with_config (mkConfig (3 / 10) (1, 0) (0, 1) (3 / 10, 3)))
                  DEFAULT_CALIBRATION 0 collapsed_face H) as E.
    cbv zeta in E. cbn [previousPose new_with_config config] in E.
    match type of E with _ = (Some ?sp, _) => exists sp end.
    rewrite E. cbn [fst pose].
    assert (Hx : x (rawPose (mkConfig (3 / 10) (1, 0) (0, 1) (3 / 10, 3)) 0 collapsed_face)
                 = 1).
    { unfold rawPose. cbn [x clampX fst snd].
      unfold clamp. rewrite Rmax_left; [reflexivity |].
      apply Rle_trans with 0; [apply Rmin_l | lra]. }
    rewrite Hx. split; [reflexivity |]. split; [reflexivity |].
    unfold within. cbn [clampX fst snd]. lra.
Qed.

Lemma ema_positive (current previous alpha : R) :
  0 <= alpha <= 1 -> 0 < current -> 0 < previous -> 0 < ema current previous alpha.
Proof.
  intros Ha Hc Hp. unfold ema.
  destruct (Rle_lt_dec alpha (1 / 2)) as [H | H]; nra.
Qed.

Lemma calls_step (t : HeadPoseTracker) (op : Call) (rest : list Call) :
  calls t (op :: rest) =
  (match fst (call t op) with
   | Some sp => sp :: fst (calls (snd (call t op)) rest)
   | None => fst (calls (snd (call t op)) rest)
   end,
   snd (calls (snd (call t op)) rest)).
Proof.
  simpl. destruct (call t op) as [r t1]. cbn [fst snd].
  destruct (calls t1 rest) as [rs t2]. reflexivity.
Qed.

(** One call other than [setConfig] keeps the depth positive. *)
Lemma call_depth (t : HeadPoseTracker) (op : Call) :
  depth_positive t -> is_SetConfig op = false ->
  depth_positive (snd (call t op)) /\
  forall sp, fst (call t op) = Some sp -> 0 < z (pose sp).
Proof.
  intros Hd Hop. pose proof Hd as (Ha & Hz & Hprev).
  destruct op as [cal now landmarks | factor | p |]; cbn [call]; cbn [is_SetConfig] in Hop.
  - destruct landmarks as [lms |].
    2: { cbn [update fst snd]. split; [exact Hd |]. intros sp E. discriminate E. }
    destruct (Nat.ltb_spec (length lms) 468) as [Hshort | Hlong].
    { assert (E : update t cal now (Some lms) = (None, t)).
      { unfold update. apply Nat.ltb_lt in Hshort. rewrite Hshort. reflexivity. }
      rewrite E. cbn [fst snd]. split; [exact Hd |]. intros sp E'. discriminate E'. }
    pose proof (update_enough t cal now lms Hlong) as E. cbv zeta in E.
    rewrite E. cbn [fst snd].
    assert (Hraw : 0 < z (rawPose (config t) now lms)).
    { unfold rawPose. cbn [z].
      apply Rlt_le_trans with (fst (clampZ (config t))); [apply Hz |]. apply clamp_lower. }
    assert (Hsm : 0 < z match previousPose t with
                        | Some prev =>
                            smooth (cfg_smoothingFactor (config t))
                              (rawPose (config t) now lms) prev
                        | None => rawPose (config t) now lms
                        end).
    { destruct (previousPose t) as [prev |] eqn:Eprev; [| exact Hraw].
      unfold smooth. cbn [z]. apply ema_positive; [exact Ha | exact Hraw |].
      apply Hprev. reflexivity. }
    split.
    + unfold depth_positive. cbn [config previousPose].
      split; [exact Ha |]. split; [exact Hz |].
      intros prev Ep. injection Ep as Ep. subst prev. exact Hsm.
    + intros sp Esp. injection Esp as Esp. subst sp. cbn [pose]. exact Hsm.
  - cbn [fst snd]. split; [| intros sp E; discriminate E].
    unfold depth_positive, setSmoothingFactor. cbn [config previousPose cfg_smoothingFactor clampZ].
    split; [| split; [exact Hz | exact Hprev]].
    split.
    + apply Rle_trans with (1 / 100); [lra | apply clamp_lower].
    + apply clamp_upper. lra.
  - discriminate Hop.
  - cbn [fst snd]. split; [| intros sp E; discriminate E].
    unfold depth_positive, reset. cbn [config previousPose].
    split; [exact Ha |]. split; [exact Hz |]. intros prev E. discriminate E.
Qed.

Lemma calls_depth (ops : list Call) :
  forall t : HeadPoseTracker,
    depth_positive t ->
    forallb (fun op => negb (is_SetConfig op)) ops = true ->
    forall sp, In sp (fst (calls t ops)) -> 0 < z (pose sp).
Proof.
  induction ops as [| op ops IH]; intros t Hd Hops sp Hin; [destruct Hin |].
  cbn [forallb] in Hops. apply andb_prop in Hops. destruct Hops as [Hop Hops].
  apply negb_true_iff in Hop.
  destruct (call_depth t op Hd Hop) as [Hd' Hsp].
  rewrite calls_step in Hin. cbn [fst] in Hin.
  destruct (fst (call t op)) as [sp0 |] eqn:E.
  - destruct Hin as [Hin | Hin].
    + subst sp0. apply Hsp. reflexivity.
    + apply (IH _ Hd' Hops sp Hin).
  - apply (IH _ Hd' Hops sp Hin).
Qed.

(** C10, amended.  With clamp ranges that have min <= max, and landmark
    coordinates and bounds that are finite numbers, the sample that enters
    the smoothing has x, y and z within the configured ranges.
    A pose returned without a previous pose (the first after construction
    or reset) is that sample, and lies within the ranges; a later pose is
    alpha * sample + (1 - alpha) * previous on x, y and z, and is not
    clamped again.  In binary64 that blend is rounded and can leave the
    range: with smoothing 0.2 and the default z range, two samples that
    clamp to 3 return 3 and then 3.0000000000000004.  When the smoothing
    factor given to the constructor lies in [0,1] and the z range starts at
    0.3, as the default does, or above, every z returned through any
    sequence of [update], [setSmoothingFactor] and [reset] calls is greater
    than 0, and the divisor of worldZ = baseDistanceCm / z is not zero. *)
Theorem update_clamps_sample (c : HeadPoseConfig) :
  fst (clampX c) <= snd (clampX c) ->
  fst (clampY c) <= snd (clampY c) ->
  fst (clampZ c) <= snd (clampZ c) ->
  (forall (now : R) (lms : list Point3), pose_within c (rawPose c now lms)) /\
  (forall (previous : option HeadPose) (cal : CalibrationData) (now : R)
          (lms : list Point3),
      (468 <= length lms)%nat ->
      exists sp,
        fst (update (mkTracker c previous) cal now (Some lms)) = Some sp /\
        worldZ sp = viewingDistanceCm cal / z (pose sp) /\
        match previous with
        | None => pose sp = rawPose c now lms /\ pose_within c (pose sp)
        | Some prev =>
            let a := cfg_smoothingFactor c in
            let raw := rawPose c now lms in
            x (pose sp) = a * x raw + (1 - a) * x prev /\
            y (pose sp) = a * y raw + (1 - a) * y prev /\
            z (pose sp) = a * z raw + (1 - a) * z prev
        end) /\
  (let alpha := Binary64.decimal 2 10 in
   let zMin := Binary64.decimal 3 10 in
   let zMax := Binary64.of_Z 3 in
   let first := Binary64.update_z alpha zMin zMax None (Binary64.of_Z 4) in
   let second := Binary64.update_z alpha zMin zMax (Some first) (Binary64.of_Z 4) in
   first = zMax /\
   second = S754_finite false 6755399441055745 (-51) /\
   SFltb zMax second = true /\
   SFleb second zMax = false) /\
  (0 <= cfg_smoothingFactor c <= 1 -> 3 / 10 <= fst (clampZ c) ->
   forall (ops : list Call) (sp : SmoothedHeadPose),
     forallb (fun op => negb (is_SetConfig op)) ops = true ->
     In sp (fst (calls (new_with_config c) ops)) ->
     0 < z (pose sp) /\ z (pose sp) <> 0).
Proof.
  intros Hx Hy Hz.
  split; [intros now lms; apply rawPose_within; assumption |].
  split.
  { intros previous cal now lms Hlen.
    pose proof (update_enough (mkTracker c previous) cal now lms Hlen) as E.
    cbv zeta in E. cbn [config previousPose] in E.
    match type of E with _ = (Some ?s, _) => exists s end.
    rewrite E. cbn [fst pose worldZ].
    split; [reflexivity |]. split; [reflexivity |].
    destruct previous as [prev |].
    - cbv zeta. unfold smooth, ema. cbn [x y z]. repeat split; reflexivity.
    - split; [reflexivity |]. apply rawPose_within; assumption. }
  split.
  { vm_compute. repeat split; reflexivity. }
  intros Ha Hpos ops sp Hops Hin.
  assert (H : 0 < z (pose sp)).
  { apply (calls_depth ops (new_with_config c)); [| exact Hops | exact Hin].
    unfold depth_positive, new_with_config. cbn [config previousPose].
    split; [exact Ha |]. split; [split; [lra | assumption] |].
    intros prev E. discriminate E. }
  split; [exact H | lra].
Qed.

Lemma update_clamps_sample_witness :
  exists sp,
    In sp (fst (calls new_default
                  [Update DEFAULT_CALIBRATION 0 (Some collapsed_face);
                   SetSmoothingFactor 5;
                   Update DEFAULT_CALIBRATION 1 (Some collapsed_face)])) /\
    0 < z (pose sp).
Proof.
  assert (Hlen : (468 <= length collapsed_face)%nat).
  { unfold collapsed_face. rewrite repeat_length. lia. }
  pose proof (update_enough new_default DEFAULT_CALIBRATION 0 collapsed_face Hlen) as E.
  cbv zeta in E. cbn [previousPose new_default] in E.
  match type of E with _ = (Some ?s, _) => set (sp0 := s) in * end.
  assert (Hin : In sp0 (fst (calls new_default
                  [Update DEFAULT_CALIBRATION 0 (Some collapsed_face);
                   SetSmoothingFactor 5;
                   Update DEFAULT_CALIBRATION 1 (Some collapsed_face)]))).
  { rewrite calls_step. cbn [call]. rewrite E. cbn [fst]. left. reflexivity. }
  exists sp0. split; [exact Hin |].
  destruct (update_clamps_sample DEFAULT_CONFIG) as (_ & _ & _ & H).
  - unfold DEFAULT_CONFIG. cbn [clampX fst snd]. lra.
  - unfold DEFAULT_CONFIG. cbn [clampY fst snd]. lra.
  - unfold DEFAULT_CONFIG. cbn [clampZ fst snd]. lra.
  - assert (Ha : 0 <= cfg_smoothingFactor DEFAULT_CONFIG <= 1).
    { unfold DEFAULT_CONFIG. cbn [cfg_smoothingFactor]. lra. }
    assert (Hp : 3 / 10 <= fst (clampZ DEFAULT_CONFIG)).
    { unfold DEFAULT_CONFIG. cbn [clampZ fst]. lra. }
    destruct (H Ha Hp
                [Update DEFAULT_CALIBRATION 0 (Some collapsed_face);
                 SetSmoothingFactor 5;
                 Update DEFAULT_CALIBRATION 1 (Some collapsed_face)] sp0 eq_refl Hin)
      as [Hq _].
    exact Hq.
Defined.

End HeadPoseFacts.

(** ** Video texture manager *)

Module VideoTextureManagerFacts.
Import Byte VideoTextureManager.
Open Scope Z_scope.

(** *** Comparison of binary64 values *)

Lemma SFcompare_antisym (a b : spec_float) :
  SFcompare b a = option_map CompOpp (SFcompare a b).
Proof.
  destruct a as [sa | sa | | sa ma ea], b as [sb | sb | | sb mb eb]; simpl;
    try reflexivity; try (destruct sa; reflexivity); try (destruct sb; reflexivity);
    try (destruct sa, sb; reflexivity).
  destruct sa, sb; simpl; try reflexivity.
  - rewrite (Z.compare_antisym ea eb).
    destruct (ea ?= eb) eqn:E; simpl; try reflexivity.
    rewrite (Pos.compare_cont_antisym ma mb Eq). reflexivity.
  - rewrite (Z.compare_antisym ea eb).
    destruct (ea ?= eb) eqn:E; simpl; try reflexivity.
    rewrite (Pos.compare_cont_antisym ma mb Eq). reflexivity.
Qed.

(** [a < b] excludes [b <= a]. *)
Lemma SFltb_not_SFleb (a b : spec_float) : SFltb a b = true -> SFleb b a = false.
Proof.
  unfold SFltb, SFleb. rewrite (SFcompare_antisym a b).
  destruct (SFcompare a b) as [[| |] |]; simpl; congruence.
Qed.

(** Away from NaN, the failure of [a <= b] is [b < a]. *)
Lemma SFleb_false_SFltb (a b : spec_float) :
  is_nan a = false -> is_nan b = false -> SFleb a b = false -> SFltb b a = true.
Proof.
  unfold SFltb, SFleb. rewrite (SFcompare_antisym a b).
  intros Ha Hb.
  destruct (SFcompare a b) as [[| |] |] eqn:E; simpl; try congruence.
  destruct a, b; simpl in *; try discriminate; destruct s; discriminate.
Qed.

(** *** [getTexture] *)

Lemma getTexture_lookup (m : Manager) (sourceId : string) :
  textures (fst (getTexture m sourceId)) !! sourceId
  = Some (match textures m !! sourceId with
          | Some e => e
          | None => placeholderEntry
          end).
Proof.
  unfold getTexture. destruct (textures m !! sourceId) as [e |] eqn:E; simpl.
  - exact E.
  - apply lookup_insert_eq.
Qed.

Lemma getTexture_other (m : Manager) (sourceId other : string) :
  other <> sourceId ->
  textures (fst (getTexture m sourceId)) !! other = textures m !! other.
Proof.
  intros Hne. unfold getTexture. destruct (textures m !! sourceId); simpl.
  - reflexivity.
  - apply lookup_insert_ne. congruence.
Qed.

Lemma getTexture_decoding (m : Manager) (sourceId : string) :
  decoding (fst (getTexture m sourceId)) = decoding m /\
  closedBitmaps (fst (getTexture m sourceId)) = closedBitmaps m.
Proof. unfold getTexture. destruct (textures m !! sourceId); simpl; auto. Qed.

Lemma getTexture_present (m : Manager) (sourceId : string) (e : Entry) :
  textures m !! sourceId = Some e -> fst (getTexture m sourceId) = m.
Proof. intros E. unfold getTexture. rewrite E. reflexivity. Qed.

(** *** The synchronous part of [processFrame] *)

(** The three outcomes of [processFrame_begin]: the manager is returned
    untouched; or only the entry was created and the frame dropped as stale
    or for backpressure; or the decode was started. *)
Lemma processFrame_begin_cases (m : Manager) (sourceId : string) (data : list byte) :
  let m1 := fst (getTexture m sourceId) in
  (~ header_ok data /\ processFrame_begin m sourceId data = (m, Resolved false)) \/
  (header_ok data /\
   exists e,
     textures m1 !! sourceId = Some e /\
     (SFleb (getFloat64 data 1) (lastTimestamp e) = true \/ processing e = true) /\
     processFrame_begin m sourceId data = (m1, Resolved false)) \/
  (header_ok data /\
   exists e,
     textures m1 !! sourceId = Some e /\
     SFleb (getFloat64 data 1) (lastTimestamp e) = false /\
     processing e = false /\
     processFrame_begin m sourceId data =
     ({| textures := <[sourceId := set_processing e true]> (textures m1);
         decoding := decoding m ++
           [mkPending sourceId (getFloat64 data 1) (getUint32 data 9)
              (getUint32 data 13) (slice data 21 (Z.to_nat (getUint32 data 17)))];
         closedBitmaps := closedBitmaps m |},
      Awaiting)).
Proof.
  intros m1. unfold processFrame_begin, header_ok.
  destruct (Z.ltb_spec (byteLength data) HEADER_SIZE) as [H1 | H1].
  { left. split; [lia | reflexivity]. }
  destruct (Z.eqb_spec (getUint8 data 0) 1) as [H2 | H2]; simpl negb; cbv iota.
  2: { left. split; [tauto | reflexivity]. }
  destruct (Z.ltb_spec (byteLength data) (HEADER_SIZE + getUint32 data 17)) as [H3 | H3].
  { left. split; [lia | reflexivity]. }
  right. fold m1.
  pose proof (getTexture_lookup m sourceId) as Hl. fold m1 in Hl. rewrite Hl.
  set (e := match textures m !! sourceId with
            | Some e => e
            | None => placeholderEntry
            end) in *.
  destruct (getTexture_decoding m sourceId) as [Hd Hc]. fold m1 in Hd, Hc.
  destruct (SFleb (getFloat64 data 1) (lastTimestamp e)) eqn:Hs.
  { left. split; [auto |]. exists e. auto. }
  destruct (processing e) eqn:Hp.
  { left. split; [auto |]. exists e. auto. }
  right. split; [auto |]. exists e. rewrite Hd, Hc. auto.
Qed.

(** A call for a source whose entry is busy returns false and changes
    nothing. *)
Lemma processFrame_begin_busy (m : Manager) (sourceId : string) (data : list byte)
  (e : Entry) :
  textures m !! sourceId = Some e -> processing e = true ->
  processFrame_begin m sourceId data = (m, Resolved false).
Proof.
  intros He Hp.
  pose proof (getTexture_present m sourceId e He) as Hm.
  destruct (processFrame_begin_cases m sourceId data)
    as [[_ H] | [(_ & e' & He' & _ & H) | (_ & e' & He' & _ & Hp' & _)]].
  - exact H.
  - rewrite Hm in H. exact H.
  - rewrite Hm, He in He'. congruence.
Qed.

(** *** Decodes in flight *)

Lemma pending_for_app (sourceId : string) (d1 d2 : list Pending) :
  pending_for sourceId (d1 ++ d2) = pending_for sourceId d1 ++ pending_for sourceId d2.
Proof. unfold pending_for. apply List.filter_app. Qed.

Lemma pending_for_none (sourceId : string) (d : list Pending) :
  (forall p, In p d -> p_sourceId p <> sourceId) <-> pending_for sourceId d = [].
Proof.
  unfold pending_for. induction d as [| q d IH]; simpl.
  - split; [reflexivity | intros _ p []].
  - destruct (String.eqb_spec (p_sourceId q) sourceId) as [E | E]; split; intros H.
    + exfalso. apply (H q); auto.
    + discriminate H.
    + apply IH. intros p Hp. apply H. auto.
    + intros p [<- | Hp]; [exact E |]. apply IH; assumption.
Qed.

Lemma nth_error_split_at (d : list Pending) (k : nat) (p : Pending) :
  nth_error d k = Some p -> d = firstn k d ++ p :: skipn (S k) d.
Proof.
  revert k. induction d as [| q d IH]; intros [| k] H; simpl in H; try discriminate.
  - injection H as ->. reflexivity.
  - cbn [firstn skipn app]. f_equal. apply IH. exact H.
Qed.

(** Taking the k-th suspended call out lowers the count of its source by
    one and leaves the other counts. *)
Lemma in_flight_remove (m : Manager) (k : nat) (p : Pending) (sourceId : string) :
  nth_error (decoding m) k = Some p ->
  in_flight m sourceId =
  (in_flight (remove_pending m k) sourceId
   + if String.eqb (p_sourceId p) sourceId then 1 else 0)%nat.
Proof.
  intros H. unfold in_flight, remove_pending. simpl decoding.
  rewrite (nth_error_split_at _ _ _ H) at 1.
  rewrite !pending_for_app, !length_app.
  change (p :: skipn (S k) (decoding m)) with ([p] ++ skipn (S k) (decoding m)).
  rewrite pending_for_app, length_app.
  unfold pending_for at 2. simpl List.filter.
  destruct (String.eqb (p_sourceId p) sourceId); simpl; lia.
Qed.

Lemma in_remove_pending (m : Manager) (k : nat) (q : Pending) :
  In q (decoding (remove_pending m k)) -> In q (decoding m).
Proof.
  unfold remove_pending. simpl. intros H. apply in_app_or in H.
  destruct H as [H | H].
  - rewrite <- (firstn_skipn k (decoding m)). apply in_or_app. left. exact H.
  - rewrite <- (firstn_skipn (S k) (decoding m)). apply in_or_app. right. exact H.
Qed.

Lemma in_flight_zero (m : Manager) (sourceId : string) :
  in_flight m sourceId = 0%nat <->
  (forall p, In p (decoding m) -> p_sourceId p <> sourceId).
Proof.
  unfold in_flight. rewrite pending_for_none.
  destruct (pending_for sourceId (decoding m)); simpl; split; congruence.
Qed.

(** *** The continuation after the decode *)

(** What the entry becomes when a decode settles. *)
Lemma processFrame_resume_entry (m : Manager) (p : Pending)
  (outcome : option ImageBitmap) (e : Entry) :
  textures m !! p_sourceId p = Some e ->
  let e' := match outcome with
            | Some bitmap => install e p bitmap
            | None => set_processing e false
            end in
  textures (fst (processFrame_resume m p outcome)) = <[p_sourceId p := e']> (textures m) /\
  decoding (fst (processFrame_resume m p outcome)) = decoding m /\
  snd (processFrame_resume m p outcome) = isSome outcome /\
  processing e' = false.
Proof.
  intros He. unfold processFrame_resume. rewrite He.
  destruct outcome as [bitmap |]; simpl; auto.
Qed.

Lemma step_settle (m : Manager) (k : nat) (outcome : option ImageBitmap)
  (p : Pending) (e : Entry) :
  nth_error (decoding m) k = Some p ->
  textures m !! p_sourceId p = Some e ->
  let e' := match outcome with
            | Some bitmap => install e p bitmap
            | None => set_processing e false
            end in
  textures (fst (step m (Settle k outcome))) = <[p_sourceId p := e']> (textures m) /\
  decoding (fst (step m (Settle k outcome))) = decoding (remove_pending m k) /\
  snd (step m (Settle k outcome)) =
    (if isSome outcome then [Applied (p_sourceId p) (p_timestamp p)] else [])
    ++ [Returned (p_sourceId p) (isSome outcome)].
Proof.
  intros Hk He e'. unfold step. rewrite Hk.
  assert (He' : textures (remove_pending m k) !! p_sourceId p = Some e) by exact He.
  destruct (processFrame_resume_entry (remove_pending m k) p outcome e He')
    as (Ht & Hd & Hb & _).
  destruct (processFrame_resume (remove_pending m k) p outcome) as [m1 b].
  simpl in Ht, Hd, Hb. subst b. simpl fst. simpl snd.
  split; [exact Ht |]. split; [exact Hd |].
  destruct outcome; reflexivity.
Qed.

(** *** The busy flag and the suspended calls agree in every reachable state *)

Lemma busy_consistent_new : busy_consistent new.
Proof.
  split.
  - intros p [].
  - intros s. unfold in_flight. simpl. lia.
Qed.

Lemma busy_consistent_getTexture (m : Manager) (sourceId : string) :
  busy_consistent m -> busy_consistent (fst (getTexture m sourceId)).
Proof.
  intros [I1 I2].
  destruct (textures m !! sourceId) as [e |] eqn:E.
  - rewrite (getTexture_present m sourceId e E). split; assumption.
  - destruct (getTexture_decoding m sourceId) as [Hd _]. split.
    + intros p Hp. rewrite Hd in Hp. destruct (I1 p Hp) as (e & He & Hb).
      exists e. split; [| exact Hb].
      rewrite getTexture_other; [exact He | congruence].
    + intros s. unfold in_flight. rewrite Hd. apply I2.
Qed.

Lemma busy_consistent_begin (m : Manager) (sourceId : string) (data : list byte) :
  busy_consistent m -> busy_consistent (fst (processFrame_begin m sourceId data)).
Proof.
  intros Hm.
  pose proof (busy_consistent_getTexture m sourceId Hm) as Hget.
  destruct Hm as [I1 I2].
  destruct (processFrame_begin_cases m sourceId data)
    as [[_ H] | [(_ & e & _ & _ & H) | (_ & e & He & _ & Hp & H)]];
    rewrite H; simpl fst; try assumption; try (split; assumption).
  destruct Hget as [G1 G2].
  destruct (getTexture_decoding m sourceId) as [Hd _].
  assert (Hnone : forall p, In p (decoding m) -> p_sourceId p <> sourceId).
  { intros p Hin Heq. rewrite <- Hd in Hin.
    destruct (G1 p Hin) as (e1 & He1 & Hb1). rewrite Heq in He1. congruence. }
  split.
  - intros p Hin. simpl decoding in Hin. simpl textures.
    apply in_app_or in Hin. destruct Hin as [Hin | [<- | []]].
    + destruct (I1 p Hin) as (e1 & He1 & Hb1). exists e1. split; [| exact Hb1].
      rewrite lookup_insert_ne by (apply not_eq_sym, Hnone; exact Hin).
      rewrite getTexture_other by (apply Hnone; exact Hin). exact He1.
    + simpl p_sourceId. exists (set_processing e true).
      split; [apply lookup_insert_eq | reflexivity].
  - intros s. unfold in_flight. simpl decoding.
    rewrite pending_for_app, length_app.
    unfold pending_for at 2. simpl List.filter.
    destruct (String.eqb_spec sourceId s) as [<- | Hne]; simpl.
    + apply pending_for_none in Hnone. rewrite Hnone. simpl. lia.
    + specialize (I2 s). unfold in_flight in I2. lia.
Qed.

Lemma busy_consistent_step (m : Manager) (ev : Event) :
  busy_consistent m -> busy_consistent (fst (step m ev)).
Proof.
  intros Hm. destruct ev as [sourceId data | k outcome].
  - pose proof (busy_consistent_begin m sourceId data Hm) as H.
    unfold step. destruct (processFrame_begin m sourceId data) as [m1 [b |]]; exact H.
  - destruct (nth_error (decoding m) k) as [p |] eqn:Hk.
    2: { unfold step. rewrite Hk. exact Hm. }
    destruct Hm as [I1 I2].
    destruct (I1 p (nth_error_In _ _ Hk)) as (e & He & Hb).
    destruct (step_settle m k outcome p e Hk He) as (Ht & Hd & _).
    assert (Hrest : in_flight (remove_pending m k) (p_sourceId p) = 0%nat).
    { pose proof (in_flight_remove m k p (p_sourceId p) Hk) as Hc.
      rewrite String.eqb_refl in Hc. specialize (I2 (p_sourceId p)). lia. }
    split.
    + intros q Hq. rewrite Hd in Hq. rewrite Ht.
      assert (Hne : p_sourceId q <> p_sourceId p).
      { apply (proj1 (in_flight_zero _ _) Hrest). exact Hq. }
      rewrite lookup_insert_ne by congruence.
      apply I1. apply (in_remove_pending m k). exact Hq.
    + intros s. unfold in_flight. rewrite Hd.
      pose proof (in_flight_remove m k p s Hk) as Hc. specialize (I2 s).
      unfold in_flight in Hc, I2 |- *. lia.
Qed.

Lemma run_cons (m : Manager) (ev : Event) (evs : list Event) :
  run m (ev :: evs) =
  (fst (run (fst (step m ev)) evs), snd (step m ev) ++ snd (run (fst (step m ev)) evs)).
Proof.
  simpl. destruct (step m ev) as [m1 o1]. cbn [fst snd].
  destruct (run m1 evs) as [m2 o2]. reflexivity.
Qed.

Lemma busy_consistent_run (evs : list Event) :
  forall m, busy_consistent m -> busy_consistent (fst (run m evs)).
Proof.
  induction evs as [| ev evs IH]; intros m Hm.
  - exact Hm.
  - rewrite run_cons. cbn [fst]. apply IH. apply busy_consistent_step. exact Hm.
Qed.

(** *** Properties of [processFrame] *)

(** C3, at its failing input.  The stale check is [timestamp <=
    lastTimestamp], which is false whenever either side is NaN.  A source
    sends frames stamped 5.0, NaN and 3.0, each decoded before the next
    arrives: all three calls resolve to true and all three images are
    applied, in that order.  The NaN frame is applied although NaN > 5.0 is
    false, and the frame stamped 3.0 is applied after the one stamped 5.0;
    the applied timestamps are not strictly increasing. *)
Theorem nan_timestamp_defeats_ordering :
  let ts5 := getFloat64 (frame_at bytes_5) 1 in
  let tsNaN := getFloat64 (frame_at bytes_nan) 1 in
  let ts3 := getFloat64 (frame_at bytes_3) 1 in
  let obs := snd (run new backwards_through_nan) in
  obs = [Applied "cam" ts5; Returned "cam" true;
         Applied "cam" tsNaN; Returned "cam" true;
         Applied "cam" ts3; Returned "cam" true] /\
  applied_to "cam" obs = [ts5; tsNaN; ts3] /\
  tsNaN = S754_nan /\
  SFltb ts5 tsNaN = false /\
  SFltb ts5 ts3 = false /\
  SFleb ts3 ts5 = true /\
  strictly_increasing (applied_to "cam" obs) = false.
Proof. vm_compute. repeat split; reflexivity. Qed.





(** *** Ordering when the timestamps are numbers *)

Lemma applied_to_app (sourceId : string) (o1 o2 : list Observation) :
  applied_to sourceId (o1 ++ o2) = applied_to sourceId o1 ++ applied_to sourceId o2.
Proof.
  induction o1 as [| [s b | s ts] o1 IH]; simpl; [reflexivity | exact IH |].
  destruct (String.eqb s sourceId); simpl; congruence.
Qed.

Lemma strictly_increasing_snoc (l : list spec_float) (a : spec_float) :
  strictly_increasing l = true ->
  (l = [] \/ SFltb (List.last l (S754_zero false)) a = true) ->
  strictly_increasing (l ++ [a]) = true.
Proof.
  induction l as [| b l IH]; intros Hl Ha; [reflexivity |].
  destruct l as [| c l].
  - simpl in *. destruct Ha as [Ha | Ha]; [discriminate |]. rewrite Ha. reflexivity.
  - change (strictly_increasing ((b :: c :: l) ++ [a]))
      with (SFltb b c && strictly_increasing ((c :: l) ++ [a])).
    change (strictly_increasing (b :: c :: l))
      with (SFltb b c && strictly_increasing (c :: l)) in Hl.
    apply andb_prop in Hl. destruct Hl as [Hbc Hl]. rewrite Hbc. simpl andb.
    apply IH; [exact Hl |]. right.
    destruct Ha as [Ha | Ha]; [discriminate | exact Ha].
Qed.

Lemma SFltb_not_nan (a b : spec_float) : SFltb a b = true -> is_nan b = false.
Proof. unfold SFltb. destruct a, b; simpl; congruence. Qed.

Lemma last_snoc (l : list spec_float) (a d : spec_float) : List.last (l ++ [a]) d = a.
Proof. apply last_last. Qed.

Lemma ordered_for_new (sourceId : string) : ordered_for sourceId new [].
Proof.
  split; [apply busy_consistent_new |]. split; [reflexivity |].
  split; [reflexivity |]. intros p [].
Qed.

Lemma ordered_for_call (sourceId s : string) (data : list byte) (m : Manager)
  (hist : list spec_float) :
  is_nan (getFloat64 data 1) = false ->
  ordered_for sourceId m hist ->
  ordered_for sourceId (fst (processFrame_begin m s data)) hist.
Proof.
  intros Hnum (Hb & He & Hinc & Hpend).
  split; [apply busy_consistent_begin; exact Hb |].
  assert (Hget : ordered_for sourceId (fst (getTexture m s)) hist).
  { destruct (getTexture_decoding m s) as [Hd _].
    split; [apply busy_consistent_getTexture; exact Hb |].
    split; [| split; [exact Hinc |]].
    - destruct (String.eqb_spec s sourceId) as [-> | Hne].
      + rewrite getTexture_lookup.
        destruct (textures m !! sourceId) as [e |]; [exact He |].
        subst hist. split; reflexivity.
      + rewrite getTexture_other by congruence. exact He.
    - intros p Hp Hs. rewrite Hd in Hp. destruct (Hpend p Hp Hs) as (e & He1 & Hlt).
      exists e. split; [| exact Hlt].
      destruct (String.eqb_spec s sourceId) as [-> | Hne].
      + rewrite getTexture_lookup, He1. reflexivity.
      + rewrite getTexture_other by congruence. exact He1. }
  destruct (processFrame_begin_cases m s data)
    as [[_ H] | [(_ & e & _ & _ & H) | (_ & e & Hes & Hstale & Hp & H)]];
    rewrite H; simpl fst.
  - destruct Hb; tauto.
  - destruct Hget as (_ & G); exact G.
  - destruct Hget as (_ & Ge & _ & Gp). simpl textures. simpl decoding.
    destruct (getTexture_decoding m s) as [Hd _].
    split; [| split; [exact Hinc |]].
    + destruct (String.eqb_spec s sourceId) as [-> | Hne].
      * rewrite lookup_insert_eq. rewrite Hes in Ge. exact Ge.
      * rewrite lookup_insert_ne by congruence. exact Ge.
    + intros p Hin Hs. apply in_app_or in Hin. destruct Hin as [Hin | [<- | []]].
      * rewrite <- Hd in Hin. destruct (Gp p Hin Hs) as (e1 & He1 & Hlt).
        destruct (String.eqb_spec s sourceId) as [-> | Hne].
        -- rewrite lookup_insert_eq. exists (set_processing e true).
           split; [reflexivity |]. simpl. rewrite Hes in He1. congruence.
        -- rewrite lookup_insert_ne by congruence. exists e1. auto.
      * simpl in Hs. subst s. rewrite lookup_insert_eq.
        exists (set_processing e true). split; [reflexivity |]. simpl.
        rewrite Hes in Ge. destruct Ge as [Gn _].
        apply SFleb_false_SFltb; assumption.
Qed.

Lemma ordered_for_settle (sourceId : string) (k : nat) (outcome : option ImageBitmap)
  (m : Manager) (hist : list spec_float) :
  ordered_for sourceId m hist ->
  ordered_for sourceId (fst (step m (Settle k outcome)))
    (hist ++ applied_to sourceId (snd (step m (Settle k outcome)))).
Proof.
  intros (Hb & He & Hinc & Hpend).
  destruct (nth_error (decoding m) k) as [p |] eqn:Hk.
  2: { unfold step. rewrite Hk. simpl. rewrite app_nil_r.
       split; [exact Hb |]. split; [exact He |]. split; assumption. }
  pose proof (busy_consistent_step m (Settle k outcome) Hb) as Hb'.
  destruct Hb as [I1 I2].
  destruct (I1 p (nth_error_In _ _ Hk)) as (e & Hep & Hbusy).
  destruct (step_settle m k outcome p e Hk Hep) as (Ht & Hd & Ho).
  unfold ordered_for. rewrite Ho, Ht.
  split; [exact Hb' |].
  destruct (String.eqb_spec (p_sourceId p) sourceId) as [Hs | Hne].
  - (* the decode of this source settles *)
    assert (Hrest : forall q, In q (decoding (fst (step m (Settle k outcome)))) ->
                              p_sourceId q <> sourceId).
    { rewrite Hd. apply in_flight_zero.
      pose proof (in_flight_remove m k p sourceId Hk) as Hc.
      apply String.eqb_eq in Hs. rewrite Hs in Hc. specialize (I2 sourceId). lia. }
    destruct (Hpend p (nth_error_In _ _ Hk) Hs) as (e1 & He1 & Hlt).
    rewrite Hs in Hep. rewrite Hep in He1. injection He1 as <-.
    rewrite Hep in He. destruct He as [Hn Hlast].
    rewrite Hs. rewrite lookup_insert_eq.
    destruct outcome as [bitmap |]; simpl isSome; cbv iota.
    + simpl app at 2. simpl applied_to. rewrite String.eqb_refl.
      split; [| split].
      * simpl. split; [eapply SFltb_not_nan; exact Hlt | apply last_snoc].
      * apply strictly_increasing_snoc; [exact Hinc |]. right. rewrite Hlast. exact Hlt.
      * intros q Hq Hqs. exfalso. apply (Hrest q Hq Hqs).
    + simpl. rewrite app_nil_r.
      split; [split; assumption |]. split; [exact Hinc |].
      intros q Hq Hqs. exfalso. apply (Hrest q Hq Hqs).
  - (* another source *)
    assert (Hnone : applied_to sourceId
                      ((if isSome outcome
                        then [Applied (p_sourceId p) (p_timestamp p)] else [])
                       ++ [Returned (p_sourceId p) (isSome outcome)]) = []).
    { destruct outcome; simpl; [| reflexivity].
      destruct (String.eqb_spec (p_sourceId p) sourceId); [contradiction | reflexivity]. }
    rewrite Hnone, app_nil_r.
    rewrite lookup_insert_ne by exact Hne.
    split; [exact He |]. split; [exact Hinc |].
    intros q Hq Hqs. rewrite Hd in Hq. apply in_remove_pending in Hq.
    exact (Hpend q Hq Hqs).
Qed.

Lemma ordered_for_step (sourceId : string) (ev : Event) (m : Manager)
  (hist : list spec_float) :
  timestamps_are_numbers [ev] ->
  ordered_for sourceId m hist ->
  ordered_for sourceId (fst (step m ev)) (hist ++ applied_to sourceId (snd (step m ev))).
Proof.
  intros Hnum Hm. destruct ev as [s data | k outcome].
  - pose proof (ordered_for_call sourceId s data m hist
                  (Hnum s data (or_introl eq_refl)) Hm) as H.
    unfold step. destruct (processFrame_begin m s data) as [m1 [b |]];
      simpl; rewrite app_nil_r; exact H.
  - apply ordered_for_settle. exact Hm.
Qed.

(** With timestamps that are numbers, what is applied to one source is
    strictly increasing, along every trace from the empty manager. *)
Lemma ordered_for_run (sourceId : string) (evs : list Event) :
  timestamps_are_numbers evs ->
  forall (m : Manager) (hist : list spec_float),
    ordered_for sourceId m hist ->
    ordered_for sourceId (fst (run m evs)) (hist ++ applied_to sourceId (snd (run m evs))).
Proof.
  induction evs as [| ev evs IH]; intros Hnum m hist Hm.
  - simpl. rewrite app_nil_r. exact Hm.
  - rewrite run_cons. cbn [fst snd]. rewrite applied_to_app, app_assoc.
    apply IH.
    + intros s data Hin. apply (Hnum s data). right. exact Hin.
    + apply ordered_for_step; [| exact Hm].
      intros s data [Hin | []]. apply (Hnum s data). left. exact Hin.
Qed.

Lemma applied_increasing_for_numbers (sourceId : string) (evs : list Event) :
  timestamps_are_numbers evs ->
  strictly_increasing (applied_to sourceId (snd (run new evs))) = true.
Proof.
  intros Hnum.
  destruct (ordered_for_run sourceId evs Hnum new [] (ordered_for_new sourceId))
    as (_ & _ & H & _).
  exact H.
Qed.

(** A frame that is not newer than the entry is dropped, whatever the
    timestamps are. *)
Lemma stale_frame_dropped (m : Manager) (sourceId : string) (data : list byte)
  (e : Entry) :
  textures m !! sourceId = Some e ->
  SFleb (getFloat64 data 1) (lastTimestamp e) = true ->
  processFrame_begin m sourceId data = (m, Resolved false).
Proof.
  intros He Hstale.
  pose proof (getTexture_present m sourceId e He) as Hm.
  destruct (processFrame_begin_cases m sourceId data)
    as [[_ H] | [(_ & e' & He' & _ & H) | (_ & e' & He' & Hs & _)]].
  - exact H.
  - rewrite Hm in H. exact H.
  - rewrite Hm, He in He'. injection He' as <-. congruence.
Qed.

End VideoTextureManagerFacts.

(** ** Clamping in binary64 *)

Module Binary64Facts.
Import Binary64.
Open Scope Z_scope.

Lemma SFcompare_refl (a : spec_float) : isNaN a = false -> SFcompare a a = Some Eq.
Proof.
  destruct a as [s | s | | s m e]; simpl; intros H; try discriminate H; try reflexivity.
  - destruct s; reflexivity.
  - destruct s; rewrite Z.compare_refl, Pos.compare_cont_refl; reflexivity.
Qed.

Lemma SFleb_refl (a : spec_float) : isNaN a = false -> SFleb a a = true.
Proof. intros H. unfold SFleb. rewrite (SFcompare_refl a H). reflexivity. Qed.

(** Two numbers, neither NaN, compare one way or the other or are equal. *)
Lemma compare_cases (a b : spec_float) :
  isNaN a = false -> isNaN b = false ->
  (SFltb a b = true /\ SFleb a b = true) \/
  (SFltb a b = false /\ SFltb b a = true /\ SFleb b a = true) \/
  (SFltb a b = false /\ SFltb b a = false /\ SFleb a b = true /\ SFleb b a = true).
Proof.
  intros Ha Hb. unfold SFltb, SFleb.
  rewrite (VideoTextureManagerFacts.SFcompare_antisym a b).
  destruct (SFcompare a b) as [[| |] |] eqn:E; simpl; auto 10.
  exfalso. destruct a as [sa | sa | | sa ma ea], b as [sb | sb | | sb mb eb];
    simpl in *; try discriminate; try (destruct sa; discriminate);
    try (destruct sb; discriminate).
Qed.

Lemma Math_min_spec (a b : spec_float) :
  isNaN a = false -> isNaN b = false ->
  isNaN (Math_min a b) = false /\
  (Math_min a b = a \/ Math_min a b = b) /\
  SFleb (Math_min a b) a = true /\ SFleb (Math_min a b) b = true.
Proof.
  intros Ha Hb. unfold Math_min. rewrite Ha, Hb. cbn [orb].
  pose proof (SFleb_refl a Ha) as Ra. pose proof (SFleb_refl b Hb) as Rb.
  destruct (compare_cases a b Ha Hb)
    as [[L1 L2] | [(L1 & L2 & L3) | (L1 & L2 & L3 & L4)]].
  - rewrite L1. auto.
  - rewrite L1, L2. auto.
  - rewrite L1, L2. destruct (negative_zero a); auto.
Qed.

Lemma Math_max_spec (a b : spec_float) :
  isNaN a = false -> isNaN b = false ->
  isNaN (Math_max a b) = false /\
  (Math_max a b = a \/ Math_max a b = b) /\
  SFleb a (Math_max a b) = true /\ SFleb b (Math_max a b) = true.
Proof.
  intros Ha Hb. unfold Math_max. rewrite Ha, Hb. cbn [orb].
  pose proof (SFleb_refl a Ha) as Ra. pose proof (SFleb_refl b Hb) as Rb.
  destruct (compare_cases a b Ha Hb)
    as [[L1 L2] | [(L1 & L2 & L3) | (L1 & L2 & L3 & L4)]].
  - rewrite L1. auto.
  - rewrite L1, L2. auto.
  - rewrite L1, L2. destruct (negative_zero a); auto.
Qed.

(** [clamp] between bounds [lo <= hi], neither NaN: a value that is not
    NaN comes back as itself or as one of the bounds, inside the range;
    NaN comes back as NaN. *)
Lemma clamp_exact (val lo hi : spec_float) :
  isNaN lo = false -> isNaN hi = false -> SFleb lo hi = true ->
  (isNaN val = true -> clamp val lo hi = S754_nan) /\
  (isNaN val = false ->
   isNaN (clamp val lo hi) = false /\
   SFleb lo (clamp val lo hi) = true /\
   SFleb (clamp val lo hi) hi = true /\
   (clamp val lo hi = val \/ clamp val lo hi = lo \/ clamp val lo hi = hi)).
Proof.
  intros Hlo Hhi Hle. split.
  - intros Hv. unfold clamp, Math_min. rewrite Hv, orb_true_r.
    unfold Math_max. rewrite orb_true_r. reflexivity.
  - intros Hv. unfold clamp.
    destruct (Math_min_spec hi val Hhi Hv) as (N1 & K1 & B1 & _).
    destruct (Math_max_spec lo (Math_min hi val) Hlo N1) as (N2 & K2 & B2 & _).
    split; [exact N2 |]. split; [exact B2 |].
    destruct K2 as [K2 | K2]; rewrite K2.
    + split; [exact Hle |]. auto.
    + split; [exact B1 |]. destruct K1 as [K1 | K1]; rewrite K1; auto.
Qed.

(** X7.  [setSmoothingFactor] stores [clamp(factor, 0.01, 1)].  For every
    factor that is not NaN, the infinities included, the stored factor is
    the factor itself, 0.01 or 1, and lies in [0.01, 1]; given NaN it
    stores NaN.  The same holds of [clamp] with any bounds [lo <= hi] that
    are not NaN, as [update] uses it on the sample: the result is the
    value or one of the bounds and lies in [lo, hi], and only NaN comes
    back as NaN.  No rounding is involved. *)
Theorem setSmoothingFactor_clamps (factor : spec_float) :
  (isNaN factor = true -> setSmoothingFactor factor = S754_nan) /\
  (isNaN factor = false ->
   SFleb (decimal 1 100) (setSmoothingFactor factor) = true /\
   SFleb (setSmoothingFactor factor) (of_Z 1) = true /\
   (setSmoothingFactor factor = factor \/
    setSmoothingFactor factor = decimal 1 100 \/
    setSmoothingFactor factor = of_Z 1)) /\
  setSmoothingFactor (S754_infinity false) = of_Z 1 /\
  setSmoothingFactor (S754_infinity true) = decimal 1 100 /\
  setSmoothingFactor (S754_zero false) = decimal 1 100 /\
  (forall val lo hi : spec_float,
      isNaN lo = false -> isNaN hi = false -> SFleb lo hi = true ->
      (isNaN val = true -> clamp val lo hi = S754_nan) /\
      (isNaN val = false ->
       isNaN (clamp val lo hi) = false /\
       SFleb lo (clamp val lo hi) = true /\
       SFleb (clamp val lo hi) hi = true /\
       (clamp val lo hi = val \/ clamp val lo hi = lo \/ clamp val lo hi = hi))).
Proof.
  assert (H1 : isNaN (decimal 1 100) = false) by (vm_compute; reflexivity).
  assert (H2 : isNaN (of_Z 1) = false) by (vm_compute; reflexivity).
  assert (H3 : SFleb (decimal 1 100) (of_Z 1) = true) by (vm_compute; reflexivity).
  destruct (clamp_exact factor (decimal 1 100) (of_Z 1) H1 H2 H3) as [Hn Hv].
  split; [exact Hn |].
  split.
  { intros Hf. destruct (Hv Hf) as (_ & B1 & B2 & C). auto. }
  split; [vm_compute; reflexivity |].
  split; [vm_compute; reflexivity |].
  split; [vm_compute; reflexivity |].
  intros val lo hi. apply clamp_exact.
Qed.

End Binary64Facts.

(** ** Reconnecting socket *)

Module UseWebSocketFacts.
Import UseWebSocket.
Open Scope Z_scope.

Lemma clearTimeout_single (id : nat) (delay : Z) : clearTimeout id [(id, delay)] = [].
Proof. unfold clearTimeout. simpl. rewrite Nat.eqb_refl. reflexivity. Qed.

Lemma timer_tracked_step (o : UseWebSocketOptions) (h : Hook) (ev : Event) :
  timer_tracked h -> timer_tracked (step o h ev).
Proof.
  intros Hh. unfold step. destruct (enabled h ev) eqn:En; [| exact Hh].
  destruct ev as [| | id |]; simpl in En.
  - (* open *)
    destruct Hh as [Hh | (id & d & _ & _ & Hws)].
    + left. exact Hh.
    + rewrite Hws in En. discriminate.
  - (* close event *)
    assert (Ht : timers h = []).
    { destruct Hh as [Hh | (id & d & _ & _ & Hws)]; [exact Hh |].
      rewrite Hws in En. discriminate. }
    unfold onclose. destruct (autoReconnect o && negb (intentionalCloseRef h)).
    + right. exists (nextTimerId h), (backoff o (reconnectAttemptRef h)).
      simpl. rewrite Ht. auto.
    + left. exact Ht.
  - (* timer *)
    left. unfold fire, connect. simpl.
    assert (Hc : clearTimeout id (timers h) = []).
    { destruct Hh as [Hh | (id' & d & Ht & _ & _)].
      - rewrite Hh. reflexivity.
      - rewrite Ht in En |- *. simpl in En. rewrite orb_false_r in En.
        apply Nat.eqb_eq in En. subst id'. apply clearTimeout_single. }
    destruct (wsRef h) as [[| | |] |]; simpl; exact Hc.
  - (* close() *)
    left. unfold close. simpl.
    destruct Hh as [Hh | (id & d & Ht & Hr & _)].
    + rewrite Hh. destruct (reconnectTimerRef h); reflexivity.
    + rewrite Hr, Ht. apply clearTimeout_single.
Qed.

Lemma timer_tracked_run (o : UseWebSocketOptions) (evs : list Event) :
  forall h, timer_tracked h -> timer_tracked (run o h evs).
Proof.
  unfold run. induction evs as [| ev evs IH]; intros h Hh; simpl.
  - exact Hh.
  - apply IH. apply timer_tracked_step. exact Hh.
Qed.

Lemma shut_close (h : Hook) : timer_tracked h -> shut (close h).
Proof.
  intros Hh. unfold shut, close. simpl. split; [reflexivity |]. split.
  - destruct Hh as [Hh | (id & d & Ht & Hr & _)].
    + rewrite Hh. destruct (reconnectTimerRef h); reflexivity.
    + rewrite Hr, Ht. apply clearTimeout_single.
  - destruct (wsRef h) as [[| | |] |]; simpl; congruence.
Qed.

Lemma shut_step (o : UseWebSocketOptions) (h : Hook) (ev : Event) :
  shut h -> shut (step o h ev) /\ scheduled h (step o h ev) = None.
Proof.
  intros (Hi & Ht & Hws). unfold step.
  assert (Hsame : forall h', nextTimerId h' = nextTimerId h -> scheduled h h' = None).
  { intros h' E. unfold scheduled. rewrite E, Nat.ltb_irrefl. reflexivity. }
  destruct (enabled h ev) eqn:En.
  2: { split; [split; auto | apply Hsame; reflexivity]. }
  destruct ev as [| | id |]; simpl in En.
  - destruct (wsRef h) as [[| | |] |]; try discriminate. congruence.
  - unfold onclose. rewrite Hi, andb_false_r.
    split; [| apply Hsame; reflexivity].
    unfold shut. simpl. split; [reflexivity |]. split; [exact Ht | discriminate].
  - rewrite Ht in En. discriminate.
  - split; [| apply Hsame; reflexivity].
    unfold shut, close. simpl. split; [reflexivity |]. split.
    + rewrite Ht. destruct (reconnectTimerRef h); reflexivity.
    + destruct (wsRef h) as [[| | |] |]; simpl; congruence.
Qed.

Lemma shut_run (o : UseWebSocketOptions) (evs : list Event) :
  forall h, shut h -> shut (run o h evs) /\ delays o h evs = [].
Proof.
  unfold run. induction evs as [| ev evs IH]; intros h Hh; simpl.
  - auto.
  - destruct (shut_step o h ev Hh) as [Hs Hn]. rewrite Hn.
    apply IH. exact Hs.
Qed.

Lemma backoff_capped (o : UseWebSocketOptions) (attempt : Z) :
  reconnectDelay o = 1000 -> maxReconnectDelay o = 30000 ->
  backoff o attempt <= 30000 /\ (5 <= attempt -> backoff o attempt = 30000).
Proof.
  intros Hb Hm. unfold backoff. rewrite Hb, Hm. split; [apply Z.le_min_r |].
  intros H5. apply Z.min_r.
  assert (2 ^ 5 <= 2 ^ attempt) by (apply Z.pow_le_mono_r; lia).
  change (2 ^ 5) with 32 in H. lia.
Qed.

(** Reconnection is an option of the hook.  With [autoReconnect: false]
    an open socket that closes without [close()] having been called
    schedules nothing and the attempt counter stays. *)
Lemma unexpected_close_without_autoReconnect :
  let o := mkOptions false 1000 30000 in
  let h := onopen mounted in
  intentionalCloseRef h = false /\
  enabled h SocketClosed = true /\
  timers (step o h SocketClosed) = [] /\
  reconnectTimerRef (step o h SocketClosed) = None /\
  reconnectAttemptRef (step o h SocketClosed) = 0 /\
  delays o mounted [SocketOpened; SocketClosed] = [].
Proof. vm_compute. repeat split; reflexivity. Qed.

(** The backoff of [onclose].  When [autoReconnect] is on (the default),
    a close event that finds the intentional-close flag unset schedules
    [connect] after min(baseDelay * 2^attempt, maxDelay) and then
    increments attempt; an open event resets attempt to 0.  With baseDelay
    1000 and maxDelay 30000, four closes in a row from attempt 0 schedule
    1000, 2000, 4000 and 8000, no delay exceeds 30000 and from attempt 5 on
    it is 30000.  As long as the manual [reconnect()] is not used,
    [close()] clears the pending timeout and sets the flag, and from then
    on no socket or timer event schedules a reconnect. *)
Theorem reconnect_backoff (o : UseWebSocketOptions) :
  autoReconnect o = true ->
  (forall h : Hook,
      intentionalCloseRef h = false ->
      let delay := Z.min (reconnectDelay o * 2 ^ reconnectAttemptRef h)
                         (maxReconnectDelay o) in
      timers (onclose o h) = timers h ++ [(nextTimerId h, delay)] /\
      reconnectTimerRef (onclose o h) = Some (nextTimerId h) /\
      reconnectAttemptRef (onclose o h) = reconnectAttemptRef h + 1) /\
  (forall h : Hook, reconnectAttemptRef (onopen h) = 0) /\
  (reconnectDelay o = 1000 -> maxReconnectDelay o = 30000 ->
   delays o mounted four_closes = [1000; 2000; 4000; 8000] /\
   (forall attempt : Z, backoff o attempt <= 30000) /\
   (forall attempt : Z, 5 <= attempt -> backoff o attempt = 30000)) /\
  (forall evs : list Event,
      let h := run o mounted evs in
      timers (close h) = [] /\
      reconnectTimerRef (close h) = None /\
      intentionalCloseRef (close h) = true /\
      timers (onclose o (close h)) = [] /\
      forall later : list Event,
        timers (run o (close h) later) = [] /\ delays o (close h) later = []).
Proof.
  intros Hauto. split; [| split; [| split]].
  - intros h Hi delay. unfold onclose. rewrite Hauto, Hi. simpl. auto.
  - intros h. reflexivity.
  - intros Hb Hm. split; [| split].
    + destruct o as [a b mx]. simpl in Hauto, Hb, Hm. subst a b mx.
      vm_compute. reflexivity.
    + intros attempt. apply (backoff_capped o attempt Hb Hm).
    + intros attempt. apply (backoff_capped o attempt Hb Hm).
  - intros evs h.
    assert (Ht : timer_tracked h).
    { apply timer_tracked_run. left. reflexivity. }
    pose proof (shut_close h Ht) as Hs.
    destruct Hs as (Hi & Htm & Hws).
    split; [exact Htm |]. split; [reflexivity |]. split; [reflexivity |].
    split.
    + unfold onclose. rewrite Hi, andb_false_r. simpl. exact Htm.
    + intros later.
      destruct (shut_run o later (close h) (conj Hi (conj Htm Hws))) as [(_ & Ht' & _) Hd].
      split; assumption.
Qed.

Lemma reconnect_backoff_witness :
  delays default_options mounted four_closes = [1000; 2000; 4000; 8000] /\
  timers (close (run default_options mounted [SocketClosed])) = [].
Proof.
  destruct (reconnect_backoff default_options eq_refl) as (_ & _ & H & Hc).
  destruct (H eq_refl eq_refl) as [Hd _].
  destruct (Hc [SocketClosed]) as [Ht _].
  split; [exact Hd | exact Ht].
Defined.

(** C6, at its failing input.  The hook with its default options is
    mounted and connected; the caller invokes [reconnect()] and, before
    its 100 ms have passed, [close()].  [reconnect()] has registered
    [setTimeout(connect, 100)] without keeping the id, so [close()], which
    clears only the timeout held in [reconnectTimerRef], cancels nothing:
    the timeout is still pending after [close()] and after the close event
    of the old socket.  When it fires, [connect] opens a new socket and
    sets the intentional-close flag back to false; when that socket closes,
    a reconnect is scheduled after 1000 ms.  So after an explicit
    [close()] a pending reconnect has survived and a new one is
    scheduled. *)
Theorem close_leaves_manual_reconnect :
  let o := default_options in
  let h0 := onopen mounted in
  let h1 := reconnect h0 in
  let h2 := close h1 in
  let h3 := step o h2 SocketClosed in
  let h4 := step o h3 (TimerFired 1) in
  let h5 := step o h4 SocketClosed in
  connected h0 = true /\
  timers h1 = [(1%nat, 100)] /\
  reconnectTimerRef h1 = None /\
  intentionalCloseRef h2 = true /\
  timers h2 = [(1%nat, 100)] /\
  timers h3 = [(1%nat, 100)] /\
  enabled h3 (TimerFired 1) = true /\
  wsRef h4 = Some CONNECTING /\
  intentionalCloseRef h4 = false /\
  enabled h4 SocketClosed = true /\
  timers h5 = [(2%nat, 1000)] /\
  reconnectTimerRef h5 = Some 2%nat /\
  acts o mounted
    [Happens SocketOpened; ReconnectCalled; Happens CloseCalled;
     Happens SocketClosed; Happens (TimerFired 1); Happens SocketClosed] = h5.
Proof. vm_compute. repeat split; reflexivity. Qed.

End UseWebSocketFacts.

(** ** Off-axis camera: the other methods *)

Module OffAxisCameraMore.
Import Types Calibration OffAxisCamera.
Open Scope R_scope.

Lemma calls_snoc (c : OffAxisCamera) (ops : list Call) (op : Call) :
  calls c (ops ++ [op]) = call (calls c ops) op.
Proof. unfold calls. rewrite fold_left_app. reflexivity. Qed.

(** A recomputing call is [updateProjectionMatrix] on a camera with the
    same screen and settings whose distance is at least that of the
    floor, if the distance before was. *)
Lemma recompute_shape (c : OffAxisCamera) (op : Call) :
  recomputes op = true ->
  exists c1,
    call c op = updateProjectionMatrix c1 /\
    settings c1 = settings c /\
    screenWidth c1 = screenWidth c /\
    screenHeight c1 = screenHeight c /\
    (1 / 10 <= headZ c -> 1 / 10 <= headZ c1).
Proof.
  destruct op as [w h | p | p | hx hy hz | w h]; simpl; intros H; try discriminate.
  - eexists. split; [reflexivity |]. simpl.
    repeat split; try reflexivity. intros _. apply Rmax_l.
  - eexists. split; [reflexivity |]. simpl.
    repeat split; try reflexivity. intros _. apply Rmax_l.
  - eexists. split; [reflexivity |]. simpl. repeat split; auto.
Qed.

Lemma updateProjectionMatrix_head_fields (c : OffAxisCamera) :
  screenWidth (updateProjectionMatrix c) = screenWidth c /\
  screenHeight (updateProjectionMatrix c) = screenHeight c /\
  settings (updateProjectionMatrix c) = settings c /\
  headZ (updateProjectionMatrix c) = headZ c.
Proof. simpl. auto. Qed.

Lemma call_keeps_floor (c : OffAxisCamera) (op : Call) :
  1 / 10 <= headZ c /\
  cam_near (camera c) = nearPlane (settings c) /\
  cam_far (camera c) = farPlane (settings c) ->
  1 / 10 <= headZ (call c op) /\
  cam_near (camera (call c op)) = nearPlane (settings (call c op)) /\
  cam_far (camera (call c op)) = farPlane (settings (call c op)).
Proof.
  intros (Hz & Hn & Hf).
  destruct op as [w h | p | p | hx hy hz | w h]; simpl; repeat split;
    try assumption; try reflexivity; apply Rmax_l.
Qed.

Lemma calls_keep_floor (ops : list Call) :
  forall c : OffAxisCamera,
    1 / 10 <= headZ c /\
    cam_near (camera c) = nearPlane (settings c) /\
    cam_far (camera c) = farPlane (settings c) ->
    1 / 10 <= headZ (calls c ops) /\
    cam_near (camera (calls c ops)) = nearPlane (settings (calls c ops)) /\
    cam_far (camera (calls c ops)) = farPlane (settings (calls c ops)).
Proof.
  unfold calls. induction ops as [| op ops IH]; intros c H; simpl.
  - exact H.
  - apply IH. apply call_keeps_floor. exact H.
Qed.

Lemma new_partial_floor (asp : R) (p0 : PartialSettings) (cal : CalibrationData) :
  1 / 10 <= headZ (new_partial asp p0 cal) /\
  cam_near (camera (new_partial asp p0 cal)) = nearPlane (settings (new_partial asp p0 cal)) /\
  cam_far (camera (new_partial asp p0 cal)) = farPlane (settings (new_partial asp p0 cal)).
Proof. simpl. repeat split; try reflexivity. lra. Qed.

(** X1. Whatever sequence of public calls follows the constructor, the
    stored viewing distance is at least 0.1 (so the division near / dist
    of the frustum is never by zero) and the THREE camera's near and far
    equal the settings' planes. *)
Theorem camera_distance_floor (asp : R) (p0 : PartialSettings) (cal : CalibrationData)
  (ops : list Call) :
  let c := calls (new_partial asp p0 cal) ops in
  1 / 10 <= headZ c /\
  headZ c <> 0 /\
  cam_near (camera c) = nearPlane (settings c) /\
  cam_far (camera c) = farPlane (settings c).
Proof.
  intros c.
  destruct (calls_keep_floor ops _ (new_partial_floor asp p0 cal)) as (Hz & Hn & Hf).
  fold c in Hz, Hn, Hf. repeat split; try assumption. lra.
Qed.

(** X2. After any call that recomputes the projection (a head update or a
    resize), on a screen of positive size with a positive near plane, the
    frustum is neither empty nor inverted: left < right and bottom < top;
    its width and height at the near plane are the screen's scaled by
    near / dist, whatever the head offset. *)
Theorem frustum_not_degenerate (asp : R) (p0 : PartialSettings) (cal : CalibrationData)
  (ops : list Call) (op : Call) :
  let c := calls (new_partial asp p0 cal) (ops ++ [op]) in
  recomputes op = true ->
  0 < screenWidth c -> 0 < screenHeight c -> 0 < nearPlane (settings c) ->
  exists f,
    projectionMatrix (camera c) = Some f /\
    left f < right f /\
    bottom f < top f /\
    right f - left f = screenWidth c * (nearPlane (settings c) / headZ c) /\
    top f - bottom f = screenHeight c * (nearPlane (settings c) / headZ c).
Proof.
  intros c Hop Hw Hh Hn. subst c. rewrite calls_snoc in *.
  destruct (calls_keep_floor ops _ (new_partial_floor asp p0 cal)) as (Hz & _).
  set (c0 := calls (new_partial asp p0 cal) ops) in *.
  destruct (recompute_shape c0 op Hop) as (c1 & E & Hs & Hsw & Hsh & Hfloor).
  rewrite E in *. specialize (Hfloor Hz).
  destruct (updateProjectionMatrix_head_fields c1) as (E1 & E2 & E3 & E4).
  rewrite E1, E2, E3, E4 in *.
  eexists. split; [reflexivity |]. simpl.
  assert (Hr : 0 < nearPlane (settings c1) / headZ c1).
  { apply Rdiv_lt_0_compat; lra. }
  repeat split; try nra; try ring.
Qed.

Lemma frustum_not_degenerate_witness :
  exists f,
    projectionMatrix
      (camera (calls (new_partial 1 no_settings DEFAULT_CALIBRATION)
                 ([UpdateSettings no_settings] ++ [SetHeadPosition (1 / 10) 0 (6 / 10)])))
    = Some f /\ left f < right f /\ bottom f < top f.
Proof.
  destruct (frustum_not_degenerate 1 no_settings DEFAULT_CALIBRATION
              [UpdateSettings no_settings] (SetHeadPosition (1 / 10) 0 (6 / 10)))
    as (f & Hf & Hlr & Hbt & _).
  - reflexivity.
  - simpl. lra.
  - simpl. lra.
  - simpl. lra.
  - exists f. auto.
Defined.

(** X3. The frustum is the one of a window: after a recomputing call, the
    rays from the eye through the edges of the near-plane rectangle meet
    the screen plane z = 0 at the edges of the physical screen, for every
    head position (near plane not zero). *)
Theorem frustum_edges_are_screen_edges (asp : R) (p0 : PartialSettings)
  (cal : CalibrationData) (ops : list Call) (op : Call) :
  let c := calls (new_partial asp p0 cal) (ops ++ [op]) in
  recomputes op = true ->
  nearPlane (settings c) <> 0 ->
  exists f,
    projectionMatrix (camera c) = Some f /\
    position (camera c) = mkVector3 (headX c) (headY c) (headZ c) /\
    lookAtTarget (camera c) = mkVector3 (headX c) (headY c) 0 /\
    headX c + left f * (headZ c / near f) = - (screenWidth c / 2) /\
    headX c + right f * (headZ c / near f) = screenWidth c / 2 /\
    headY c + bottom f * (headZ c / near f) = - (screenHeight c / 2) /\
    headY c + top f * (headZ c / near f) = screenHeight c / 2.
Proof.
  intros c Hop Hn. subst c. rewrite calls_snoc in *.
  destruct (calls_keep_floor ops _ (new_partial_floor asp p0 cal)) as (Hz & _).
  set (c0 := calls (new_partial asp p0 cal) ops) in *.
  destruct (recompute_shape c0 op Hop) as (c1 & E & Hs & Hsw & Hsh & Hfloor).
  rewrite E in *. specialize (Hfloor Hz).
  destruct (updateProjectionMatrix_head_fields c1) as (E1 & E2 & E3 & E4).
  rewrite E3 in Hn.
  eexists. split; [reflexivity |]. simpl.
  assert (Hd : headZ c1 <> 0) by lra.
  repeat split; field; auto.
Qed.

Lemma frustum_edges_are_screen_edges_witness :
  exists f,
    projectionMatrix
      (camera (calls (new_partial 1 no_settings DEFAULT_CALIBRATION)
                 ([] ++ [SetHeadPosition (1 / 10) 0 (6 / 10)])))
    = Some f /\
    1 / 10 + left f * (Rmax (1 / 10) (6 / 10) / near f) = - (34 / 100 / 2).
Proof.
  destruct (frustum_edges_are_screen_edges 1 no_settings DEFAULT_CALIBRATION
              [] (SetHeadPosition (1 / 10) 0 (6 / 10)))
    as (f & Hf & _ & _ & Hl & _).
  - reflexivity.
  - simpl. lra.
  - exists f. split; [exact Hf | exact Hl].
Defined.

(** X4. A resize does not change what a head update computed: after any
    recomputing call, [handleResize] with any width and height (0
    included) leaves the projection, the camera position and its target as
    they were; only the aspect ratio is replaced. *)
Theorem resize_keeps_projection (c : OffAxisCamera) (op : Call) (width height : R) :
  recomputes op = true ->
  let c1 := call c op in
  let c2 := handleResize c1 width height in
  projectionMatrix (camera c2) = projectionMatrix (camera c1) /\
  position (camera c2) = position (camera c1) /\
  lookAtTarget (camera c2) = lookAtTarget (camera c1) /\
  aspect (camera c2) = width / height /\
  (headX c2, headY c2, headZ c2) = (headX c1, headY c1, headZ c1).
Proof.
  intros Hop c1 c2. subst c1 c2.
  destruct (recompute_shape c op Hop) as (c1 & E & _).
  rewrite E. simpl. repeat split; reflexivity.
Qed.

Lemma resize_keeps_projection_witness :
  projectionMatrix
    (camera (handleResize
               (call (new_partial 1 no_settings DEFAULT_CALIBRATION)
                  (SetHeadPosition (1 / 10) 0 (6 / 10))) 800 0))
  = projectionMatrix
      (camera (call (new_partial 1 no_settings DEFAULT_CALIBRATION)
                 (SetHeadPosition (1 / 10) 0 (6 / 10)))).
Proof.
  apply (resize_keeps_projection (new_partial 1 no_settings DEFAULT_CALIBRATION)
           (SetHeadPosition (1 / 10) 0 (6 / 10)) 800 0).
  reflexivity.
Defined.

(** X5. [updateScreenDimensions] and [updateSettings] store their values
    without recomputing: projection, position, target and head position
    stay as they were.  [updateSettings] merges the partial into the
    settings and sets the THREE camera's near and far to the merged planes
    at once; [updateScreenDimensions] stores the size in metres and leaves
    settings, near and far alone.  The next recomputation uses the new
    screen size and planes with the head position kept. *)
Theorem new_values_wait_for_recompute (c : OffAxisCamera) (op : Call) (width height : R) :
  recomputes op = false ->
  let c1 := call c op in
  projectionMatrix (camera c1) = projectionMatrix (camera c) /\
  position (camera c1) = position (camera c) /\
  lookAtTarget (camera c1) = lookAtTarget (camera c) /\
  (headX c1, headY c1, headZ c1) = (headX c, headY c, headZ c) /\
  match op with
  | UpdateSettings p =>
      settings c1 = assign_settings (settings c) p /\
      cam_near (camera c1) = nearPlane (settings c1) /\
      cam_far (camera c1) = farPlane (settings c1) /\
      (screenWidth c1, screenHeight c1) = (screenWidth c, screenHeight c)
  | UpdateScreenDimensions widthCm heightCm =>
      (screenWidth c1, screenHeight c1) = (widthCm / 100, heightCm / 100) /\
      settings c1 = settings c /\
      cam_near (camera c1) = cam_near (camera c) /\
      cam_far (camera c1) = cam_far (camera c)
  | _ => True
  end /\
  (cam_near (camera c) = nearPlane (settings c) ->
   cam_near (camera c1) = nearPlane (settings c1)) /\
  (cam_far (camera c) = farPlane (settings c) ->
   cam_far (camera c1) = farPlane (settings c1)) /\
  exists f,
    projectionMatrix (camera (handleResize c1 width height)) = Some f /\
    near f = nearPlane (settings c1) /\
    far f = farPlane (settings c1) /\
    right f - left f = screenWidth c1 * (nearPlane (settings c1) / headZ c) /\
    top f - bottom f = screenHeight c1 * (nearPlane (settings c1) / headZ c).
Proof.
  intros Hop c1. subst c1.
  destruct op as [w h | p | p | hx hy hz | w h]; simpl in Hop; try discriminate; simpl.
  - do 4 (split; [reflexivity |]).
    split; [do 3 (split; [reflexivity |]); reflexivity |].
    split; [intros H; exact H |]. split; [intros H; exact H |].
    eexists. split; [reflexivity |]. simpl.
    do 2 (split; [reflexivity |]).
    match goal with |- context [?n / headZ c] => generalize (n / headZ c) end.
    intros r. split; field.
  - do 4 (split; [reflexivity |]).
    split; [do 3 (split; [reflexivity |]); reflexivity |].
    split; [reflexivity |]. split; [reflexivity |].
    eexists. split; [reflexivity |]. simpl.
    do 2 (split; [reflexivity |]).
    match goal with |- context [?n / headZ c] => generalize (n / headZ c) end.
    intros r. split; field.
Qed.

Lemma new_values_wait_for_recompute_witness :
  projectionMatrix
    (camera (call (new_partial 1 no_settings DEFAULT_CALIBRATION)
               (UpdateScreenDimensions 50 30)))
  = projectionMatrix (camera (new_partial 1 no_settings DEFAULT_CALIBRATION)).
Proof.
  destruct (new_values_wait_for_recompute (new_partial 1 no_settings DEFAULT_CALIBRATION)
              (UpdateScreenDimensions 50 30) 800 600) as [H _].
  - reflexivity.
  - exact H.
Defined.

End OffAxisCameraMore.

(** ** Head pose tracker: the other methods *)

Module HeadPoseMore.
Import Types Calibration HeadPose.
Open Scope R_scope.



Lemma update_some (t : HeadPoseTracker) (cal : CalibrationData) (now : R)
  (lms : list Point3) (prev : HeadPose) :
  (468 <= length lms)%nat -> previousPose t = Some prev ->
  let smoothed := smooth (cfg_smoothingFactor (config t)) (rawPose (config t) now lms) prev in
  update t cal now (Some lms) =
  (Some {| pose := smoothed;
           worldX := - (x smoothed - 1 / 2) * screenWidthCm cal;
           worldY := - (y smoothed - 1 / 2) * screenHeightCm cal;
           worldZ := viewingDistanceCm cal / z smoothed |},
   mkTracker (config t) (Some smoothed)).
Proof.
  intros Hlen Hprev. pose proof (HeadPoseFacts.update_enough t cal now lms Hlen) as E.
  cbv zeta in E. rewrite Hprev in E. exact E.
Qed.

(** With factor 0 a run of updates never moves the stored pose. *)
Lemma frozen_updates (frames : list (R * option (list Point3))) (cal : CalibrationData) :
  forall (t : HeadPoseTracker) (prev : HeadPose),
    cfg_smoothingFactor (config t) = 0 ->
    previousPose t = Some prev ->
    forall sp, In (Some sp) (fst (updates t cal frames)) ->
      x (pose sp) = x prev /\ y (pose sp) = y prev /\ z (pose sp) = z prev /\
      interOcularPx (pose sp) = interOcularPx prev.
Proof.
  induction frames as [| [now lms] rest IH]; intros t prev Ha Hprev sp Hin.
  - destruct Hin.
  - rewrite HeadPoseFacts.updates_cons in Hin. cbn [fst] in Hin.
    assert (Hskip : update t cal now lms = (None, t) ->
                    x (pose sp) = x prev /\ y (pose sp) = y prev /\ z (pose sp) = z prev /\
                    interOcularPx (pose sp) = interOcularPx prev).
    { intros E. rewrite E in Hin. cbn [fst snd] in Hin.
      destruct Hin as [Hin | Hin]; [discriminate |]. apply (IH t prev Ha Hprev sp Hin). }
    destruct lms as [l |]; [| apply Hskip; reflexivity].
    destruct (Nat.ltb_spec (length l) 468) as [Hshort | Hlong].
    { apply Hskip. unfold update. apply Nat.ltb_lt in Hshort. rewrite Hshort. reflexivity. }
    pose proof (update_some t cal now l prev Hlong Hprev) as E. cbv zeta in E.
    rewrite E in Hin. cbn [fst snd] in Hin.
    set (q := smooth (cfg_smoothingFactor (config t)) (rawPose (config t) now l) prev) in *.
    assert (Hq : x q = x prev /\ y q = y prev /\ z q = z prev /\
                 interOcularPx q = interOcularPx prev).
    { unfold q, smooth, ema. rewrite Ha. cbn [x y z interOcularPx].
      repeat split; ring. }
    destruct Hin as [Hin | Hin].
    + injection Hin as Hin. subst sp. cbn [pose]. exact Hq.
    + destruct Hq as (Qx & Qy & Qz & Qi).
      rewrite <- Qx, <- Qy, <- Qz, <- Qi.
      apply (IH (mkTracker (config t) (Some q)) q Ha eq_refl sp Hin).
Qed.

(** X8. The two ends of the smoothing range.  With factor 1, the largest
    [setSmoothingFactor] stores, an update returns the clamped raw sample
    whatever the stored pose.  With factor 0, which the constructor and
    [setConfig] accept, the average keeps only the stored pose: through any
    run of updates x, y, z and interOcularPx stay what they were. *)
Theorem smoothing_extremes (t : HeadPoseTracker) (cal : CalibrationData)
  (prev : HeadPose) :
  previousPose t = Some prev ->
  (cfg_smoothingFactor (config t) = 1 ->
   forall (now : R) (lms : list Point3),
     (468 <= length lms)%nat ->
     exists sp,
       fst (update t cal now (Some lms)) = Some sp /\
       pose sp = rawPose (config t) now lms) /\
  (cfg_smoothingFactor (config t) = 0 ->
   forall (frames : list (R * option (list Point3))) (sp : SmoothedHeadPose),
     In (Some sp) (fst (updates t cal frames)) ->
     x (pose sp) = x prev /\ y (pose sp) = y prev /\ z (pose sp) = z prev /\
     interOcularPx (pose sp) = interOcularPx prev).
Proof.
  intros Hprev. split.
  - intros Ha now lms Hlen.
    pose proof (update_some t cal now lms prev Hlen Hprev) as E. cbv zeta in E.
    eexists. rewrite E. split; [reflexivity |]. cbn [pose].
    unfold smooth, ema. rewrite Ha.
    destruct (rawPose (config t) now lms) as [rx ry rz ri rt]. cbn [x y z interOcularPx timestamp].
    f_equal; ring.
  - intros Ha frames sp Hin. apply (frozen_updates frames cal t prev Ha Hprev sp Hin).
Qed.

Lemma smoothing_extremes_witness :
  exists sp,
    In (Some sp)
       (fst (updates (mkTracker (mkConfig 0 (0, 1) (0, 1) (3 / 10, 3))
                        (Some (mkHeadPose (1 / 4) (1 / 4) 1 (1 / 10) 0)))
               DEFAULT_CALIBRATION [(1, Some collapsed_face); (2, Some collapsed_face)])) /\
    x (pose sp) = 1 / 4.
Proof.
  assert (Hlen : (468 <= length collapsed_face)%nat)
    by (unfold collapsed_face; rewrite repeat_length; lia).
  pose proof (update_some (mkTracker (mkConfig 0 (0, 1) (0, 1) (3 / 10, 3))
                             (Some (mkHeadPose (1 / 4) (1 / 4) 1 (1 / 10) 0)))
                DEFAULT_CALIBRATION 1 collapsed_face
                (mkHeadPose (1 / 4) (1 / 4) 1 (1 / 10) 0) Hlen eq_refl) as E.
  cbv zeta in E.
  match type of E with _ = (Some ?s, _) => set (sp0 := s) in * end.
  assert (Hin : In (Some sp0)
       (fst (updates (mkTracker (mkConfig 0 (0, 1) (0, 1) (3 / 10, 3))
                        (Some (mkHeadPose (1 / 4) (1 / 4) 1 (1 / 10) 0)))
               DEFAULT_CALIBRATION [(1, Some collapsed_face); (2, Some collapsed_face)]))).
  { rewrite HeadPoseFacts.updates_cons. rewrite E. cbn [fst]. left. reflexivity. }
  exists sp0. split; [exact Hin |].
  destruct (smoothing_extremes
              (mkTracker (mkConfig 0 (0, 1) (0, 1) (3 / 10, 3))
                 (Some (mkHeadPose (1 / 4) (1 / 4) 1 (1 / 10) 0)))
              DEFAULT_CALIBRATION (mkHeadPose (1 / 4) (1 / 4) 1 (1 / 10) 0) eq_refl)
    as [_ H0].
  destruct (H0 eq_refl _ sp0 Hin) as [Hx _]. exact Hx.
Defined.

Lemma at_index_map (f : Point3 -> Point3) (lms : list Point3) (i : nat) :
  (i < length lms)%nat -> at_index (map f lms) i = f (at_index lms i).
Proof.
  intros Hi. unfold at_index.
  rewrite (nth_indep (map f lms) (mkPoint3 0 0 0) (f (mkPoint3 0 0 0)))
    by (rewrite length_map; exact Hi).
  apply map_nth.
Qed.

(** X9. The depth proxy depends on the shape of the face, not on where it
    is: moving every landmark of a full mesh by the same offset leaves
    interOcularPx and the clamped z of the raw sample unchanged, and hence
    z, interOcularPx and worldZ of the pose [update] returns. *)
Theorem depth_ignores_position (t : HeadPoseTracker) (cal : CalibrationData) (now : R)
  (lms : list Point3) (dx dy dz : R) :
  (468 <= length lms)%nat ->
  let moved := map (shifted dx dy dz) lms in
  z (rawPose (config t) now moved) = z (rawPose (config t) now lms) /\
  interOcularPx (rawPose (config t) now moved) = interOcularPx (rawPose (config t) now lms) /\
  exists sp sp',
    fst (update t cal now (Some lms)) = Some sp /\
    fst (update t cal now (Some moved)) = Some sp' /\
    z (pose sp') = z (pose sp) /\
    interOcularPx (pose sp') = interOcularPx (pose sp) /\
    worldZ sp' = worldZ sp.
Proof.
  intros Hlen moved.
  assert (Hraw : z (rawPose (config t) now moved) = z (rawPose (config t) now lms) /\
                 interOcularPx (rawPose (config t) now moved)
                 = interOcularPx (rawPose (config t) now lms)).
  { unfold rawPose, moved. cbn [z interOcularPx].
    unfold LEFT_EYE_INNER, RIGHT_EYE_INNER, LEFT_EYE_OUTER, RIGHT_EYE_OUTER.
    rewrite !at_index_map by lia. unfold shifted. cbn [px py].
    replace (px (at_index lms 362) + dx - (px (at_index lms 133) + dx))
      with (px (at_index lms 362) - px (at_index lms 133)) by ring.
    replace (py (at_index lms 362) + dy - (py (at_index lms 133) + dy))
      with (py (at_index lms 362) - py (at_index lms 133)) by ring.
    replace (px (at_index lms 263) + dx - (px (at_index lms 33) + dx))
      with (px (at_index lms 263) - px (at_index lms 33)) by ring.
    replace (py (at_index lms 263) + dy - (py (at_index lms 33) + dy))
      with (py (at_index lms 263) - py (at_index lms 33)) by ring.
    split; reflexivity. }
  destruct Hraw as [Hz Hi]. split; [exact Hz |]. split; [exact Hi |].
  assert (Hlen' : (468 <= length moved)%nat) by (unfold moved; rewrite length_map; exact Hlen).
  pose proof (HeadPoseFacts.update_enough t cal now lms Hlen) as E.
  pose proof (HeadPoseFacts.update_enough t cal now moved Hlen') as E'.
  cbv zeta in E, E'.
  eexists. eexists. rewrite E, E'. split; [reflexivity |]. split; [reflexivity |].
  cbn [pose worldZ].
  destruct (previousPose t) as [prev |]; cbn [smooth z interOcularPx].
  - rewrite Hz, Hi. repeat split; reflexivity.
  - rewrite Hz, Hi. repeat split; reflexivity.
Qed.

Lemma depth_ignores_position_witness :
  z (rawPose DEFAULT_CONFIG 0 (map (shifted (1 / 4) (1 / 4) 0) collapsed_face))
  = z (rawPose DEFAULT_CONFIG 0 collapsed_face).
Proof.
  assert (H : (468 <= length collapsed_face)%nat).
  { unfold collapsed_face. rewrite repeat_length. lia. }
  destruct (depth_ignores_position new_default DEFAULT_CALIBRATION 0 collapsed_face
              (1 / 4) (1 / 4) 0 H) as [Hz _].
  exact Hz.
Defined.

End HeadPoseMore.

(** ** From the face mesh to the camera *)

Module PipelineFacts.
Import Types Calibration HeadPose Pipeline.
Open Scope R_scope.







End PipelineFacts.

(** ** Calibration manager *)

Module CalibrationManagerFacts.
Import Types Calibration CalibrationManager.
Open Scope R_scope.

Lemma truthy_true (v : R) : truthy v = true <-> v <> 0.
Proof. unfold truthy. destruct (Req_dec_T v 0); split; congruence. Qed.

Lemma truthy_false (v : R) : truthy v = false <-> v = 0.
Proof. unfold truthy. destruct (Req_dec_T v 0); split; congruence. Qed.

Lemma divide_zero (a : R) : divide a 0 = NotFinite.
Proof. unfold divide. destruct (Req_dec_T 0 0); [reflexivity | congruence]. Qed.

(** A quotient that is a number other than 0 is the exact one. *)
Lemma divide_finite (a b v : R) :
  divide a b = Finite v -> v <> 0 -> b <> 0 /\ v = a / b.
Proof.
  unfold divide. intros H Hv.
  destruct (Req_dec_T b 0); [discriminate H |].
  destruct (Rle_dec OVERFLOW (Rabs (a / b))); [discriminate H |].
  destruct (Rle_dec (Rabs (a / b)) (MIN_VALUE / 2)); injection H as H.
  - congruence.
  - auto.
Qed.

(** A quotient within the range of the numbers is the exact one. *)
Lemma divide_in_range (a b : R) :
  b <> 0 -> MIN_VALUE / 2 < Rabs (a / b) < OVERFLOW ->
  divide a b = Finite (a / b).
Proof.
  intros Hb [H1 H2]. unfold divide.
  destruct (Req_dec_T b 0); [contradiction |].
  destruct (Rle_dec OVERFLOW (Rabs (a / b))); [lra |].
  destruct (Rle_dec (Rabs (a / b)) (MIN_VALUE / 2)); [lra | reflexivity].
Qed.

(** X11. What [setCalibration] stores comes back: afterwards the
    calibrated mark is set and a manager constructed from the storage (a
    page reload, under the window of that moment) has the same screen
    size, distance and inter-ocular values.  Its pixelsPerCm is the stored
    number, except that a stored 0 is derived again from the window of the
    reload, and that a pixelsPerCm which is not a finite number comes back
    as null: JSON has no Infinity or NaN.  This happens when pixelsPerCm
    is derived with a screen width of 0. *)
Theorem reload_restores_calibration (w w' : Window) (m : Manager) (p : PartialCalibration) :
  let m1 := setCalibration w m p in
  let m2 := new w' (storage m1) in
  isCalibrated m1 = true /\
  isCalibrated m2 = true /\
  screenWidthCm (getCalibration m2) = screenWidthCm (getCalibration m1) /\
  screenHeightCm (getCalibration m2) = screenHeightCm (getCalibration m1) /\
  viewingDistanceCm (getCalibration m2) = viewingDistanceCm (getCalibration m1) /\
  referenceInterOcularPx (getCalibration m2) = referenceInterOcularPx (getCalibration m1) /\
  realInterOcularCm (getCalibration m2) = realInterOcularCm (getCalibration m1) /\
  pixelsPerCm (getCalibration m2)
  = match pixelsPerCm (getCalibration m1) with
    | Finite v => if truthy v then Finite v
                  else computePixelsPerCm w' (getCalibration m1)
    | NotFinite | JsonNull => JsonNull
    end /\
  (derives (SetCalibration p) = true ->
   screenWidthCm (getCalibration m1) = 0 ->
   pixelsPerCm (getCalibration m1) = NotFinite /\
   pixelsPerCm (getCalibration m2) = JsonNull).
Proof.
  intros m1 m2.
  assert (Hl : load (storage m1) = stringify_parse (data m1)) by reflexivity.
  assert (Hcases : data m2 =
            match pixelsPerCm (data m1) with
            | Finite v => if truthy v then data m1
                          else with_pixelsPerCm (data m1) (computePixelsPerCm w' (data m1))
            | NotFinite | JsonNull => with_pixelsPerCm (data m1) JsonNull
            end).
  { unfold m2, new. rewrite Hl. cbn [data]. unfold stringify_parse.
    cbn [pixelsPerCm with_pixelsPerCm].
    destruct (pixelsPerCm (data m1)) as [v | |] eqn:E; cbn [through_json is_zero].
    - destruct (truthy v); cbn [negb].
      + rewrite <- E. destruct (data m1). reflexivity.
      + unfold computePixelsPerCm. cbn [with_pixelsPerCm screenWidthCm]. reflexivity.
    - reflexivity.
    - reflexivity. }
  unfold getCalibration, isCalibrated.
  split; [reflexivity |]. split; [reflexivity |].
  assert (Hfields :
            screenWidthCm (data m2) = screenWidthCm (data m1) /\
            screenHeightCm (data m2) = screenHeightCm (data m1) /\
            viewingDistanceCm (data m2) = viewingDistanceCm (data m1) /\
            referenceInterOcularPx (data m2) = referenceInterOcularPx (data m1) /\
            realInterOcularCm (data m2) = realInterOcularCm (data m1) /\
            pixelsPerCm (data m2)
            = match pixelsPerCm (data m1) with
              | Finite v => if truthy v then Finite v
                            else computePixelsPerCm w' (data m1)
              | NotFinite | JsonNull => JsonNull
              end).
  { rewrite Hcases.
    destruct (pixelsPerCm (data m1)) as [v | |] eqn:E.
    - destruct (truthy v); [rewrite E |]; repeat split; reflexivity.
    - repeat split; reflexivity.
    - repeat split; reflexivity. }
  destruct Hfields as (F1 & F2 & F3 & F4 & F5 & F6).
  do 5 (split; [assumption |]). split; [exact F6 |].
  intros Hd Hw.
  assert (Hpx : pixelsPerCm (data m1) = NotFinite).
  { unfold m1, setCalibration, save in Hw |- *. cbn [data] in Hw |- *.
    cbn [derives] in Hd. rewrite Hd in Hw |- *.
    cbn [with_pixelsPerCm screenWidthCm pixelsPerCm] in Hw |- *.
    unfold computePixelsPerCm. rewrite Hw. apply divide_zero. }
  split; [exact Hpx |]. rewrite F6, Hpx. reflexivity.
Qed.

Lemma reload_restores_calibration_witness :
  pixelsPerCm
    (getCalibration
       (new (mkWindow 1920 1080 2)
          (storage (setCalibration (mkWindow 1920 1080 2)
                      (new (mkWindow 1920 1080 2) (mkStorage None false))
                      (mkPartial (Some 0) (Some 16) None None None None)))))
  = JsonNull.
Proof.
  destruct (reload_restores_calibration (mkWindow 1920 1080 2) (mkWindow 1920 1080 2)
              (new (mkWindow 1920 1080 2) (mkStorage None false))
              (mkPartial (Some 0) (Some 16) None None None None))
    as (_ & _ & _ & _ & _ & _ & _ & _ & H).
  destruct H as [_ H].
  - cbn [derives p_screenWidthCm p_screenHeightCm truthy_opt].
    assert (T : truthy 16 = true) by (apply truthy_true; lra).
    rewrite T. apply orb_true_r.
  - unfold setCalibration, save, getCalibration. cbn [data].
    destruct (truthy_opt (p_screenWidthCm (mkPartial (Some 0) (Some 16) None None None None))
              || truthy_opt (p_screenHeightCm
                               (mkPartial (Some 0) (Some 16) None None None None)));
      reflexivity.
  - exact H.
Defined.

(** The constructor on empty storage. *)
Lemma new_first_visit (w : Window) :
  data (new w (mkStorage None false))
  = with_pixelsPerCm DEFAULT_CALIBRATION (divide (screenWidthPx w) 34).
Proof.
  assert (T : truthy 0 = false) by (apply truthy_false; reflexivity).
  unfold new, load. cbn [item data].
  change (is_zero (pixelsPerCm DEFAULT_CALIBRATION)) with (negb (truthy 0)).
  rewrite T. reflexivity.
Qed.

(** One call keeps pixelsPerCm derived from the stored width, under the
    window of the last call that derived it. *)
Lemma call_keeps_derived (w : Window) (m : Manager) (at_ : Window * Call) :
  leaves_derived (snd at_) ->
  pixelsPerCm (data m) = computePixelsPerCm w (data m) ->
  pixelsPerCm (data (call m at_))
  = computePixelsPerCm (if derives (snd at_) then fst at_ else w) (data (call m at_)).
Proof.
  destruct at_ as [wn op]. cbn [fst snd]. intros Hop Hp.
  destruct op as [p | |]; unfold call; cbn [fst snd derives].
  - destruct Hop as [Hpx Hnz].
    unfold setCalibration, save. cbn [data].
    destruct (truthy_opt (p_screenWidthCm p) || truthy_opt (p_screenHeightCm p)) eqn:T.
    + reflexivity.
    + apply orb_false_elim in T. destruct T as [T _].
      unfold computePixelsPerCm in *. cbn [assign pixelsPerCm screenWidthCm].
      rewrite Hpx.
      destruct (p_screenWidthCm p) as [v |] eqn:E; cbn [pick]; [| exact Hp].
      exfalso. cbn [truthy_opt] in T. apply truthy_false in T. apply (Hnz v); auto.
  - reflexivity.
  - cbn [save data]. exact Hp.
Qed.

Lemma calls_keep_derived (ops : list (Window * Call)) :
  forall (w : Window) (m : Manager),
    Forall (fun at_ => leaves_derived (snd at_)) ops ->
    pixelsPerCm (data m) = computePixelsPerCm w (data m) ->
    pixelsPerCm (data (calls m ops))
    = computePixelsPerCm (derived_under w ops) (data (calls m ops)).
Proof.
  induction ops as [| at_ ops IH]; intros w m Hops H; [exact H |].
  inversion Hops as [| ? ? Hop Hrest]; subst.
  unfold calls, derived_under. cbn [fold_left].
  apply (IH _ _ Hrest). apply (call_keeps_derived w m at_ Hop H).
Qed.

(** X12. pixelsPerCm stays the derived quantity: from a first visit
    (empty storage), through any sequence of [setCalibration], [reset] and
    [save] calls that never pass pixelsPerCm themselves nor a zero screen
    width, each made under the window of its moment, pixelsPerCm is what
    [computePixelsPerCm] gives for the stored screen width under the
    window of the last call that derived it (a [setCalibration] with a
    width or height, a [reset], else the constructor).  [getCmPerPixel]
    reads the window anew: where both are numbers other than 0, their
    product is the ratio of the two pixel widths, and so 1 as long as the
    pixel width has not changed since pixelsPerCm was derived. *)
Theorem pixelsPerCm_stays_derived (w0 : Window) (ops : list (Window * Call)) :
  Forall (fun at_ => leaves_derived (snd at_)) ops ->
  let m := calls (new w0 (mkStorage None false)) ops in
  let w := derived_under w0 ops in
  pixelsPerCm (getCalibration m) = computePixelsPerCm w (getCalibration m) /\
  forall (now : Window) (perCm perPixel : R),
    pixelsPerCm (getCalibration m) = Finite perCm ->
    getCmPerPixel now m = Finite perPixel ->
    perCm <> 0 -> perPixel <> 0 ->
    perPixel * perCm = screenWidthPx w / screenWidthPx now /\
    (screenWidthPx now = screenWidthPx w -> perPixel * perCm = 1).
Proof.
  intros Hops m w.
  assert (H0 : pixelsPerCm (data (new w0 (mkStorage None false)))
               = computePixelsPerCm w0 (data (new w0 (mkStorage None false)))).
  { rewrite new_first_visit. reflexivity. }
  pose proof (calls_keep_derived ops w0 _ Hops H0) as Hp.
  fold m in Hp. fold w in Hp. unfold getCalibration.
  split; [exact Hp |].
  intros now perCm perPixel E1 E2 N1 N2.
  rewrite Hp in E1. unfold computePixelsPerCm in E1. unfold getCmPerPixel in E2.
  destruct (divide_finite _ _ _ E1 N1) as [Hw Ev].
  destruct (divide_finite _ _ _ E2 N2) as [Hn Ec].
  assert (Hprod : perPixel * perCm = screenWidthPx w / screenWidthPx now).
  { rewrite Ev, Ec. field. auto. }
  split; [exact Hprod |].
  intros E. rewrite Hprod, E. field. rewrite <- E. exact Hn.
Qed.

Lemma pixelsPerCm_stays_derived_witness :
  pixelsPerCm
    (getCalibration
       (calls (new (mkWindow 1920 1080 2) (mkStorage None false))
          [(mkWindow 1920 1080 2,
            SetCalibration (mkPartial (Some 50) None None None None None));
           (mkWindow 1280 720 1, Save)]))
  = computePixelsPerCm
      (derived_under (mkWindow 1920 1080 2)
         [(mkWindow 1920 1080 2,
           SetCalibration (mkPartial (Some 50) None None None None None));
          (mkWindow 1280 720 1, Save)])
      (getCalibration
         (calls (new (mkWindow 1920 1080 2) (mkStorage None false))
            [(mkWindow 1920 1080 2,
              SetCalibration (mkPartial (Some 50) None None None None None));
             (mkWindow 1280 720 1, Save)])).
Proof.
  destruct (pixelsPerCm_stays_derived (mkWindow 1920 1080 2)
              [(mkWindow 1920 1080 2,
                SetCalibration (mkPartial (Some 50) None None None None None));
               (mkWindow 1280 720 1, Save)])
    as (H & _).
  - repeat constructor. cbn [p_screenWidthCm]. intros v E. injection E as <-. lra.
  - exact H.
Defined.

(** X13. [reset] is a first visit: whatever was calibrated and stored, the
    manager after [reset] is the one the constructor builds from empty
    storage (defaults with pixelsPerCm derived from the window), the
    calibrated mark is gone, and a reload gives the same manager again. *)
Theorem reset_is_first_visit (w : Window) (m : Manager) :
  reset w m = new w (mkStorage None false) /\
  isCalibrated (reset w m) = false /\
  new w (storage (reset w m)) = reset w m /\
  screenWidthCm (getCalibration (reset w m)) = 34 /\
  screenHeightCm (getCalibration (reset w m)) = 19 /\
  viewingDistanceCm (getCalibration (reset w m)) = 60 /\
  pixelsPerCm (getCalibration (reset w m)) = divide (screenWidthPx w) 34 /\
  (MIN_VALUE / 2 < Rabs (screenWidthPx w / 34) < OVERFLOW ->
   pixelsPerCm (getCalibration (reset w m)) = Finite (screenWidthPx w / 34)).
Proof.
  assert (T : truthy 0 = false) by (apply truthy_false; reflexivity).
  assert (E : reset w m = new w (mkStorage None false)).
  { unfold reset, new, load. cbn [item].
    change (is_zero (pixelsPerCm DEFAULT_CALIBRATION)) with (negb (truthy 0)).
    rewrite T. reflexivity. }
  split; [exact E |]. split; [reflexivity |]. split.
  - rewrite E at 2. reflexivity.
  - do 4 (split; [reflexivity |]).
    intros Hr. unfold reset, getCalibration. cbn [data with_pixelsPerCm pixelsPerCm].
    unfold computePixelsPerCm. change (screenWidthCm DEFAULT_CALIBRATION) with 34.
    apply divide_in_range; [lra | exact Hr].
Qed.

End CalibrationManagerFacts.

(** ** Reconnecting socket: the other callbacks *)

Module UseWebSocketMore.
Import UseWebSocket.
Open Scope Z_scope.

Lemma acts_snoc (o : UseWebSocketOptions) (h : Hook) (l : list Action) (a : Action) :
  acts o h (l ++ [a]) = act o (acts o h l) a.
Proof. unfold acts. rewrite fold_left_app. reflexivity. Qed.

Lemma act_connected (o : UseWebSocketOptions) (h : Hook) (a : Action) :
  (connected h = true <-> wsRef h = Some OPEN) /\ 0 <= reconnectAttemptRef h ->
  (connected (act o h a) = true <-> wsRef (act o h a) = Some OPEN) /\
  0 <= reconnectAttemptRef (act o h a).
Proof.
  intros [Hc Ha]. destruct a as [ev |].
  - cbn [act]. unfold step. destruct (enabled h ev) eqn:En; [| auto].
    destruct ev as [| | id |].
    + simpl. split; [tauto | lia].
    + unfold onclose. destruct (autoReconnect o && negb (intentionalCloseRef h)); simpl;
        (split; [split; intros H; discriminate H | lia]).
    + unfold fire, connect. cbn [wsRef].
      destruct (wsRef h) as [[| | |] |] eqn:E; cbn [connected wsRef reconnectAttemptRef];
        try (split; [exact Hc | exact Ha]);
        (split; [| exact Ha]); split; intros H; try discriminate H;
        apply Hc in H; discriminate H.
    + unfold close. simpl. split; [| exact Ha].
      split; intros H; [discriminate H |].
      destruct (wsRef h) as [[| | |] |]; discriminate H.
  - cbn [act]. unfold reconnect, close. simpl. split; [| exact Ha].
    split; intros H; [discriminate H |].
    destruct (wsRef h) as [[| | |] |]; discriminate H.
Qed.

Lemma acts_connected (o : UseWebSocketOptions) (l : list Action) :
  forall h,
    (connected h = true <-> wsRef h = Some OPEN) /\ 0 <= reconnectAttemptRef h ->
    (connected (acts o h l) = true <-> wsRef (acts o h l) = Some OPEN) /\
    0 <= reconnectAttemptRef (acts o h l).
Proof.
  unfold acts. induction l as [| a l IH]; intros h H; [exact H |].
  cbn [fold_left]. apply IH. apply act_connected. exact H.
Qed.

Lemma mounted_connected :
  (connected mounted = true <-> wsRef mounted = Some OPEN) /\
  0 <= reconnectAttemptRef mounted.
Proof. simpl. split; [split; intros H; discriminate H | lia]. Qed.

(** X15. The [connected] flag tells the truth: in every state reached from
    mounting through socket events, timeouts, [close()] and [reconnect()],
    [connected] is true exactly when the current socket is open, which is
    exactly when [send] hands data to the socket instead of dropping it;
    the attempt counter is never negative. *)
Theorem connected_iff_open (o : UseWebSocketOptions) (l : list Action) :
  let h := acts o mounted l in
  (connected h = true <-> wsRef h = Some OPEN) /\
  send h = connected h /\
  0 <= reconnectAttemptRef h.
Proof.
  intros h. destruct (acts_connected o l mounted mounted_connected) as [Hc Ha].
  fold h in Hc, Ha. split; [exact Hc |]. split; [| exact Ha].
  unfold send. destruct (connected h) eqn:E.
  - rewrite (proj1 Hc eq_refl). reflexivity.
  - destruct (wsRef h) as [[| | |] |] eqn:W; try reflexivity.
    assert (H : false = true) by (apply Hc; reflexivity). discriminate H.
Qed.

(** *** Backoff delays *)

Lemma backoff_bounds (o : UseWebSocketOptions) (attempt : Z) :
  0 <= reconnectDelay o -> 0 <= attempt ->
  Z.min (reconnectDelay o) (maxReconnectDelay o) <= backoff o attempt
  /\ backoff o attempt <= maxReconnectDelay o.
Proof.
  intros Hb Ha. unfold backoff.
  assert (H1 : 1 <= 2 ^ attempt).
  { change 1 with (2 ^ 0). apply Z.pow_le_mono_r; lia. }
  assert (H2 : reconnectDelay o <= reconnectDelay o * 2 ^ attempt) by nia.
  lia.
Qed.

Lemma backoff_monotone (o : UseWebSocketOptions) (a a' : Z) :
  0 <= reconnectDelay o -> 0 <= a <= a' -> backoff o a <= backoff o a'.
Proof.
  intros Hb Ha. unfold backoff.
  assert (H : 2 ^ a <= 2 ^ a') by (apply Z.pow_le_mono_r; lia).
  assert (H2 : reconnectDelay o * 2 ^ a <= reconnectDelay o * 2 ^ a') by nia.
  lia.
Qed.

Lemma newest_snoc (ts : list (nat * Z)) (t : nat * Z) : newest (ts ++ [t]) = Some t.
Proof.
  induction ts as [| t0 ts IH]; [reflexivity |].
  simpl. destruct (ts ++ [t]) eqn:E.
  - destruct ts; discriminate E.
  - exact IH.
Qed.

(** What a close event schedules, if anything. *)
Lemma scheduled_onclose (o : UseWebSocketOptions) (h : Hook) :
  scheduled h (onclose o h) =
  if autoReconnect o && negb (intentionalCloseRef h)
  then Some (backoff o (reconnectAttemptRef h))
  else None.
Proof.
  unfold scheduled, onclose.
  destruct (autoReconnect o && negb (intentionalCloseRef h)); cbn [nextTimerId timers].
  - assert (T : Nat.ltb (nextTimerId h) (S (nextTimerId h)) = true)
      by (apply Nat.ltb_lt; lia).
    rewrite T, newest_snoc. reflexivity.
  - rewrite Nat.ltb_irrefl. reflexivity.
Qed.

Lemma backoffs_bounded (o : UseWebSocketOptions) (l : list Action) :
  0 <= reconnectDelay o ->
  forall h,
    (connected h = true <-> wsRef h = Some OPEN) /\ 0 <= reconnectAttemptRef h ->
    forall d, In d (backoffs o h l) ->
      Z.min (reconnectDelay o) (maxReconnectDelay o) <= d <= maxReconnectDelay o.
Proof.
  intros Hb. induction l as [| a l IH]; intros h Hh d Hin; [destruct Hin |].
  pose proof (act_connected o h a Hh) as Hh'.
  cbn [backoffs] in Hin.
  destruct a as [[| | id |] |]; try (apply (IH _ Hh' d Hin)).
  cbn [act] in Hin, Hh'. unfold step in Hin at 1.
  destruct (enabled h SocketClosed) eqn:En.
  - rewrite scheduled_onclose in Hin.
    destruct (autoReconnect o && negb (intentionalCloseRef h)).
    + destruct Hin as [<- | Hin].
      * apply backoff_bounds; [exact Hb | apply Hh].
      * apply (IH _ Hh' d Hin).
    + apply (IH _ Hh' d Hin).
  - assert (E : scheduled h h = None).
    { unfold scheduled. rewrite Nat.ltb_irrefl. reflexivity. }
    rewrite E in Hin. apply (IH _ Hh' d Hin).
Qed.

(** X16. Reconnect delays are bounded on both sides: with a positive
    base delay, every delay scheduled along any sequence of socket events,
    timeouts, [close()] and [reconnect()] calls lies between
    min(baseDelay, maxDelay) and maxDelay, and the delay for a later
    attempt is never shorter than for an earlier one.  (A base delay of 0
    is left out: there the product 0 * 2 ** attempt stops being a number
    once 2 ** attempt overflows.) *)
Theorem backoff_delays_bounded (o : UseWebSocketOptions) (l : list Action) (d : Z) :
  0 < reconnectDelay o ->
  In d (backoffs o mounted l) ->
  Z.min (reconnectDelay o) (maxReconnectDelay o) <= d <= maxReconnectDelay o /\
  forall a a' : Z, 0 <= a <= a' -> backoff o a <= backoff o a'.
Proof.
  intros Hb Hin. apply Z.lt_le_incl in Hb. split.
  - apply (backoffs_bounded o l Hb mounted mounted_connected d Hin).
  - intros a a' Ha. apply backoff_monotone; assumption.
Qed.

Lemma backoff_delays_bounded_witness :
  Z.min (reconnectDelay default_options) (maxReconnectDelay default_options) <= 1000
  <= maxReconnectDelay default_options.
Proof.
  destruct (backoff_delays_bounded default_options [Happens SocketClosed] 1000) as [H _].
  - simpl. lia.
  - vm_compute. left. reflexivity.
  - exact H.
Defined.

Lemma clearTimeout_fresh (id : nat) (d : Z) (ts : list (nat * Z)) :
  (forall t, In t ts -> (fst t < id)%nat) ->
  clearTimeout id (ts ++ [(id, d)]) = ts.
Proof.
  intros Hf. unfold clearTimeout. rewrite List.filter_app. simpl.
  rewrite Nat.eqb_refl. simpl. rewrite app_nil_r.
  induction ts as [| t ts IH]; [reflexivity |].
  simpl. assert (Ht : (fst t < id)%nat) by (apply Hf; left; reflexivity).
  assert (E : Nat.eqb (fst t) id = false) by (apply Nat.eqb_neq; lia).
  rewrite E. simpl. f_equal. apply IH. intros t' Hin. apply Hf. right. exact Hin.
Qed.

Lemma existsb_snoc_id (id : nat) (d : Z) (ts : list (nat * Z)) :
  existsb (fun t => Nat.eqb (fst t) id) (ts ++ [(id, d)]) = true.
Proof.
  rewrite existsb_app. simpl. rewrite Nat.eqb_refl, orb_true_r. reflexivity.
Qed.

(** One failed attempt: the close event schedules the backoff of the
    current attempt, the timeout connects again. *)
Lemma one_failure (o : UseWebSocketOptions) (h : Hook) :
  autoReconnect o = true ->
  intentionalCloseRef h = false ->
  enabled h SocketClosed = true ->
  ids_fresh h ->
  let h1 := step o h SocketClosed in
  let h2 := step o h1 (TimerFired (nextTimerId h)) in
  scheduled h h1 = Some (backoff o (reconnectAttemptRef h)) /\
  scheduled h1 h2 = None /\
  wsRef h2 = Some CONNECTING /\
  intentionalCloseRef h2 = false /\
  reconnectAttemptRef h2 = reconnectAttemptRef h + 1 /\
  timers h2 = timers h /\
  nextTimerId h2 = S (nextTimerId h) /\
  connected h2 = false.
Proof.
  intros Hauto Hi Hen Hfresh h1 h2.
  assert (E1 : h1 = onclose o h) by (unfold h1, step; rewrite Hen; reflexivity).
  assert (Hs : scheduled h h1 = Some (backoff o (reconnectAttemptRef h))).
  { rewrite E1, scheduled_onclose, Hauto, Hi. reflexivity. }
  assert (E1' : h1 = {| connected := false;
                        wsRef := Some CLOSED;
                        reconnectAttemptRef := reconnectAttemptRef h + 1;
                        reconnectTimerRef := Some (nextTimerId h);
                        intentionalCloseRef := intentionalCloseRef h;
                        timers := timers h ++ [(nextTimerId h, backoff o (reconnectAttemptRef h))];
                        nextTimerId := S (nextTimerId h) |}).
  { rewrite E1. unfold onclose. rewrite Hauto, Hi. reflexivity. }
  assert (E2 : h2 = fire h1 (nextTimerId h)).
  { unfold h2, step. rewrite E1'. cbn [enabled timers].
    rewrite existsb_snoc_id. reflexivity. }
  split; [exact Hs |].
  rewrite E2, E1'. unfold fire, connect. cbn [wsRef timers].
  rewrite (clearTimeout_fresh _ _ _ Hfresh).
  unfold scheduled. cbn [nextTimerId]. rewrite Nat.ltb_irrefl.
  rewrite Hi. repeat split; reflexivity.
Qed.

Lemma failures_delays (o : UseWebSocketOptions) (n : nat) :
  autoReconnect o = true ->
  forall h,
    intentionalCloseRef h = false ->
    enabled h SocketClosed = true ->
    ids_fresh h ->
    delays o h (failures (nextTimerId h) n)
    = map (fun k => backoff o (reconnectAttemptRef h + Z.of_nat k)) (seq 0 n) /\
    reconnectAttemptRef (run o h (failures (nextTimerId h) n))
    = reconnectAttemptRef h + Z.of_nat n /\
    intentionalCloseRef (run o h (failures (nextTimerId h) n)) = false.
Proof.
  intros Hauto. induction n as [| n IH]; intros h Hi Hen Hfresh.
  - simpl. repeat split; try reflexivity; try assumption. lia.
  - destruct (one_failure o h Hauto Hi Hen Hfresh)
      as (S1 & S2 & Hws & Hi2 & Ha2 & Ht2 & Hn2 & _).
    cbv zeta in S1, S2, Hws, Hi2, Ha2, Ht2, Hn2.
    set (h2 := step o (step o h SocketClosed) (TimerFired (nextTimerId h))) in *.
    assert (Hen2 : enabled h2 SocketClosed = true) by (simpl; rewrite Hws; reflexivity).
    assert (Hf2 : ids_fresh h2).
    { unfold ids_fresh. rewrite Ht2, Hn2. intros t Hin. specialize (Hfresh t Hin). lia. }
    destruct (IH h2 Hi2 Hen2 Hf2) as (Hd & Hat & Hit).
    rewrite Hn2 in Hd, Hat, Hit.
    cbn [failures delays]. rewrite S1. fold h2. rewrite S2.
    unfold run. cbn [fold_left]. fold h2. fold (run o h2 (failures (S (nextTimerId h)) n)).
    rewrite Hd, Hat, Hit, Ha2.
    split; [| split; [lia | reflexivity]].
    cbn [seq map]. f_equal; [f_equal; lia |].
    rewrite <- seq_shift, map_map. apply map_ext. intros k. f_equal. lia.
Qed.

(** X17. The backoff sequence in general: with [autoReconnect] on, from
    any state whose socket is not yet closed and whose intentional-close
    flag is unset, n connection attempts that fail in a row schedule the
    delays min(base * 2^(a+k), max) for k = 0 .. n-1, where a is the
    attempt counter at the start, and leave the counter at a + n; after an
    open event a is 0, so the sequence starts over at min(base, max). *)
Theorem failures_back_off (o : UseWebSocketOptions) (h : Hook) (n : nat) :
  autoReconnect o = true ->
  intentionalCloseRef h = false ->
  enabled h SocketClosed = true ->
  ids_fresh h ->
  delays o h (failures (nextTimerId h) n)
  = map (fun k => Z.min (reconnectDelay o * 2 ^ (reconnectAttemptRef h + Z.of_nat k))
                        (maxReconnectDelay o)) (seq 0 n) /\
  reconnectAttemptRef (run o h (failures (nextTimerId h) n))
  = reconnectAttemptRef h + Z.of_nat n /\
  (enabled h SocketOpened = true ->
   delays o (step o h SocketOpened) (failures (nextTimerId h) n)
   = map (fun k => Z.min (reconnectDelay o * 2 ^ Z.of_nat k) (maxReconnectDelay o))
       (seq 0 n)).
Proof.
  intros Hauto Hi Hen Hfresh.
  destruct (failures_delays o n Hauto h Hi Hen Hfresh) as (Hd & Ha & _).
  split; [exact Hd |]. split; [exact Ha |].
  intros Hopen.
  assert (E : step o h SocketOpened = onopen h) by (unfold step; rewrite Hopen; reflexivity).
  rewrite E.
  destruct (failures_delays o n Hauto (onopen h)) as (Hd' & _).
  - exact Hi.
  - reflexivity.
  - exact Hfresh.
  - exact Hd'.
Qed.

Lemma failures_back_off_witness :
  delays default_options mounted (failures 1 6)
  = [1000; 2000; 4000; 8000; 16000; 30000].
Proof.
  destruct (failures_back_off default_options mounted 6) as [H _].
  - reflexivity.
  - reflexivity.
  - reflexivity.
  - intros t [].
  - exact H.
Defined.

(** X18. The manual [reconnect()] closes intentionally and registers a
    100 ms timeout that no ref holds.  A [close()] called before it fires
    therefore does not cancel it: the timeout is still pending, and when it
    fires the hook starts connecting again with the intentional-close flag
    cleared; the attempt counter is what it was before [reconnect()]. *)
Theorem reconnect_outlives_close (o : UseWebSocketOptions) (h : Hook) :
  let id := nextTimerId h in
  let h1 := reconnect h in
  let h2 := close h1 in
  let h3 := step o h2 (TimerFired id) in
  intentionalCloseRef h1 = true /\
  reconnectTimerRef h1 = None /\
  connected h1 = false /\
  In (id, 100) (timers h1) /\
  In (id, 100) (timers h2) /\
  enabled h2 (TimerFired id) = true /\
  wsRef h3 = Some CONNECTING /\
  intentionalCloseRef h3 = false /\
  reconnectAttemptRef h3 = reconnectAttemptRef h /\
  (forall ev, ev = SocketClosed \/ ev = CloseCalled ->
     In (id, 100) (timers (step o h1 ev))).
Proof.
  intros id h1 h2 h3.
  assert (Hin1 : In (id, 100) (timers h1)).
  { unfold h1, reconnect. cbn [timers nextTimerId close]. apply in_or_app. right. left.
    reflexivity. }
  assert (Ht2 : timers h2 = timers h1) by reflexivity.
  assert (Hen : enabled h2 (TimerFired id) = true).
  { cbn [enabled]. rewrite Ht2. apply existsb_exists. exists (id, 100).
    split; [exact Hin1 | apply Nat.eqb_refl]. }
  do 3 (split; [reflexivity |]). split; [exact Hin1 |].
  split; [rewrite Ht2; exact Hin1 |]. split; [exact Hen |].
  assert (E3 : h3 = fire h2 id) by (unfold h3, step; rewrite Hen; reflexivity).
  assert (Hws : wsRef h2 <> Some OPEN).
  { unfold h2, h1, reconnect, close. cbn [wsRef].
    destruct (wsRef h) as [[| | |] |]; discriminate. }
  split; [| split; [| split]].
  - rewrite E3. unfold fire, connect. cbn [wsRef].
    destruct (wsRef h2) as [[| | |] |]; try reflexivity. contradiction Hws. reflexivity.
  - rewrite E3. unfold fire, connect. cbn [wsRef].
    destruct (wsRef h2) as [[| | |] |]; try reflexivity. contradiction Hws. reflexivity.
  - rewrite E3. unfold fire, connect. cbn [wsRef].
    destruct (wsRef h2) as [[| | |] |]; try reflexivity.
  - intros ev [-> | ->]; unfold step.
    + destruct (enabled h1 SocketClosed); [| exact Hin1].
      unfold onclose.
      assert (Hi : intentionalCloseRef h1 = true) by reflexivity.
      rewrite Hi, andb_false_r. exact Hin1.
    + cbn [enabled]. exact Hin1.
Qed.

Lemma reconnect_outlives_close_witness :
  wsRef (step default_options (close (reconnect mounted)) (TimerFired (nextTimerId mounted)))
  = Some CONNECTING /\
  In (nextTimerId mounted, 100) (timers (step default_options (reconnect mounted) CloseCalled)).
Proof.
  destruct (reconnect_outlives_close default_options mounted)
    as (_ & _ & _ & _ & _ & _ & H & _ & _ & Hev).
  split; [exact H |]. apply Hev. right. reflexivity.
Defined.

End UseWebSocketMore.

(** ** Detection loop *)

Module FaceLandmarkerFacts.
Import FaceLandmarker.
Open Scope R_scope.

Lemma detections_cons (last : R) (readyState : Z) (now : R) (rest : list (Z * R)) :
  detections last ((readyState, now) :: rest) =
  (match fst (detect last readyState now) with
   | Some t => t :: fst (detections (snd (detect last readyState now)) rest)
   | None => fst (detections (snd (detect last readyState now)) rest)
   end,
   snd (detections (snd (detect last readyState now)) rest)).
Proof.
  simpl. destruct (detect last readyState now) as [sent last1]. cbn [fst snd].
  destruct (detections last1 rest) as [more last2]. reflexivity.
Qed.

Lemma detections_sorted (frames : list (Z * R)) :
  forall last : R,
    StronglySorted Rlt (fst (detections last frames)) /\
    Forall (fun t => last < t) (fst (detections last frames)) /\
    last <= snd (detections last frames) /\
    Forall (fun t => t <= snd (detections last frames)) (fst (detections last frames)).
Proof.
  induction frames as [| [readyState now] rest IH]; intros last.
  - simpl. split; [constructor |]. split; [constructor |]. split; [lra | constructor].
  - rewrite detections_cons. unfold detect.
    destruct (HAVE_CURRENT_DATA <=? readyState)%Z; [| apply IH].
    destruct (Rlt_dec last now) as [Hlt | Hge]; cbn [fst snd]; [| apply IH].
    destruct (IH now) as (Hs & Hf & Hl & Hu).
    split; [| split; [| split]].
    + constructor; assumption.
    + constructor; [exact Hlt |].
      eapply List.Forall_impl; [| exact Hf]. intros t Ht. simpl in Ht. lra.
    + lra.
    + constructor; assumption.
Qed.

(** X19. The detector only ever sees strictly increasing timestamps:
    whatever the clock readings and ready states of a run of animation
    frames (readings may repeat or go back), the timestamps handed to
    [detectForVideo] are strictly increasing, all later than
    [lastTimestampRef] at the start; a frame whose video has no current
    data, or whose reading is not later than the last one used, calls no
    detector and leaves the ref alone.  From the stopped state (-1) the
    first frame with data and a non-negative reading is detected. *)
Theorem detection_timestamps_increase (last : R) (frames : list (Z * R)) :
  StronglySorted Rlt (fst (detections last frames)) /\
  Forall (fun t => last < t) (fst (detections last frames)) /\
  (forall (readyState : Z) (now : R),
     (readyState < HAVE_CURRENT_DATA)%Z \/ now <= last ->
     detect last readyState now = (None, last)) /\
  (forall (readyState : Z) (now : R),
     (HAVE_CURRENT_DATA <= readyState)%Z -> 0 <= now ->
     detect stopped readyState now = (Some now, now)).
Proof.
  destruct (detections_sorted frames last) as (Hs & Hf & _).
  split; [exact Hs |]. split; [exact Hf |]. split.
  - intros readyState now H. unfold detect.
    destruct (Z.leb_spec HAVE_CURRENT_DATA readyState) as [Hr | Hr]; [| reflexivity].
    destruct (Rlt_dec last now) as [Hlt | Hge]; [| reflexivity].
    destruct H as [H | H]; [lia | lra].
  - intros readyState now Hr Hn. unfold detect, stopped.
    apply Z.leb_le in Hr. rewrite Hr.
    destruct (Rlt_dec (-1) now) as [Hlt | Hge]; [reflexivity | lra].
Qed.

Lemma detection_timestamps_increase_witness :
  detect stopped 4 0 = (Some 0, 0) /\ detect 5 4 5 = (None, 5).
Proof.
  destruct (detection_timestamps_increase 5 []) as (_ & _ & H1 & H2).
  split.
  - apply H2; [unfold HAVE_CURRENT_DATA; lia | lra].
  - apply H1. right. lra.
Defined.

End FaceLandmarkerFacts.

(** ** Video texture manager with entry objects *)

Module TextureStoreFacts.
Import Byte VideoTextureManager TextureStore.
Open Scope Z_scope.

(** *** The Map as a list *)

Lemma get_In (ix : list (string * nat)) (key : string) (o : nat) :
  get ix key = Some o -> In (key, o) ix.
Proof.
  induction ix as [| [k o'] ix IH]; simpl; [discriminate |].
  destruct (String.eqb_spec k key) as [-> | Hne].
  - intros H. injection H as ->. left. reflexivity.
  - intros H. right. apply IH. exact H.
Qed.

Lemma In_get (ix : list (string * nat)) (key : string) (o : nat) :
  List.NoDup (map fst ix) -> In (key, o) ix -> get ix key = Some o.
Proof.
  induction ix as [| [k o'] ix IH]; simpl; intros Hnd Hin; [destruct Hin |].
  apply NoDup_cons_iff in Hnd. destruct Hnd as [Hk Hnd].
  destruct (String.eqb_spec k key) as [-> | Hne].
  - destruct Hin as [E | Hin]; [congruence |].
    exfalso. apply Hk. apply (in_map fst) in Hin. exact Hin.
  - destruct Hin as [E | Hin]; [congruence |]. apply IH; assumption.
Qed.

Lemma get_None (ix : list (string * nat)) (key : string) :
  get ix key = None <-> ~ In key (map fst ix).
Proof.
  induction ix as [| [k o] ix IH]; simpl; [tauto |].
  destruct (String.eqb_spec k key) as [-> | Hne].
  - split; [discriminate | intros H; exfalso; apply H; left; reflexivity].
  - rewrite IH. tauto.
Qed.

Lemma get_app (ix : list (string * nat)) (k key : string) (o : nat) :
  get (ix ++ [(k, o)]) key =
  match get ix key with
  | Some o' => Some o'
  | None => if String.eqb k key then Some o else None
  end.
Proof.
  induction ix as [| [k' o'] ix IH]; simpl; [reflexivity |].
  destruct (String.eqb k' key); [reflexivity | exact IH].
Qed.

Lemma In_delete (ix : list (string * nat)) (key k : string) (o : nat) :
  In (k, o) (delete ix key) <-> In (k, o) ix /\ k <> key.
Proof.
  unfold delete. rewrite filter_In. simpl.
  destruct (String.eqb_spec k key) as [-> | Hne]; simpl.
  - split; intros [H1 H2]; [discriminate H2 | exfalso; apply H2; reflexivity].
  - split; intros [H1 H2]; split; auto.
Qed.

Lemma get_delete (ix : list (string * nat)) (key k : string) :
  get (delete ix key) k = if String.eqb key k then None else get ix k.
Proof.
  induction ix as [| [k' o'] ix IH]; simpl.
  - destruct (String.eqb key k); reflexivity.
  - destruct (String.eqb_spec k' key) as [-> | Hne]; simpl.
    + rewrite IH. destruct (String.eqb key k); reflexivity.
    + rewrite IH. destruct (String.eqb_spec k' k) as [-> | Hne2].
      * destruct (String.eqb_spec key k) as [-> | _]; [congruence | reflexivity].
      * reflexivity.
Qed.

Lemma NoDup_map_filter {A B : Type} (f : A -> B) (keep : A -> bool) (l : list A) :
  List.NoDup (map f l) -> List.NoDup (map f (List.filter keep l)).
Proof.
  induction l as [| a l IH]; simpl; intros H; [constructor |].
  apply NoDup_cons_iff in H. destruct H as [Ha Hl].
  destruct (keep a); simpl; [| apply IH; exact Hl].
  constructor; [| apply IH; exact Hl].
  intros Hin. apply Ha. apply in_map_iff in Hin. destruct Hin as (x & Hx & Hin).
  apply filter_In in Hin. apply in_map_iff. exists x. tauto.
Qed.

(** *** [getTexture] *)

Lemma store_getTexture_present (st : Store) (sourceId : string) (o : nat) :
  get (index st) sourceId = Some o -> getTexture st sourceId = (st, o).
Proof. intros H. unfold getTexture. rewrite H. reflexivity. Qed.

Lemma getTexture_get (st : Store) (sourceId : string) :
  get (index (fst (getTexture st sourceId))) sourceId = Some (snd (getTexture st sourceId)).
Proof.
  unfold getTexture. destruct (get (index st) sourceId) as [o |] eqn:E; simpl.
  - exact E.
  - rewrite get_app, E, String.eqb_refl. reflexivity.
Qed.

Lemma getTexture_get_other (st : Store) (sourceId other : string) :
  other <> sourceId ->
  get (index (fst (getTexture st sourceId))) other = get (index st) other.
Proof.
  intros Hne. unfold getTexture. destruct (get (index st) sourceId) as [o |]; simpl.
  - reflexivity.
  - rewrite get_app. destruct (get (index st) other); [reflexivity |].
    destruct (String.eqb_spec sourceId other); [congruence | reflexivity].
Qed.

Lemma getTexture_keeps (st : Store) (sourceId key : string) (o : nat) :
  get (index st) key = Some o ->
  get (index (fst (getTexture st sourceId))) key = Some o.
Proof.
  intros H. unfold getTexture. destruct (get (index st) sourceId) as [o' |]; simpl.
  - exact H.
  - rewrite get_app, H. reflexivity.
Qed.

Lemma getTexture_rest (st : Store) (sourceId : string) :
  suspended (fst (getTexture st sourceId)) = suspended st /\
  closed (fst (getTexture st sourceId)) = closed st.
Proof. unfold getTexture. destruct (get (index st) sourceId); simpl; auto. Qed.

(** *** The synchronous part of [processFrame] *)

Lemma begin_cases (st : Store) (sourceId : string) (data : list byte) :
  let st1 := fst (getTexture st sourceId) in
  let o := snd (getTexture st sourceId) in
  (~ header_ok data /\ processFrame_begin st sourceId data = (st, Resolved false)) \/
  (header_ok data /\ objects st1 !! o = None /\
   processFrame_begin st sourceId data = (st1, Resolved false)) \/
  (header_ok data /\
   exists e,
     objects st1 !! o = Some e /\
     (SFleb (getFloat64 data 1) (lastTimestamp e) = true \/ processing e = true) /\
     processFrame_begin st sourceId data = (st1, Resolved false)) \/
  (header_ok data /\
   exists e,
     objects st1 !! o = Some e /\
     SFleb (getFloat64 data 1) (lastTimestamp e) = false /\
     processing e = false /\
     processFrame_begin st sourceId data =
     ({| objects := <[o := set_processing e true]> (objects st1);
         index := index st1;
         suspended := suspended st ++
           [(mkPending sourceId (getFloat64 data 1) (getUint32 data 9)
               (getUint32 data 13) (slice data 21 (Z.to_nat (getUint32 data 17))), o)];
         closed := closed st;
         nextObject := nextObject st1 |},
      Awaiting)).
Proof.
  intros st1 o. unfold processFrame_begin, header_ok.
  destruct (Z.ltb_spec (byteLength data) HEADER_SIZE) as [H1 | H1].
  { left. split; [lia | reflexivity]. }
  destruct (Z.eqb_spec (getUint8 data 0) 1) as [H2 | H2]; simpl negb; cbv iota.
  2: { left. split; [tauto | reflexivity]. }
  destruct (Z.ltb_spec (byteLength data) (HEADER_SIZE + getUint32 data 17)) as [H3 | H3].
  { left. split; [lia | reflexivity]. }
  right. fold st1. fold o.
  destruct (getTexture_rest st sourceId) as [Hs Hc]. fold st1 in Hs, Hc.
  destruct (objects st1 !! o) as [e |] eqn:He.
  2: { left. auto. }
  right.
  destruct (SFleb (getFloat64 data 1) (lastTimestamp e)) eqn:Hstale.
  { left. split; [auto |]. exists e. auto. }
  destruct (processing e) eqn:Hp.
  { left. split; [auto |]. exists e. auto. }
  right. split; [auto |]. exists e. rewrite Hs, Hc. auto.
Qed.

(** The Map after the synchronous part is the Map [getTexture] leaves, or
    the one before. *)
Lemma begin_index (st : Store) (sourceId : string) (data : list byte) :
  index (fst (processFrame_begin st sourceId data)) = index st \/
  index (fst (processFrame_begin st sourceId data))
  = index (fst (getTexture st sourceId)).
Proof.
  destruct (begin_cases st sourceId data)
    as [[_ H] | [(_ & _ & H) | [(_ & e & _ & _ & H) | (_ & e & _ & _ & _ & H)]]];
    rewrite H; simpl; auto.
Qed.

(** A key keeps its entry object through every event that does not
    dispose it. *)
Lemma step_keeps_key (st : Store) (ev : StoreEvent) (key : string) (o : nat) :
  disposes key ev = false ->
  get (index st) key = Some o ->
  get (index (fst (step st ev))) key = Some o.
Proof.
  intros Hd Hk. destruct ev as [s data | k outcome | s | s |]; simpl in Hd.
  - assert (H : get (index (fst (processFrame_begin st s data))) key = Some o).
    { destruct (begin_index st s data) as [E | E]; rewrite E;
        [exact Hk | apply getTexture_keeps; exact Hk]. }
    cbn [step]. destruct (processFrame_begin st s data) as [st1 [b |]]; exact H.
  - cbn [step]. destruct (nth_error (suspended st) k) as [[p o'] |]; [| exact Hk].
    unfold processFrame_resume. cbn [objects remove_suspended].
    destruct (objects st !! o') as [e |]; [| exact Hk].
    destruct outcome; exact Hk.
  - cbn [step fst]. apply getTexture_keeps. exact Hk.
  - cbn [step fst]. unfold disposeTexture.
    destruct (get (index st) s) as [o' |]; [| exact Hk].
    cbn [with_index index]. rewrite get_delete, Hd. exact Hk.
  - discriminate Hd.
Qed.

Lemma store_run_cons (st : Store) (ev : StoreEvent) (evs : list StoreEvent) :
  run st (ev :: evs) =
  (fst (run (fst (step st ev)) evs), snd (step st ev) ++ snd (run (fst (step st ev)) evs)).
Proof.
  simpl. destruct (step st ev) as [st1 o1]. cbn [fst snd].
  destruct (run st1 evs) as [st2 o2]. reflexivity.
Qed.

(** *** Well-formed stores *)

Lemma NoDup_snoc {A : Type} (l : list A) (x : A) :
  List.NoDup l -> ~ In x l -> List.NoDup (l ++ [x]).
Proof.
  induction l as [| a l IH]; simpl; intros Hnd Hx.
  - constructor; [intros [] | constructor].
  - apply NoDup_cons_iff in Hnd. destruct Hnd as [Ha Hl].
    constructor.
    + intros Hin. apply in_app_or in Hin. destruct Hin as [Hin | [E | []]].
      * apply Ha. exact Hin.
      * apply Hx. left. congruence.
    + apply IH; [exact Hl |]. intros Hin. apply Hx. right. exact Hin.
Qed.

Lemma wf_empty : well_formed empty.
Proof.
  unfold well_formed, empty; cbn [index suspended objects nextObject map].
  split; [constructor |]. split; [constructor |].
  split; [intros k o [] |]. split; [intros p o [] |].
  split; [constructor |].
  split.
  - intros o e H. rewrite lookup_empty in H. discriminate H.
  - intros o [e H]. rewrite lookup_empty in H. discriminate H.
Qed.

Lemma held_pair (l : list (Pending * nat)) (o : nat) :
  In o (map snd l) -> exists p, In (p, o) l.
Proof.
  intros H. apply in_map_iff in H. destruct H as ([p o'] & E & Hin).
  simpl in E. subst o'. exists p. exact Hin.
Qed.

Lemma pair_held (l : list (Pending * nat)) (p : Pending) (o : nat) :
  In (p, o) l -> In o (map snd l).
Proof. intros H. apply in_map_iff. exists (p, o). auto. Qed.

(** One entry object is written to, and the list of suspended calls
    changes with its [processing] flag. *)
Lemma wf_update (st : Store) (o : nat) (e e' : Entry)
  (susp' : list (Pending * nat)) (cl' : list ImageBitmap) :
  well_formed st ->
  objects st !! o = Some e ->
  List.NoDup (map snd susp') ->
  (forall p' o', In (p', o') susp' ->
     (o' = o /\ processing e' = true) \/ (o' <> o /\ In o' (map snd (suspended st)))) ->
  (processing e' = true -> In o (map snd susp')) ->
  (forall o', o' <> o -> In o' (map snd (suspended st)) -> In o' (map snd susp')) ->
  well_formed {| objects := <[o := e']> (objects st);
                 index := index st;
                 suspended := susp';
                 closed := cl';
                 nextObject := nextObject st |}.
Proof.
  intros (W1 & W2 & W3 & W4 & W5 & W6 & W7) He H1 H2 H3 H4.
  unfold well_formed; cbn [objects index suspended nextObject].
  split; [exact W1 |]. split; [exact W2 |].
  split.
  { intros k o' Hin. destruct (W3 k o' Hin) as [Hlt Hs]. split; [exact Hlt |].
    destruct (decide (o' = o)) as [-> | Hne].
    - rewrite lookup_insert_eq. eauto.
    - rewrite lookup_insert_ne by congruence. exact Hs. }
  split.
  { intros p' o' Hin. destruct (H2 p' o' Hin) as [[-> Hb] | [Hne Hold]].
    - split; [apply W7; eauto |]. exists e'. rewrite lookup_insert_eq. auto.
    - destruct (held_pair _ _ Hold) as [p'' Hp''].
      destruct (W4 p'' o' Hp'') as [Hlt (e0 & He0 & Hb0)].
      split; [exact Hlt |]. exists e0.
      rewrite lookup_insert_ne by congruence. auto. }
  split; [exact H1 |].
  split.
  { intros o' e0 Hl Hb. destruct (decide (o' = o)) as [-> | Hne].
    - rewrite lookup_insert_eq in Hl. injection Hl as Hl. subst e0. apply H3. exact Hb.
    - rewrite lookup_insert_ne in Hl by congruence.
      apply H4; [exact Hne |]. apply (W6 o' e0); assumption. }
  intros o' Hs. destruct (decide (o' = o)) as [-> | Hne].
  - apply W7. eauto.
  - rewrite lookup_insert_ne in Hs by congruence. apply W7. exact Hs.
Qed.

Lemma fresh_object (st : Store) :
  well_formed st -> objects st !! nextObject st = None.
Proof.
  intros (_ & _ & _ & _ & _ & _ & W7).
  destruct (objects st !! nextObject st) as [e |] eqn:El; [| reflexivity].
  assert (nextObject st < nextObject st)%nat by (apply W7; eauto). lia.
Qed.

Lemma wf_getTexture (st : Store) (sourceId : string) :
  well_formed st -> well_formed (fst (getTexture st sourceId)).
Proof.
  intros W. unfold getTexture.
  destruct (get (index st) sourceId) as [o |] eqn:E; [exact W |].
  pose proof (fresh_object st W) as Hfresh.
  destruct W as (W1 & W2 & W3 & W4 & W5 & W6 & W7).
  cbn [fst]. unfold well_formed; cbn [objects index suspended nextObject].
  split.
  { rewrite map_app. cbn [map fst]. apply NoDup_snoc; [exact W1 |].
    apply get_None. exact E. }
  split.
  { rewrite map_app. cbn [map snd]. apply NoDup_snoc; [exact W2 |].
    intros Hin. apply in_map_iff in Hin. destruct Hin as ([k o] & Eo & Hin).
    simpl in Eo. subst o. destruct (W3 k _ Hin) as [Hlt _]. lia. }
  split.
  { intros k o Hin. apply in_app_or in Hin. destruct Hin as [Hin | [Eq | []]].
    - destruct (W3 k o Hin) as [Hlt Hs]. split; [lia |].
      rewrite lookup_insert_ne by lia. exact Hs.
    - injection Eq as _ Eo. subst o. split; [lia |].
      rewrite lookup_insert_eq. eauto. }
  split.
  { intros p o Hin. destruct (W4 p o Hin) as [Hlt (e & He & Hb)].
    split; [lia |]. exists e. rewrite lookup_insert_ne by lia. auto. }
  split; [exact W5 |].
  split.
  { intros o e Hl Hb. destruct (decide (o = nextObject st)) as [-> | Hne].
    - rewrite lookup_insert_eq in Hl. injection Hl as Hl. subst e. discriminate Hb.
    - rewrite lookup_insert_ne in Hl by congruence. apply (W6 o e); assumption. }
  intros o Hs. destruct (decide (o = nextObject st)) as [-> | Hne]; [lia |].
  rewrite lookup_insert_ne in Hs by congruence. apply W7 in Hs. lia.
Qed.

Lemma wf_begin (st : Store) (sourceId : string) (data : list byte) :
  well_formed st -> well_formed (fst (processFrame_begin st sourceId data)).
Proof.
  intros W. pose proof (wf_getTexture st sourceId W) as W1.
  destruct (getTexture_rest st sourceId) as [Hs Hc].
  destruct (begin_cases st sourceId data)
    as [[_ H] | [(_ & _ & H) | [(_ & e & _ & _ & H) | (_ & e & He & _ & Hp & H)]]];
    rewrite H; cbn [fst]; try assumption.
  rewrite <- Hs.
  apply (wf_update _ _ e); [exact W1 | exact He | | | |].
  - rewrite map_app. cbn [map snd]. apply NoDup_snoc; [apply W1 |].
    intros Hin. destruct (held_pair _ _ Hin) as [p' Hp'].
    destruct W1 as (_ & _ & _ & W4 & _).
    destruct (W4 p' _ Hp') as [_ (e0 & He0 & Hb0)]. congruence.
  - intros p' o' Hin. apply in_app_or in Hin. destruct Hin as [Hin | [Eq | []]].
    + right. split; [| eapply pair_held; exact Hin].
      intros ->. destruct W1 as (_ & _ & _ & W4 & _).
      destruct (W4 p' _ Hin) as [_ (e0 & He0 & Hb0)]. congruence.
    + injection Eq as _ Eo. left. split; [congruence | reflexivity].
  - intros _. rewrite map_app. apply in_or_app. right. left. reflexivity.
  - intros o' _ Hin. rewrite map_app. apply in_or_app. left. exact Hin.
Qed.

Lemma suspended_split_at {A : Type} (l : list A) (k : nat) (a : A) :
  nth_error l k = Some a -> l = firstn k l ++ a :: skipn (S k) l.
Proof.
  revert k. induction l as [| x l IH]; intros [| k]; simpl; try discriminate.
  - intros H. injection H as ->. reflexivity.
  - intros H. f_equal. apply IH. exact H.
Qed.

Lemma wf_resume (st : Store) (k : nat) (p : Pending) (o : nat)
  (outcome : option ImageBitmap) :
  well_formed st ->
  nth_error (suspended st) k = Some (p, o) ->
  well_formed (fst (processFrame_resume (remove_suspended st k) p o outcome)).
Proof.
  intros W Hk. pose proof (suspended_split_at _ _ _ Hk) as Hsplit.
  set (l1 := firstn k (suspended st)) in *.
  set (l2 := skipn (S k) (suspended st)) in *.
  assert (Hnd : List.NoDup (map snd (l1 ++ l2)) /\ ~ In o (map snd (l1 ++ l2))).
  { destruct W as (_ & _ & _ & _ & W5 & _). rewrite Hsplit in W5.
    rewrite map_app in W5. cbn [map snd] in W5.
    rewrite map_app. split; [eapply NoDup_remove_1 | eapply NoDup_remove_2]; exact W5. }
  destruct Hnd as [Hnd Hout].
  assert (Hsub : forall o', In o' (map snd (l1 ++ l2)) -> In o' (map snd (suspended st))).
  { intros o' Hin. rewrite Hsplit. rewrite map_app in *. cbn [map snd].
    apply in_app_or in Hin. apply in_or_app. destruct Hin; [left | right; right]; assumption. }
  assert (Hsup : forall o', o' <> o -> In o' (map snd (suspended st)) ->
                            In o' (map snd (l1 ++ l2))).
  { intros o' Hne Hin. rewrite Hsplit in Hin. rewrite map_app in *. cbn [map snd] in Hin.
    apply in_app_or in Hin. apply in_or_app.
    destruct Hin as [Hin | [E | Hin]]; [left | congruence | right]; assumption. }
  assert (Hheld : exists e, objects st !! o = Some e).
  { destruct W as (_ & _ & _ & W4 & _).
    destruct (W4 p o) as [_ (e & He & _)]; [| eauto].
    eapply nth_error_In. exact Hk. }
  destruct Hheld as [e He].
  assert (Hpairs : forall p' o', In (p', o') (l1 ++ l2) ->
            o' <> o /\ In o' (map snd (suspended st))).
  { intros p' o' Hin. apply pair_held in Hin. split; [| apply Hsub; exact Hin].
    intros ->. apply Hout. exact Hin. }
  unfold processFrame_resume. cbn [objects remove_suspended index suspended closed nextObject].
  rewrite He. fold l1 l2.
  destruct outcome as [bitmap |]; cbn [fst].
  - apply (wf_update _ _ e); [exact W | exact He | exact Hnd | | | exact Hsup].
    + intros p' o' Hin. right. apply (Hpairs p'). exact Hin.
    + intros Hb. discriminate Hb.
  - apply (wf_update _ _ e); [exact W | exact He | exact Hnd | | | exact Hsup].
    + intros p' o' Hin. right. apply (Hpairs p'). exact Hin.
    + intros Hb. discriminate Hb.
Qed.

Lemma wf_release (st : Store) (o : nat) :
  well_formed st -> well_formed (release st o).
Proof.
  intros W. unfold release. destruct (objects st !! o) as [e |] eqn:He; [| exact W].
  apply (wf_update _ _ e); [exact W | exact He | apply W | | |].
  - intros p' o' Hin. destruct (decide (o' = o)) as [-> | Hne].
    + left. split; [reflexivity |]. destruct W as (_ & _ & _ & W4 & _).
      destruct (W4 p' o Hin) as [_ (e0 & He0 & Hb0)]. cbn [disposed_entry processing].
      congruence.
    + right. split; [exact Hne | eapply pair_held; exact Hin].
  - cbn [disposed_entry processing]. intros Hb.
    destruct W as (_ & _ & _ & _ & _ & W6 & _). apply (W6 o e); assumption.
  - intros o' _ Hin. exact Hin.
Qed.

Lemma wf_with_index (st : Store) (ix : list (string * nat)) :
  well_formed st ->
  List.NoDup (map fst ix) ->
  List.NoDup (map snd ix) ->
  (forall k o, In (k, o) ix -> In (k, o) (index st)) ->
  well_formed (with_index st ix).
Proof.
  intros (W1 & W2 & W3 & W4 & W5 & W6 & W7) H1 H2 H3.
  unfold well_formed, with_index; cbn [objects index suspended nextObject].
  split; [exact H1 |]. split; [exact H2 |].
  split; [intros k o Hin; apply (W3 k); apply H3; exact Hin |].
  auto.
Qed.

Lemma release_index (st : Store) (o : nat) : index (release st o) = index st.
Proof. unfold release. destruct (objects st !! o); reflexivity. Qed.

Lemma release_suspended (st : Store) (o : nat) : suspended (release st o) = suspended st.
Proof. unfold release. destruct (objects st !! o); reflexivity. Qed.

Lemma wf_disposeTexture (st : Store) (sourceId : string) :
  well_formed st -> well_formed (disposeTexture st sourceId).
Proof.
  intros W. unfold disposeTexture.
  destruct (get (index st) sourceId) as [o |]; [| exact W].
  apply wf_with_index; [apply wf_release; exact W | | |].
  - apply NoDup_map_filter. apply W.
  - apply NoDup_map_filter. apply W.
  - intros k o' Hin. apply In_delete in Hin. rewrite release_index. tauto.
Qed.

Lemma wf_release_all (l : list (string * nat)) (st : Store) :
  well_formed st ->
  well_formed (fold_left (fun acc e => release acc (snd e)) l st).
Proof.
  revert st. induction l as [| [k o] l IH]; simpl; intros st W; [exact W |].
  apply IH. apply wf_release. exact W.
Qed.

Lemma wf_disposeAll (st : Store) : well_formed st -> well_formed (disposeAll st).
Proof.
  intros W. unfold disposeAll.
  apply wf_with_index; [apply wf_release_all; exact W | constructor | constructor |].
  intros k o [].
Qed.

Lemma wf_step (st : Store) (ev : StoreEvent) :
  well_formed st -> well_formed (fst (step st ev)).
Proof.
  intros W. destruct ev as [s data | k outcome | s | s |]; cbn [step].
  - pose proof (wf_begin st s data W) as H.
    destruct (processFrame_begin st s data) as [st1 [b |]]; exact H.
  - destruct (nth_error (suspended st) k) as [[p o] |] eqn:Hk; [| exact W].
    pose proof (wf_resume st k p o outcome W Hk) as H.
    destruct (processFrame_resume (remove_suspended st k) p o outcome) as [st1 b]. exact H.
  - apply wf_getTexture. exact W.
  - apply wf_disposeTexture. exact W.
  - apply wf_disposeAll. exact W.
Qed.

Lemma wf_run (evs : list StoreEvent) (st : Store) :
  well_formed st -> well_formed (fst (run st evs)).
Proof.
  revert st. induction evs as [| ev evs IH]; intros st W; [exact W |].
  rewrite store_run_cons. cbn [fst]. apply IH. apply wf_step. exact W.
Qed.

(** *** Between disposals *)

Lemma run_keeps_key (evs : list StoreEvent) (st : Store) (key : string) (o : nat) :
  Forall (fun ev => disposes key ev = false) evs ->
  get (index st) key = Some o ->
  get (index (fst (run st evs))) key = Some o.
Proof.
  revert st. induction evs as [| ev evs IH]; intros st Hall Hk; [exact Hk |].
  rewrite store_run_cons. cbn [fst]. inversion Hall; subst.
  apply IH; [assumption |]. apply step_keeps_key; assumption.
Qed.

(** X20.  [getTexture] hands out one texture per source for as long as
    the source is not disposed: after a first [getTexture(id)], and
    through any frames, settled decodes, other [getTexture] calls and
    disposals of other sources, [getTexture(id)] finds the same entry
    object (whose [texture] field is never reassigned) and changes
    nothing. *)
Theorem texture_handle_stable (st : Store) (sourceId : string) (evs : list StoreEvent) :
  Forall (fun ev => disposes sourceId ev = false) evs ->
  getTexture (fst (run (fst (getTexture st sourceId)) evs)) sourceId
  = (fst (run (fst (getTexture st sourceId)) evs), snd (getTexture st sourceId)).
Proof.
  intros Hall. apply store_getTexture_present.
  apply run_keeps_key; [exact Hall |]. apply getTexture_get.
Qed.

Lemma texture_handle_stable_witness :
  getTexture
    (fst (run (fst (getTexture empty "cam"))
            [CallProcessFrame "cam" (frame_at bytes_5); SettleDecode 0 (Some 1%nat);
             CallGetTexture "desk"; CallDisposeTexture "desk"])) "cam"
  = (fst (run (fst (getTexture empty "cam"))
            [CallProcessFrame "cam" (frame_at bytes_5); SettleDecode 0 (Some 1%nat);
             CallGetTexture "desk"; CallDisposeTexture "desk"]),
     snd (getTexture empty "cam")).
Proof.
  apply (texture_handle_stable empty "cam").
  repeat constructor.
Defined.

(** *** Disposal *)

Lemma same_object_same_key (ix : list (string * nat)) (k k' : string) (o : nat) :
  List.NoDup (map snd ix) -> In (k, o) ix -> In (k', o) ix -> k = k'.
Proof.
  induction ix as [| [k0 o0] ix IH]; simpl; intros Hnd H1 H2; [destruct H1 |].
  apply NoDup_cons_iff in Hnd. destruct Hnd as [Ho Hnd].
  destruct H1 as [E1 | H1], H2 as [E2 | H2].
  - congruence.
  - injection E1 as E1 E1'. subst k0 o0. exfalso. apply Ho.
    apply (in_map snd) in H2. exact H2.
  - injection E2 as E2 E2'. subst k0 o0. exfalso. apply Ho.
    apply (in_map snd) in H1. exact H1.
  - apply IH; assumption.
Qed.

Lemma release_objects_other (st : Store) (o o' : nat) :
  o' <> o -> objects (release st o) !! o' = objects st !! o'.
Proof.
  intros Hne. unfold release. destruct (objects st !! o); [| reflexivity].
  cbn [objects]. apply lookup_insert_ne. congruence.
Qed.

Lemma release_nextObject (st : Store) (o : nat) : nextObject (release st o) = nextObject st.
Proof. unfold release. destruct (objects st !! o); reflexivity. Qed.

Lemma disposeTexture_get (st : Store) (sourceId : string) :
  get (index (disposeTexture st sourceId)) sourceId = None.
Proof.
  unfold disposeTexture. destruct (get (index st) sourceId) as [o |] eqn:E; [| exact E].
  cbn [with_index index]. rewrite get_delete, String.eqb_refl. reflexivity.
Qed.

Lemma disposeTexture_suspended (st : Store) (sourceId : string) :
  suspended (disposeTexture st sourceId) = suspended st.
Proof.
  unfold disposeTexture. destruct (get (index st) sourceId) as [o |]; [| reflexivity].
  cbn [with_index suspended]. apply release_suspended.
Qed.

Lemma disposeTexture_nextObject (st : Store) (sourceId : string) :
  nextObject (disposeTexture st sourceId) = nextObject st.
Proof.
  unfold disposeTexture. destruct (get (index st) sourceId) as [o |]; [| reflexivity].
  cbn [with_index nextObject]. apply release_nextObject.
Qed.

(** X21.  [disposeTexture(id)] removes the entry of [id] and nothing
    else: every other source keeps its entry with all its fields, the
    calls suspended at the await stay suspended, and a second
    [disposeTexture(id)] changes nothing. *)
Theorem disposeTexture_only_its_key (st : Store) (sourceId : string) :
  well_formed st ->
  entry_of (disposeTexture st sourceId) sourceId = None /\
  (forall other, other <> sourceId ->
     entry_of (disposeTexture st sourceId) other = entry_of st other) /\
  suspended (disposeTexture st sourceId) = suspended st /\
  disposeTexture (disposeTexture st sourceId) sourceId = disposeTexture st sourceId.
Proof.
  intros W.
  split; [unfold entry_of; rewrite disposeTexture_get; reflexivity |].
  split.
  { intros other Hne. unfold entry_of, disposeTexture.
    destruct (get (index st) sourceId) as [o |] eqn:E; [| reflexivity].
    cbn [with_index index objects]. rewrite get_delete.
    destruct (String.eqb_spec sourceId other) as [-> | _]; [congruence |].
    destruct (get (index st) other) as [o' |] eqn:E'; [| reflexivity].
    apply release_objects_other. intros ->.
    apply Hne. destruct W as (_ & W2 & _).
    apply (same_object_same_key (index st) other sourceId o W2); apply get_In; assumption. }
  split; [apply disposeTexture_suspended |].
  pose proof (disposeTexture_get st sourceId) as Hnone.
  unfold disposeTexture at 1. rewrite Hnone. reflexivity.
Qed.

Lemma disposeTexture_only_its_key_witness :
  entry_of
    (disposeTexture
       (fst (run empty [CallProcessFrame "cam" (frame_at bytes_5); CallGetTexture "desk"]))
       "cam") "desk"
  = Some placeholderEntry.
Proof.
  destruct (disposeTexture_only_its_key
              (fst (run empty [CallProcessFrame "cam" (frame_at bytes_5);
                               CallGetTexture "desk"])) "cam")
    as (_ & H & _).
  - apply wf_run. exact wf_empty.
  - rewrite (H "desk"); [| discriminate]. vm_compute. reflexivity.
Defined.

Lemma release_with_index (st : Store) (ix : list (string * nat)) (o : nat) :
  release (with_index st ix) o = with_index (release st o) ix.
Proof.
  unfold release, with_index. cbn [objects].
  destruct (objects st !! o); reflexivity.
Qed.

Lemma release_all_with_index (l ix : list (string * nat)) (st : Store) :
  fold_left (fun acc e => release acc (snd e)) l (with_index st ix)
  = with_index (fold_left (fun acc e => release acc (snd e)) l st) ix.
Proof.
  revert st. induction l as [| [k o] l IH]; intros st; simpl; [reflexivity |].
  rewrite release_with_index. apply IH.
Qed.

Lemma delete_absent (ix : list (string * nat)) (key : string) :
  ~ In key (map fst ix) -> delete ix key = ix.
Proof.
  induction ix as [| [k o] ix IH]; simpl; intros H; [reflexivity |].
  unfold delete. simpl.
  destruct (String.eqb_spec k key) as [-> | Hne]; [exfalso; apply H; left; reflexivity |].
  simpl. f_equal. apply IH. intros Hin. apply H. right. exact Hin.
Qed.

Lemma dispose_each (ix : list (string * nat)) (st : Store) :
  List.NoDup (map fst ix) ->
  index st = ix ->
  fold_left disposeTexture (map fst ix) st
  = with_index (fold_left (fun acc e => release acc (snd e)) ix st) [].
Proof.
  revert st. induction ix as [| [k o] ix IH]; intros st Hnd Hix.
  - simpl. destruct st as [ob ix' su cl nx]. simpl in Hix. subst ix'. reflexivity.
  - apply NoDup_cons_iff in Hnd. destruct Hnd as [Hk Hnd].
    assert (E : disposeTexture st k = with_index (release st o) ix).
    { unfold disposeTexture. rewrite Hix. simpl get. rewrite String.eqb_refl.
      f_equal. unfold delete. simpl. rewrite String.eqb_refl. simpl.
      apply (delete_absent ix k). exact Hk. }
    simpl. rewrite E. rewrite (IH _ Hnd) by reflexivity.
    rewrite release_all_with_index. reflexivity.
Qed.

(** X22.  [disposeAll()] leaves the manager as calling
    [disposeTexture(id)] for every key of the Map, in insertion order,
    does: the same bitmaps closed in the same order, the same textures
    disposed, and an empty Map. *)
Theorem disposeAll_disposes_each (st : Store) :
  List.NoDup (map fst (index st)) ->
  disposeAll st = fold_left disposeTexture (map fst (index st)) st /\
  index (disposeAll st) = [].
Proof.
  intros Hnd. split; [| reflexivity].
  unfold disposeAll. symmetry. apply dispose_each; [exact Hnd | reflexivity].
Qed.

Lemma disposeAll_disposes_each_witness :
  disposeAll
    (fst (run empty [CallProcessFrame "cam" (frame_at bytes_5);
                     SettleDecode 0 (Some 1%nat); CallGetTexture "desk"]))
  = disposeTexture
      (disposeTexture
         (fst (run empty [CallProcessFrame "cam" (frame_at bytes_5);
                          SettleDecode 0 (Some 1%nat); CallGetTexture "desk"])) "cam")
      "desk".
Proof.
  destruct (disposeAll_disposes_each
              (fst (run empty [CallProcessFrame "cam" (frame_at bytes_5);
                               SettleDecode 0 (Some 1%nat); CallGetTexture "desk"])))
    as [H _].
  - apply (wf_run _ empty wf_empty).
  - rewrite H. vm_compute. reflexivity.
Defined.

(** X23.  Whatever frames arrive, decodes settle and textures are asked
    for or disposed, starting from a new manager: no entry object is held
    by two suspended calls of [processFrame], and an entry's [processing]
    flag is set exactly while a suspended call holds it. *)
Theorem one_decode_per_entry (evs : list StoreEvent) :
  List.NoDup (map snd (suspended (fst (run empty evs)))) /\
  forall o e,
    objects (fst (run empty evs)) !! o = Some e ->
    (processing e = true <-> In o (map snd (suspended (fst (run empty evs))))).
Proof.
  destruct (wf_run evs empty wf_empty) as (_ & _ & _ & W4 & W5 & W6 & _).
  split; [exact W5 |].
  intros o e He. split; [apply W6; exact He |].
  intros Hin. destruct (held_pair _ _ Hin) as [p Hp].
  destruct (W4 p o Hp) as [_ (e0 & He0 & Hb)]. congruence.
Qed.

(** The first frame after a disposal. *)
Lemma begin_after_dispose (st : Store) (sourceId : string) (data : list byte) :
  header_ok data ->
  SFleb (getFloat64 data 1) (S754_zero false) = false ->
  snd (processFrame_begin (disposeTexture st sourceId) sourceId data) = Awaiting /\
  suspended (fst (processFrame_begin (disposeTexture st sourceId) sourceId data))
  = suspended st ++
    [(mkPending sourceId (getFloat64 data 1) (getUint32 data 9) (getUint32 data 13)
        (slice data 21 (Z.to_nat (getUint32 data 17))), nextObject st)] /\
  entry_of (fst (processFrame_begin (disposeTexture st sourceId) sourceId data)) sourceId
  = Some (set_processing placeholderEntry true).
Proof.
  intros Hh Hts.
  pose proof (disposeTexture_get st sourceId) as Hnone.
  pose proof (disposeTexture_suspended st sourceId) as Hsusp.
  pose proof (disposeTexture_nextObject st sourceId) as Hnext.
  set (st1 := disposeTexture st sourceId) in *.
  assert (Eg : getTexture st1 sourceId =
               ({| objects := <[nextObject st1 := placeholderEntry]> (objects st1);
                   index := index st1 ++ [(sourceId, nextObject st1)];
                   suspended := suspended st1;
                   closed := closed st1;
                   nextObject := S (nextObject st1) |}, nextObject st1)).
  { unfold getTexture. rewrite Hnone. reflexivity. }
  destruct (begin_cases st1 sourceId data)
    as [[Hbad _] | [(_ & Hl & _) | [(_ & e & Hl & Hor & _) | (_ & e & Hl & _ & _ & H)]]].
  - contradiction.
  - rewrite Eg in Hl. cbn [fst snd objects] in Hl. rewrite lookup_insert_eq in Hl.
    discriminate Hl.
  - rewrite Eg in Hl. cbn [fst snd objects] in Hl. rewrite lookup_insert_eq in Hl.
    injection Hl as Hl. subst e. cbn [placeholderEntry lastTimestamp processing] in Hor.
    destruct Hor as [Hor | Hor]; congruence.
  - rewrite Eg in Hl, H. cbn [fst snd objects index nextObject] in Hl, H.
    rewrite lookup_insert_eq in Hl. injection Hl as Hl. subst e.
    rewrite H. cbn [fst snd suspended]. rewrite Hsusp, Hnext.
    split; [reflexivity |]. split; [reflexivity |].
    unfold entry_of. cbn [index objects].
    rewrite get_app, Hnone, String.eqb_refl. apply lookup_insert_eq.
Qed.

(** X24.  Disposing a source forgets its ordering and its backpressure:
    after [disposeTexture(id)], a well-formed frame for [id] whose
    timestamp is not [<= 0] is accepted for decoding, on a new entry
    object, whatever timestamp was shown before and even while an earlier
    decode for [id] is still in flight; that earlier call stays
    suspended. *)
Theorem dispose_resets_source (st : Store) (sourceId : string) (data : list byte) :
  header_ok data ->
  SFleb (getFloat64 data 1) (S754_zero false) = false ->
  snd (processFrame_begin (disposeTexture st sourceId) sourceId data) = Awaiting /\
  suspended (fst (processFrame_begin (disposeTexture st sourceId) sourceId data))
  = suspended st ++
    [(mkPending sourceId (getFloat64 data 1) (getUint32 data 9) (getUint32 data 13)
        (slice data 21 (Z.to_nat (getUint32 data 17))), nextObject st)] /\
  entry_of (fst (processFrame_begin (disposeTexture st sourceId) sourceId data)) sourceId
  = Some (set_processing placeholderEntry true).
Proof. apply begin_after_dispose. Qed.

Lemma dispose_resets_source_witness :
  let st := fst (run empty [CallProcessFrame "cam" (frame_at bytes_5)]) in
  length (suspended st) = 1%nat /\
  snd (processFrame_begin (disposeTexture st "cam") "cam" (frame_at bytes_3)) = Awaiting.
Proof.
  intros st. split; [reflexivity |].
  destruct (dispose_resets_source st "cam" (frame_at bytes_3)) as (H & _).
  - vm_compute. repeat split; discriminate.
  - vm_compute. reflexivity.
  - exact H.
Defined.

Lemma release_lookup (st : Store) (o : nat) (e : Entry) :
  objects st !! o = Some e ->
  objects (release st o) !! o = Some (disposed_entry e).
Proof.
  intros He. unfold release. rewrite He. cbn [objects]. apply lookup_insert_eq.
Qed.

Lemma release_all_other (l : list (string * nat)) (st : Store) (o : nat) :
  ~ In o (map snd l) ->
  objects (fold_left (fun acc e => release acc (snd e)) l st) !! o = objects st !! o.
Proof.
  revert st. induction l as [| [k o'] l IH]; intros st Hout; simpl; [reflexivity |].
  rewrite IH by (intros Hin; apply Hout; right; exact Hin).
  apply release_objects_other. intros ->. apply Hout. left. reflexivity.
Qed.

Lemma disposeTexture_index (st : Store) (sourceId : string) :
  index (disposeTexture st sourceId) = delete (index st) sourceId.
Proof.
  unfold disposeTexture. destruct (get (index st) sourceId) as [o |] eqn:E; [reflexivity |].
  symmetry. apply delete_absent. apply get_None. exact E.
Qed.

Lemma disposeTexture_orphan (st : Store) (sourceId : string) (o : nat) :
  ~ In o (map snd (index st)) ->
  objects (disposeTexture st sourceId) !! o = objects st !! o.
Proof.
  intros Hout. unfold disposeTexture.
  destruct (get (index st) sourceId) as [o' |] eqn:E; [| reflexivity].
  cbn [with_index objects]. apply release_objects_other. intros ->.
  apply Hout. apply get_In in E. apply (in_map snd) in E. exact E.
Qed.

(** X25.  A decode that settles after its source was disposed: the call
    suspended at the await still holds the entry object it found, so on
    success it installs the bitmap there and resolves to [true], although
    the Map no longer leads to that object: the Map and the entry of every
    key are as [disposeTexture] left them, the disposed source has no
    entry, and the new bitmap stays referenced by the orphaned object,
    which neither a later [disposeTexture] nor [disposeAll] touches. *)
Theorem late_decode_after_dispose (st : Store) (sourceId : string)
  (k : nat) (p : Pending) (o : nat) (bitmap : ImageBitmap) :
  well_formed st ->
  get (index st) sourceId = Some o ->
  nth_error (suspended st) k = Some (p, o) ->
  let st1 := disposeTexture st sourceId in
  let st2 := fst (step st1 (SettleDecode k (Some bitmap))) in
  snd (step st1 (SettleDecode k (Some bitmap)))
  = [Applied (p_sourceId p) (p_timestamp p); Returned (p_sourceId p) true] /\
  index st2 = index st1 /\
  (forall key, entry_of st2 key = entry_of st1 key) /\
  entry_of st2 sourceId = None /\
  (exists e, objects st2 !! o = Some e /\ lastBitmap e = Some bitmap /\
             image (texture e) = Bitmap bitmap) /\
  (forall key, objects (disposeTexture st2 key) !! o = objects st2 !! o) /\
  objects (disposeAll st2) !! o = objects st2 !! o.
Proof.
  intros W Hget Hk st1 st2.
  assert (He : exists e, objects st !! o = Some e).
  { destruct W as (_ & _ & W3 & _). destruct (W3 sourceId o) as [_ [e He]]; [| eauto].
    apply get_In. exact Hget. }
  destruct He as [e He].
  assert (Hix : index st1 = delete (index st) sourceId) by apply disposeTexture_index.
  assert (Hsusp : suspended st1 = suspended st) by apply disposeTexture_suspended.
  assert (Hl1 : objects st1 !! o = Some (disposed_entry e)).
  { unfold st1, disposeTexture. rewrite Hget. cbn [with_index objects].
    apply release_lookup. exact He. }
  assert (Hout : ~ In o (map snd (index st1))).
  { rewrite Hix. intros Hin. apply in_map_iff in Hin.
    destruct Hin as ([k' o'] & Eo & Hin). simpl in Eo. subst o'.
    apply In_delete in Hin. destruct Hin as [Hin Hne]. apply Hne.
    destruct W as (_ & W2 & _).
    apply (same_object_same_key (index st) k' sourceId o W2); [exact Hin |].
    apply get_In. exact Hget. }
  assert (Hstep : step st1 (SettleDecode k (Some bitmap)) =
            ({| objects := <[o := install (disposed_entry e) p bitmap]> (objects st1);
                index := index st1;
                suspended := firstn k (suspended st1) ++ skipn (S k) (suspended st1);
                closed := match lastBitmap e with
                          | Some old => closed st1 ++ [old]
                          | None => closed st1
                          end;
                nextObject := nextObject st1 |},
             [Applied (p_sourceId p) (p_timestamp p); Returned (p_sourceId p) true])).
  { cbn [step]. rewrite <- Hsusp in Hk. rewrite Hk. unfold processFrame_resume.
    cbn [remove_suspended objects]. rewrite Hl1. reflexivity. }
  unfold st2. rewrite Hstep. cbn [fst snd index objects].
  split; [reflexivity |]. split; [reflexivity |].
  assert (Hentries : forall key,
            entry_of {| objects := <[o := install (disposed_entry e) p bitmap]> (objects st1);
                        index := index st1;
                        suspended := firstn k (suspended st1) ++ skipn (S k) (suspended st1);
                        closed := match lastBitmap e with
                                  | Some old => closed st1 ++ [old]
                                  | None => closed st1
                                  end;
                        nextObject := nextObject st1 |} key
            = entry_of st1 key).
  { intros key. unfold entry_of. cbn [index objects].
    destruct (get (index st1) key) as [o' |] eqn:E'; [| reflexivity].
    apply lookup_insert_ne. intros ->. apply Hout.
    apply get_In in E'. apply (in_map snd) in E'. exact E'. }
  split; [exact Hentries |].
  split.
  { rewrite Hentries. unfold entry_of, st1. rewrite disposeTexture_get. reflexivity. }
  split.
  { exists (install (disposed_entry e) p bitmap). rewrite lookup_insert_eq.
    split; [reflexivity |]. split; reflexivity. }
  split.
  - intros key. apply disposeTexture_orphan. exact Hout.
  - unfold disposeAll. cbn [with_index objects index].
    apply release_all_other. exact Hout.
Qed.

Lemma late_decode_after_dispose_witness :
  let st := fst (run empty [CallProcessFrame "cam" (frame_at bytes_5)]) in
  snd (step (disposeTexture st "cam") (SettleDecode 0 (Some 7%nat)))
  = [Applied "cam" (getFloat64 (frame_at bytes_5) 1); Returned "cam" true] /\
  entry_of (fst (step (disposeTexture st "cam") (SettleDecode 0 (Some 7%nat)))) "cam" = None.
Proof.
  intros st.
  destruct (late_decode_after_dispose st "cam" 0
              (mkPending "cam" (getFloat64 (frame_at bytes_5) 1) 2 2 []) 0 7%nat)
    as (H1 & _ & _ & H2 & _).
  - apply (wf_run _ empty wf_empty).
  - reflexivity.
  - reflexivity.
  - split; [exact H1 | exact H2].
Defined.

(** *** Agreement with the manager read by key *)

Lemma stands_for_new : stands_for empty new.
Proof.
  unfold stands_for, empty, new, entry_of;
    cbn [textures decoding closedBitmaps index suspended closed objects get map].
  split; [intros s; apply lookup_empty |].
  split; [reflexivity |]. split; [reflexivity |]. intros p o [].
Qed.

Lemma In_removed {A : Type} (l : list A) (k : nat) (x : A) :
  In x (firstn k l ++ skipn (S k) l) -> In x l.
Proof.
  revert k. induction l as [| a l IH]; intros [| k]; simpl.
  - intros [].
  - intros [].
  - intros H. right. exact H.
  - intros [H | H]; [left; exact H | right; apply (IH k); exact H].
Qed.

(** Writing to the entry object a key leads to is writing to the entry
    of that key. *)
Lemma sim_write (st : Store) (m : Manager) (s : string) (o : nat) (e' : Entry)
  (susp' : list (Pending * nat)) (cl : list ImageBitmap) :
  well_formed st ->
  stands_for st m ->
  get (index st) s = Some o ->
  (forall p o', In (p, o') susp' -> get (index st) (p_sourceId p) = Some o') ->
  stands_for
    {| objects := <[o := e']> (objects st);
       index := index st;
       suspended := susp';
       closed := cl;
       nextObject := nextObject st |}
    {| textures := <[s := e']> (textures m);
       decoding := map fst susp';
       closedBitmaps := cl |}.
Proof.
  intros W (S1 & S2 & S3 & S4) Hget Hs.
  unfold stands_for; cbn [textures decoding closedBitmaps suspended closed index].
  split.
  { intros s'. unfold entry_of; cbn [index objects].
    destruct (decide (s' = s)) as [-> | Hne].
    - rewrite lookup_insert_eq, Hget, lookup_insert_eq. reflexivity.
    - rewrite lookup_insert_ne by congruence. rewrite S1. unfold entry_of.
      destruct (get (index st) s') as [o' |] eqn:E'; [| reflexivity].
      symmetry. apply lookup_insert_ne. intros Eo. subst o'. apply Hne.
      destruct W as (_ & W2 & _).
      apply (same_object_same_key (index st) s' s o W2); apply get_In; assumption. }
  split; [reflexivity |]. split; [reflexivity |]. exact Hs.
Qed.

Lemma sim_getTexture (st : Store) (m : Manager) (s : string) :
  well_formed st ->
  stands_for st m ->
  stands_for (fst (getTexture st s)) (fst (VideoTextureManager.getTexture m s)).
Proof.
  intros W S. pose proof S as (S1 & S2 & S3 & S4).
  unfold getTexture, VideoTextureManager.getTexture. rewrite (S1 s). unfold entry_of.
  destruct (get (index st) s) as [o |] eqn:E.
  - destruct W as (_ & _ & W3 & _).
    destruct (W3 s o (get_In _ _ _ E)) as [_ [e He]]. rewrite He. exact S.
  - cbn [fst]. unfold stands_for;
      cbn [textures decoding closedBitmaps suspended closed index].
    split.
    { intros s'. unfold entry_of; cbn [index objects]. rewrite get_app.
      destruct (decide (s' = s)) as [-> | Hne].
      - rewrite lookup_insert_eq, E, String.eqb_refl, lookup_insert_eq. reflexivity.
      - rewrite lookup_insert_ne by congruence. rewrite (S1 s'). unfold entry_of.
        destruct (get (index st) s') as [o' |] eqn:E'.
        + symmetry. apply lookup_insert_ne.
          destruct W as (_ & _ & W3 & _).
          destruct (W3 s' o' (get_In _ _ _ E')) as [Hlt _]. lia.
        + destruct (String.eqb_spec s s'); [congruence | reflexivity]. }
    split; [exact S2 |]. split; [exact S3 |].
    intros p o Hin. rewrite get_app, (S4 p o Hin). reflexivity.
Qed.

Lemma sim_begin (st : Store) (m : Manager) (s : string) (data : list byte) :
  well_formed st ->
  stands_for st m ->
  stands_for (fst (processFrame_begin st s data))
             (fst (VideoTextureManager.processFrame_begin m s data)) /\
  snd (processFrame_begin st s data)
  = snd (VideoTextureManager.processFrame_begin m s data).
Proof.
  intros W S.
  pose proof (sim_getTexture st m s W S) as S1.
  pose proof (wf_getTexture st s W) as W1.
  pose proof (getTexture_get st s) as Hg.
  unfold processFrame_begin, VideoTextureManager.processFrame_begin.
  destruct (byteLength data <? HEADER_SIZE); [split; [exact S | reflexivity] |].
  destruct (negb (getUint8 data 0 =? 1)); [split; [exact S | reflexivity] |].
  destruct (byteLength data <? HEADER_SIZE + getUint32 data 17);
    [split; [exact S | reflexivity] |].
  set (st1 := fst (getTexture st s)) in *.
  set (o := snd (getTexture st s)) in *.
  set (m1 := fst (VideoTextureManager.getTexture m s)) in *.
  pose proof S1 as (S11 & S12 & S13 & S14).
  assert (El : textures m1 !! s = objects st1 !! o).
  { rewrite (S11 s). unfold entry_of. rewrite Hg. reflexivity. }
  rewrite El. destruct (objects st1 !! o) as [e |] eqn:He;
    [| split; [exact S1 | reflexivity]].
  destruct (SFleb (getFloat64 data 1) (lastTimestamp e));
    [split; [exact S1 | reflexivity] |].
  destruct (processing e); [split; [exact S1 | reflexivity] |].
  cbn [fst snd]. split; [| reflexivity].
  rewrite S12, S13.
  set (p := mkPending s (getFloat64 data 1) (getUint32 data 9) (getUint32 data 13)
              (slice data 21 (Z.to_nat (getUint32 data 17)))).
  assert (Hs : forall p' o', In (p', o') (suspended st1 ++ [(p, o)]) ->
                 get (index st1) (p_sourceId p') = Some o').
  { intros p' o' Hin. apply in_app_or in Hin. destruct Hin as [Hin | [Eq | []]].
    - apply S14. exact Hin.
    - injection Eq as Ep Eo. subst p' o'. exact Hg. }
  pose proof (sim_write st1 m1 s o (set_processing e true)
                (suspended st1 ++ [(p, o)]) (closed st1) W1 S1 Hg Hs) as H.
  rewrite map_app in H. exact H.
Qed.

Lemma sim_step (st : Store) (m : Manager) (ev : Event) :
  well_formed st ->
  stands_for st m ->
  stands_for (fst (step st (of_event ev))) (fst (VideoTextureManager.step m ev)) /\
  snd (step st (of_event ev)) = snd (VideoTextureManager.step m ev).
Proof.
  intros W Hsf. destruct ev as [s data | k outcome];
    cbn [of_event step VideoTextureManager.step].
  - destruct (sim_begin st m s data W Hsf) as [H1 H2].
    destruct (processFrame_begin st s data) as [st1 r1],
             (VideoTextureManager.processFrame_begin m s data) as [m1 r2].
    cbn [fst snd] in *. subst r2. destruct r1; split; auto.
  - pose proof Hsf as (S1 & S2 & S3 & S4).
    rewrite S2. rewrite nth_error_map.
    destruct (nth_error (suspended st) k) as [[p o] |] eqn:Hk; cbn [option_map fst].
    2: { split; [exact Hsf | reflexivity]. }
    assert (Hin : In (p, o) (suspended st)) by (eapply nth_error_In; exact Hk).
    pose proof (S4 p o Hin) as Hget.
    assert (He : exists e, objects st !! o = Some e).
    { destruct W as (_ & _ & _ & W4 & _). destruct (W4 p o Hin) as [_ (e & He & _)]. eauto. }
    destruct He as [e He].
    assert (Hs : forall p' o',
               In (p', o') (firstn k (suspended st) ++ skipn (S k) (suspended st)) ->
               get (index st) (p_sourceId p') = Some o').
    { intros p' o' Hin'. apply S4. eapply In_removed. exact Hin'. }
    unfold processFrame_resume, VideoTextureManager.processFrame_resume, set_entry.
    cbn [remove_suspended remove_pending objects textures decoding closedBitmaps
         index suspended closed nextObject].
    rewrite (S1 (p_sourceId p)). unfold entry_of. rewrite Hget, He.
    rewrite S2, S3. rewrite List.firstn_map, List.skipn_map, <- map_app.
    destruct outcome as [bitmap |]; cbn [fst snd]; (split; [| reflexivity]).
    + apply sim_write; assumption.
    + apply sim_write; assumption.
Qed.

Lemma manager_run_cons (m : Manager) (ev : Event) (evs : list Event) :
  VideoTextureManager.run m (ev :: evs) =
  (fst (VideoTextureManager.run (fst (VideoTextureManager.step m ev)) evs),
   snd (VideoTextureManager.step m ev)
   ++ snd (VideoTextureManager.run (fst (VideoTextureManager.step m ev)) evs)).
Proof.
  simpl. destruct (VideoTextureManager.step m ev) as [m1 o1]. cbn [fst snd].
  destruct (VideoTextureManager.run m1 evs) as [m2 o2]. reflexivity.
Qed.

Lemma sim_run (evs : list Event) (st : Store) (m : Manager) :
  well_formed st ->
  stands_for st m ->
  stands_for (fst (run st (map of_event evs))) (fst (VideoTextureManager.run m evs)) /\
  snd (run st (map of_event evs)) = snd (VideoTextureManager.run m evs).
Proof.
  revert st m. induction evs as [| ev evs IH]; intros st m W S.
  - split; [exact S | reflexivity].
  - cbn [map]. rewrite store_run_cons, manager_run_cons. cbn [fst snd].
    destruct (sim_step st m ev W S) as [S1 E1].
    destruct (IH _ _ (wf_step st (of_event ev) W) S1) as [S2 E2].
    split; [exact S2 |]. rewrite E1, E2. reflexivity.
Qed.

(** X26.  As long as nothing is disposed, keeping the entry objects
    apart from their keys changes nothing: over any frames and settled
    decodes from a new manager, every call resolves to the same value and
    every texture is replaced at the same moments as when the suspended
    call is read as writing to the entry of its source id, every source
    id leads to an entry with the same fields, the same calls are
    suspended and the same bitmaps have been closed. *)
Theorem entry_objects_agree_with_keys (evs : list Event) :
  snd (run empty (map of_event evs)) = snd (VideoTextureManager.run new evs) /\
  (forall sourceId,
     entry_of (fst (run empty (map of_event evs))) sourceId
     = textures (fst (VideoTextureManager.run new evs)) !! sourceId) /\
  map fst (suspended (fst (run empty (map of_event evs))))
  = decoding (fst (VideoTextureManager.run new evs)) /\
  closed (fst (run empty (map of_event evs)))
  = closedBitmaps (fst (VideoTextureManager.run new evs)).
Proof.
  destruct (sim_run evs empty new wf_empty stands_for_new) as [(S1 & S2 & S3 & _) E].
  split; [exact E |]. split; [intros s; symmetry; apply S1 |].
  split; [symmetry; exact S2 | symmetry; exact S3].
Qed.

(** *** Backpressure *)

Lemma step_call (st : Store) (sourceId : string) (data : list byte) :
  fst (step st (CallProcessFrame sourceId data)) = fst (processFrame_begin st sourceId data).
Proof.
  cbn [step]. destruct (processFrame_begin st sourceId data) as [st1 [b |]]; reflexivity.
Qed.

Lemma resume_shape (st : Store) (p : Pending) (o : nat) (outcome : option ImageBitmap) :
  index (fst (processFrame_resume st p o outcome)) = index st /\
  suspended (fst (processFrame_resume st p o outcome)) = suspended st.
Proof.
  unfold processFrame_resume. destruct (objects st !! o) as [e |]; [| auto].
  destruct outcome; auto.
Qed.

Lemma step_settle_store (st : Store) (k : nat) (p : Pending) (o : nat)
  (outcome : option ImageBitmap) :
  nth_error (suspended st) k = Some (p, o) ->
  fst (step st (SettleDecode k outcome))
  = fst (processFrame_resume (remove_suspended st k) p o outcome) /\
  snd (step st (SettleDecode k outcome))
  = (if snd (processFrame_resume (remove_suspended st k) p o outcome)
     then [Applied (p_sourceId p) (p_timestamp p)] else [])
    ++ [Returned (p_sourceId p)
          (snd (processFrame_resume (remove_suspended st k) p o outcome))].
Proof.
  intros Hk. cbn [step]. rewrite Hk.
  destruct (processFrame_resume (remove_suspended st k) p o outcome) as [st1 b].
  split; reflexivity.
Qed.

Lemma step_settle_shape (st : Store) (k : nat) (outcome : option ImageBitmap) :
  index (fst (step st (SettleDecode k outcome))) = index st /\
  forall c, In c (suspended (fst (step st (SettleDecode k outcome)))) -> In c (suspended st).
Proof.
  destruct (nth_error (suspended st) k) as [[p o] |] eqn:Hk.
  - destruct (step_settle_store st k p o outcome Hk) as [E _]. rewrite E.
    destruct (resume_shape (remove_suspended st k) p o outcome) as [E1 E2].
    rewrite E1, E2. split; [reflexivity |].
    intros c Hin. cbn [remove_suspended suspended] in Hin.
    eapply In_removed. exact Hin.
  - cbn [step]. rewrite Hk. cbn [fst]. auto.
Qed.

Lemma owned_getTexture (st : Store) (sourceId : string) :
  well_formed st -> owned st -> owned (fst (getTexture st sourceId)).
Proof.
  intros W Ho. unfold getTexture.
  destruct (get (index st) sourceId) as [o |] eqn:E; [exact Ho |].
  cbn [fst]. intros p o k Hs Hi. cbn [suspended index] in Hs, Hi.
  apply in_app_or in Hi. destruct Hi as [Hi | [Eq | []]].
  - apply (Ho p o k); assumption.
  - injection Eq as Ek Eo. subst o.
    destruct W as (_ & _ & _ & W4 & _). destruct (W4 p _ Hs) as [Hlt _]. lia.
Qed.

Lemma owned_step (st : Store) (ev : StoreEvent) :
  well_formed st -> owned st -> owned (fst (step st ev)).
Proof.
  intros W Ho. destruct ev as [s data | k outcome | s | s |].
  - rewrite step_call.
    pose proof (owned_getTexture st s W Ho) as Ho1.
    pose proof (wf_getTexture st s W) as W1.
    destruct (getTexture_rest st s) as [Hs _].
    destruct (begin_cases st s data)
      as [[_ H] | [(_ & _ & H) | [(_ & e & _ & _ & H) | (_ & e & He & _ & Hp & H)]]];
      rewrite H; cbn [fst]; try assumption.
    intros p o k Hin Hix. cbn [suspended index] in Hin, Hix.
    apply in_app_or in Hin. destruct Hin as [Hin | [Eq | []]].
    + apply (Ho1 p o k); [rewrite Hs; exact Hin | exact Hix].
    + injection Eq as Ep Eo. subst p o. cbn [p_sourceId].
      destruct W1 as (_ & W2 & _).
      apply (same_object_same_key (index (fst (getTexture st s))) s k
               (snd (getTexture st s)) W2); [| exact Hix].
      apply get_In. apply getTexture_get.
  - destruct (step_settle_shape st k outcome) as [E Hsub].
    intros p o key Hin Hix. rewrite E in Hix. apply (Ho p o key); [| exact Hix].
    apply Hsub. exact Hin.
  - cbn [step fst]. apply owned_getTexture; assumption.
  - cbn [step fst]. intros p o k Hin Hix.
    rewrite disposeTexture_suspended in Hin. rewrite disposeTexture_index in Hix.
    apply In_delete in Hix. apply (Ho p o k); tauto.
  - cbn [step fst]. intros p o k Hin Hix. destruct Hix.
Qed.

Lemma owned_run (evs : list StoreEvent) (st : Store) :
  well_formed st -> owned st -> owned (fst (run st evs)).
Proof.
  revert st. induction evs as [| ev evs IH]; intros st W Ho; [exact Ho |].
  rewrite store_run_cons. cbn [fst]. apply IH; [apply wf_step | apply owned_step]; assumption.
Qed.

Lemma owned_empty : owned empty.
Proof. intros p o k []. Qed.

Lemma held_getTexture (st : Store) (sourceId other : string) :
  held_by_key sourceId st -> held_by_key sourceId (fst (getTexture st other)).
Proof.
  intros Hh p o Hin Hp. destruct (getTexture_rest st other) as [Hs _].
  rewrite Hs in Hin. apply getTexture_keeps. apply (Hh p o); assumption.
Qed.

Lemma held_step (st : Store) (ev : StoreEvent) (sourceId : string) :
  held_by_key sourceId st ->
  disposes sourceId ev = false ->
  held_by_key sourceId (fst (step st ev)).
Proof.
  intros Hh Hd. destruct ev as [s data | k outcome | s | s |]; cbn [disposes] in Hd.
  - rewrite step_call.
    pose proof (held_getTexture st sourceId s Hh) as Hh1.
    destruct (getTexture_rest st s) as [Hs _].
    destruct (begin_cases st s data)
      as [[_ H] | [(_ & _ & H) | [(_ & e & _ & _ & H) | (_ & e & He & _ & Hp & H)]]];
      rewrite H; cbn [fst]; try assumption.
    intros p o Hin Hsrc. cbn [suspended index] in Hin |- *.
    apply in_app_or in Hin. destruct Hin as [Hin | [Eq | []]].
    + apply (Hh1 p o); [rewrite Hs; exact Hin | exact Hsrc].
    + injection Eq as Ep Eo. subst p o. cbn [p_sourceId] in Hsrc. subst s.
      apply getTexture_get.
  - destruct (step_settle_shape st k outcome) as [E Hsub].
    intros p o Hin Hsrc. rewrite E. apply (Hh p o); [| exact Hsrc].
    apply Hsub. exact Hin.
  - cbn [step fst]. apply held_getTexture. exact Hh.
  - cbn [step fst]. intros p o Hin Hsrc.
    rewrite disposeTexture_suspended in Hin. rewrite disposeTexture_index.
    rewrite get_delete, Hd. apply (Hh p o); assumption.
  - discriminate Hd.
Qed.

Lemma held_run (evs : list StoreEvent) (st : Store) (sourceId : string) :
  held_by_key sourceId st ->
  Forall (fun ev => disposes sourceId ev = false) evs ->
  held_by_key sourceId (fst (run st evs)).
Proof.
  revert st. induction evs as [| ev evs IH]; intros st Hh Hall; [exact Hh |].
  rewrite store_run_cons. cbn [fst]. inversion Hall; subst.
  apply IH; [| assumption]. apply held_step; assumption.
Qed.

Lemma filter_none {A : Type} (f : A -> bool) (l : list A) :
  (forall a, In a l -> f a = false) -> List.filter f l = [].
Proof.
  induction l as [| a l IH]; intros H; [reflexivity |].
  simpl. rewrite (H a) by (left; reflexivity).
  apply IH. intros b Hb. apply H. right. exact Hb.
Qed.

Lemma at_most_one_held (l : list (Pending * nat)) (f : Pending -> bool) (o : nat) :
  List.NoDup (map snd l) ->
  (forall p o', In (p, o') l -> f p = true -> o' = o) ->
  (length (List.filter (fun c => f (fst c)) l) <= 1)%nat.
Proof.
  induction l as [| [p o'] l IH]; simpl; intros Hnd Hall; [lia |].
  apply NoDup_cons_iff in Hnd. destruct Hnd as [Ho Hnd].
  destruct (f p) eqn:Hf.
  - assert (Eo : o' = o) by (apply (Hall p); auto). subst o'.
    rewrite filter_none; [simpl; lia |].
    intros [p2 o2] Hin. simpl. destruct (f p2) eqn:Hf2; [| reflexivity].
    exfalso. apply Ho. assert (Eo : o2 = o) by (apply (Hall p2); auto). subst o2.
    eapply pair_held. exact Hin.
  - apply IH; [exact Hnd |]. intros p2 o2 Hin Hf2. apply (Hall p2); auto.
Qed.

Lemma in_flight_le_one (st : Store) (sourceId : string) :
  well_formed st -> held_by_key sourceId st ->
  (decodes_in_flight st sourceId <= 1)%nat.
Proof.
  intros W Hh. unfold decodes_in_flight.
  destruct W as (_ & _ & _ & _ & W5 & _).
  destruct (get (index st) sourceId) as [o |] eqn:E.
  - apply (at_most_one_held _ (fun p => String.eqb (p_sourceId p) sourceId) o W5).
    intros p o' Hin Hf. apply String.eqb_eq in Hf.
    pose proof (Hh p o' Hin Hf) as Hg. congruence.
  - apply (at_most_one_held _ (fun p => String.eqb (p_sourceId p) sourceId) 0%nat W5).
    intros p o' Hin Hf. apply String.eqb_eq in Hf.
    pose proof (Hh p o' Hin Hf) as Hg. congruence.
Qed.

Lemma in_flight_positive (st : Store) (sourceId : string) (p : Pending) (o : nat) :
  In (p, o) (suspended st) -> p_sourceId p = sourceId ->
  (1 <= decodes_in_flight st sourceId)%nat.
Proof.
  intros Hin Hs. unfold decodes_in_flight.
  assert (H : In (p, o) (List.filter (fun c => String.eqb (p_sourceId (fst c)) sourceId)
                           (suspended st))).
  { apply filter_In. split; [exact Hin |]. cbn [fst]. apply String.eqb_eq. exact Hs. }
  destruct (List.filter _ (suspended st)); [destruct H | simpl; lia].
Qed.

Lemma idle_held (st : Store) (sourceId : string) :
  decodes_in_flight st sourceId = 0%nat -> held_by_key sourceId st.
Proof.
  intros H0 p o Hin Hs. pose proof (in_flight_positive st sourceId p o Hin Hs). lia.
Qed.

(** A call on a busy entry resolves to false and changes nothing. *)
Lemma begin_busy (st : Store) (sourceId : string) (o : nat) (e : Entry) (data : list byte) :
  get (index st) sourceId = Some o ->
  objects st !! o = Some e ->
  processing e = true ->
  processFrame_begin st sourceId data = (st, Resolved false).
Proof.
  intros Hg He Hb. unfold processFrame_begin.
  destruct (byteLength data <? HEADER_SIZE); [reflexivity |].
  destruct (negb (getUint8 data 0 =? 1)); [reflexivity |].
  destruct (byteLength data <? HEADER_SIZE + getUint32 data 17); [reflexivity |].
  rewrite (store_getTexture_present st sourceId o Hg). cbn [fst snd].
  rewrite He, Hb. destruct (SFleb (getFloat64 data 1) (lastTimestamp e)); reflexivity.
Qed.

(** A well-formed frame newer than what the source shows is accepted when
    no decode of the source is in flight. *)
Lemma begin_accepts (st : Store) (sourceId : string) (data : list byte) :
  well_formed st -> owned st ->
  decodes_in_flight st sourceId = 0%nat ->
  header_ok data ->
  SFltb match entry_of st sourceId with
        | Some e => lastTimestamp e
        | None => S754_zero false
        end (getFloat64 data 1) = true ->
  snd (processFrame_begin st sourceId data) = Awaiting /\
  decodes_in_flight (fst (processFrame_begin st sourceId data)) sourceId = 1%nat.
Proof.
  intros W Ho H0 Hh Hnew.
  apply VideoTextureManagerFacts.SFltb_not_SFleb in Hnew.
  assert (Hentry : exists e1,
             objects (fst (getTexture st sourceId)) !! snd (getTexture st sourceId) = Some e1 /\
             SFleb (getFloat64 data 1) (lastTimestamp e1) = false /\
             processing e1 = false).
  { unfold entry_of in Hnew. unfold getTexture.
    destruct (get (index st) sourceId) as [o |] eqn:Eg; cbn [fst snd objects].
    - destruct W as (_ & _ & W3 & _ & _ & W6 & _).
      destruct (W3 sourceId o (get_In _ _ _ Eg)) as [_ [e He]].
      rewrite He in Hnew |- *. exists e. split; [reflexivity |]. split; [exact Hnew |].
      destruct (processing e) eqn:Hb; [| reflexivity].
      exfalso. destruct (held_pair _ _ (W6 o e He Hb)) as [p Hp].
      pose proof (Ho p o sourceId Hp (get_In _ _ _ Eg)) as Hs.
      pose proof (in_flight_positive st sourceId p o Hp Hs). lia.
    - exists placeholderEntry. rewrite lookup_insert_eq.
      split; [reflexivity |]. split; [exact Hnew | reflexivity]. }
  destruct Hentry as (e1 & He1 & Hfresh & Hidle).
  destruct (begin_cases st sourceId data)
    as [[Hbad _] | [(_ & Hl & _) | [(_ & e & Hl & Hor & _) | (_ & e & Hl & _ & _ & H)]]].
  - contradiction.
  - congruence.
  - rewrite He1 in Hl. injection Hl as Hl. subst e. destruct Hor; congruence.
  - rewrite H. cbn [fst snd]. split; [reflexivity |].
    unfold decodes_in_flight in *. cbn [suspended].
    rewrite List.filter_app, length_app, H0. cbn [List.filter fst p_sourceId].
    rewrite String.eqb_refl. reflexivity.
Qed.

Lemma count_removed {A : Type} (f : A -> bool) (l : list A) (k : nat) (a : A) :
  nth_error l k = Some a ->
  (length (List.filter f (firstn k l ++ skipn (S k) l)) + (if f a then 1 else 0)
   = length (List.filter f l))%nat.
Proof.
  intros Hk. pose proof (suspended_split_at l k a Hk) as E.
  rewrite E at 3. rewrite !List.filter_app, !length_app. cbn [List.filter].
  destruct (f a); simpl; lia.
Qed.

(** The decode of a source settles: the flag of its entry is cleared, no
    decode of the source remains, and the promise resolves. *)
Lemma settle_clears (st : Store) (sourceId : string) (k : nat) (p : Pending) (o : nat)
  (outcome : option ImageBitmap) :
  well_formed st -> held_by_key sourceId st ->
  nth_error (suspended st) k = Some (p, o) -> p_sourceId p = sourceId ->
  exists e,
    entry_of st sourceId = Some e /\ processing e = true /\
    entry_of (fst (step st (SettleDecode k outcome))) sourceId
    = Some match outcome with
           | Some bitmap => install e p bitmap
           | None => set_processing e false
           end /\
    decodes_in_flight (fst (step st (SettleDecode k outcome))) sourceId = 0%nat /\
    snd (step st (SettleDecode k outcome))
    = (if isSome outcome then [Applied sourceId (p_timestamp p)] else [])
      ++ [Returned sourceId (isSome outcome)].
Proof.
  intros W Hh Hk Hs.
  assert (Hin : In (p, o) (suspended st)) by (eapply nth_error_In; exact Hk).
  pose proof (Hh p o Hin Hs) as Hg.
  pose proof (in_flight_le_one st sourceId W Hh) as Hle.
  destruct W as (_ & _ & _ & W4 & _).
  destruct (W4 p o Hin) as [_ (e & He & Hb)].
  exists e. split; [unfold entry_of; rewrite Hg; exact He |]. split; [exact Hb |].
  destruct (step_settle_store st k p o outcome Hk) as [E1 E2]. rewrite E1, E2, Hs.
  pose proof (count_removed (fun c => String.eqb (p_sourceId (fst c)) sourceId)
                (suspended st) k (p, o) Hk) as Hc.
  cbn [fst] in Hc. rewrite Hs, String.eqb_refl in Hc.
  unfold decodes_in_flight in Hle |- *.
  unfold processFrame_resume. cbn [remove_suspended objects]. rewrite He.
  destruct outcome as [bitmap |]; cbn [fst snd isSome suspended remove_suspended];
    (split; [unfold entry_of; cbn [index objects remove_suspended]; rewrite Hg;
             apply lookup_insert_eq |]);
    (split; [lia | reflexivity]).
Qed.

(** C4 as stated fails.  With the source disposed while its decode is
    awaited, two decodes of the source are in flight: both calls are
    suspended, each on an entry of its own, and nothing has been returned
    to either caller. *)
Lemma dispose_admits_second_decode :
  let st := fst (run empty disposed_mid_decode) in
  decodes_in_flight st "cam" = 2%nat /\
  map (fun c => p_sourceId (fst c)) (suspended st) = ["cam"; "cam"] /\
  map snd (suspended st) = [0%nat; 1%nat] /\
  get (index st) "cam" = Some 1%nat /\
  snd (run empty disposed_mid_decode) = [].
Proof. vm_compute. repeat split; reflexivity. Qed.

(** C4.  A call for a source whose entry is busy resolves to false and
    leaves the manager as it was, so nothing is queued; no entry is ever
    held by two suspended calls.  From any moment at which a source has no
    decode in flight, and for as long as the source is not disposed
    ([disposeTexture] of it, [disposeAll]): the source has at most one
    decode in flight; when that decode settles, with a bitmap or with a
    failure, the flag of its entry is cleared, no decode of the source
    remains and the promise resolves; and whenever the source has no decode
    in flight, a well-formed frame with a timestamp greater than the one
    its entry shows (greater than 0 when it has no entry yet) is accepted
    for decoding.  A disposal waits for nothing: after [disposeTexture] a
    well-formed frame of the source with a timestamp that is not [<= 0] is
    accepted on a new entry whatever is in flight, which adds a decode to
    those of the source. *)
Theorem backpressure_until_disposed (before after : list StoreEvent) (sourceId : string) :
  let st0 := fst (run empty before) in
  let st := fst (run st0 after) in
  List.NoDup (map snd (suspended st)) /\
  (forall (any : Store) (o : nat) (e : Entry) (data : list byte),
      get (index any) sourceId = Some o -> objects any !! o = Some e ->
      processing e = true ->
      processFrame_begin any sourceId data = (any, Resolved false)) /\
  (forall data : list byte,
      header_ok data ->
      SFleb (getFloat64 data 1) (S754_zero false) = false ->
      snd (processFrame_begin (disposeTexture st sourceId) sourceId data) = Awaiting /\
      decodes_in_flight (fst (processFrame_begin (disposeTexture st sourceId) sourceId data))
        sourceId
      = S (decodes_in_flight st sourceId)) /\
  (decodes_in_flight st0 sourceId = 0%nat ->
   Forall (fun ev => disposes sourceId ev = false) after ->
   (decodes_in_flight st sourceId <= 1)%nat /\
   (forall (k : nat) (p : Pending) (o : nat) (outcome : option ImageBitmap),
       nth_error (suspended st) k = Some (p, o) -> p_sourceId p = sourceId ->
       let st' := fst (step st (SettleDecode k outcome)) in
       exists e e',
         entry_of st sourceId = Some e /\ processing e = true /\
         entry_of st' sourceId = Some e' /\ processing e' = false /\
         decodes_in_flight st' sourceId = 0%nat /\
         snd (step st (SettleDecode k outcome))
         = (if isSome outcome then [Applied sourceId (p_timestamp p)] else [])
           ++ [Returned sourceId (isSome outcome)] /\
         forall data : list byte,
           header_ok data ->
           SFltb (lastTimestamp e') (getFloat64 data 1) = true ->
           snd (processFrame_begin st' sourceId data) = Awaiting /\
           decodes_in_flight (fst (processFrame_begin st' sourceId data)) sourceId = 1%nat) /\
   (decodes_in_flight st sourceId = 0%nat ->
    forall data : list byte,
      header_ok data ->
      SFltb match entry_of st sourceId with
            | Some e => lastTimestamp e
            | None => S754_zero false
            end (getFloat64 data 1) = true ->
      snd (processFrame_begin st sourceId data) = Awaiting /\
      decodes_in_flight (fst (processFrame_begin st sourceId data)) sourceId = 1%nat)).
Proof.
  intros st0 st.
  pose proof (wf_run before empty wf_empty) as W0. fold st0 in W0.
  pose proof (owned_run before empty wf_empty owned_empty) as O0. fold st0 in O0.
  pose proof (wf_run after st0 W0) as W. fold st in W.
  pose proof (owned_run after st0 W0 O0) as Ow. fold st in Ow.
  split; [apply W |].
  split; [intros any o e data; apply begin_busy |].
  split.
  { intros data Hok Hts.
    destruct (begin_after_dispose st sourceId data Hok Hts) as (Ha & Hs & _).
    split; [exact Ha |]. unfold decodes_in_flight. rewrite Hs.
    rewrite List.filter_app, length_app. cbn [List.filter fst p_sourceId].
    rewrite String.eqb_refl. cbn [length]. lia. }
  intros Hidle Hall.
  pose proof (held_run after st0 sourceId (idle_held st0 sourceId Hidle) Hall) as Hh.
  fold st in Hh.
  split; [apply in_flight_le_one; assumption |].
  split.
  - intros k p o outcome Hk Hs st'.
    destruct (settle_clears st sourceId k p o outcome W Hh Hk Hs)
      as (e & He & Hb & He' & Hz & Hobs).
    fold st' in He', Hz.
    exists e. eexists. split; [exact He |]. split; [exact Hb |].
    split; [exact He' |].
    split; [destruct outcome; reflexivity |].
    split; [exact Hz |]. split; [exact Hobs |].
    intros data Hok Hnew.
    apply begin_accepts; try assumption.
    + apply wf_step. exact W.
    + apply owned_step; assumption.
    + rewrite He'. exact Hnew.
  - intros Hz data Hok Hnew. apply begin_accepts; assumption.
Qed.

Lemma backpressure_until_disposed_witness :
  let st := fst (run empty
                   [CallProcessFrame "cam" (frame_at bytes_3); CallDisposeTexture "cam";
                    SettleDecode 0 (Some 1%nat); CallProcessFrame "cam" (frame_at bytes_5)]) in
  (decodes_in_flight st "cam" <= 1)%nat /\
  snd (processFrame_begin st "cam" (frame_at bytes_5)) = Resolved false.
Proof.
  intros st.
  destruct (backpressure_until_disposed
              [CallProcessFrame "cam" (frame_at bytes_3); CallDisposeTexture "cam";
               SettleDecode 0 (Some 1%nat)]
              [CallProcessFrame "cam" (frame_at bytes_5)] "cam")
    as (_ & Hbusy & _ & Hrest).
  destruct Hrest as (Hle & _).
  - vm_compute. reflexivity.
  - repeat constructor.
  - split; [exact Hle |].
    rewrite (Hbusy st 1%nat (set_processing placeholderEntry true) (frame_at bytes_5));
      reflexivity.
Defined.

End TextureStoreFacts.
